(** * Paper_summarizer: the extraction, chunking and reduction pipeline

    A shallow embedding of the two scripts of the repository,

    - [resumes.py]         (multi-document, comparative chapter), and
    - [resume_ocr_gpu.py]  (single document, Markdown summary),

    together with the properties of their chunking loop, of the chunk
    sizing heuristic, of page extraction, of the summarise/synthesise
    steps and of the runs of [main] and [process_papers].

    Python values are modelled as follows.  A [str] is the list of its
    Unicode code points, an [int] is a [Z], a [float] is a binary64 value of
    the standard library's [SpecFloat].  Calls that may raise return a
    [result]; the [while] loop of [chunk_text] takes a fuel argument and
    answers [OutOfFuel] when the fuel does not suffice.  The external
    collaborators (PDF parser, OCR engine, LLM service, file system, CUDA
    runtime) are the fields of an environment record, and every call to one
    of them is recorded in a trace of events.  Logging calls are left out:
    they do not take part in the data flow. *)

From Stdlib Require Import String Ascii.
From Stdlib Require Import ZArith List Bool Lia.
From Stdlib Require Import Floats.SpecFloat.
Import ListNotations.
Open Scope Z_scope.

(* ================================================================== *)
(** * Python strings *)
(* ================================================================== *)

Module Py.

(** A code point, as given by [ord]. *)
Definition char := Z.

(** A Python [str]. *)
Definition str := list char.

(** [len(s)] *)
Definition len (s : str) : Z := Z.of_nat (length s).

(** Reading a source literal: the bytes of the literal are decoded as
    UTF-8.  [need] counts the continuation bytes still expected and [acc]
    holds the bits read so far. *)
Fixpoint utf8 (s : string) (need : nat) (acc : Z) : str :=
  match s with
  | EmptyString => []
  | String a r =>
      let b := Z.of_nat (nat_of_ascii a) in
      if b <? 128 then b :: utf8 r 0 0
      else if b <? 192 then
        let acc' := acc * 64 + (b - 128) in
        match need with
        | 1%nat => acc' :: utf8 r 0 0
        | _ => utf8 r (Nat.pred need) acc'
        end
      else if b <? 224 then utf8 r 1 (b - 192)
      else if b <? 240 then utf8 r 2 (b - 224)
      else utf8 r 3 (b - 240)
  end.

Definition lit (s : string) : str := utf8 s 0 0.

(** The escape [\n]. *)
Definition LF : char := 10.

(** [c.isspace()] for one code point: the characters that [str.strip()]
    removes when called without argument. *)
Definition isspace (c : char) : bool :=
  ((9 <=? c) && (c <=? 13)) || ((28 <=? c) && (c <=? 32))
  || (c =? 133) || (c =? 160) || (c =? 5760)
  || ((8192 <=? c) && (c <=? 8202))
  || (c =? 8232) || (c =? 8233) || (c =? 8239) || (c =? 8287)
  || (c =? 12288).

Fixpoint lstrip (s : str) : str :=
  match s with
  | [] => []
  | c :: r => if isspace c then lstrip r else s
  end.

Definition rstrip (s : str) : str := rev (lstrip (rev s)).

(** [s.strip()] *)
Definition strip (s : str) : str := rstrip (lstrip s).

(** Truth value of a string: [if s:] holds for the non-empty ones. *)
Definition truthy (s : str) : bool :=
  match s with [] => false | _ :: _ => true end.

(** Normalisation of one bound of a slice [s[i:j]] on a sequence of
    length [n]: a negative bound counts from the end, and both are cut to
    [0 .. n]. *)
Definition slice_bound (n i : Z) : Z :=
  if i <? 0 then Z.max 0 (i + n) else Z.min i n.

(** [s[i:j]] *)
Definition slice (s : str) (i j : Z) : str :=
  let n := len s in
  let a := slice_bound n i in
  let b := slice_bound n j in
  firstn (Z.to_nat (b - a)) (skipn (Z.to_nat a) s).

(** [s.startswith(sub)] *)
Fixpoint startswith (s sub : str) {struct sub} : bool :=
  match sub, s with
  | [], _ => true
  | _ :: _, [] => false
  | x :: sub', y :: s' => (x =? y) && startswith s' sub'
  end.

(** [s.endswith(sub)] *)
Definition endswith (s sub : str) : bool := startswith (rev s) (rev sub).

(** The candidates [b + k - 1], ..., [b] for the start of an occurrence of
    [sub], tried from the highest down; [-1] when none matches. *)
Fixpoint rfind_down (s sub : str) (b : Z) (k : nat) : Z :=
  match k with
  | O => -1
  | S k' =>
      let i := b + Z.of_nat k' in
      if startswith (skipn (Z.to_nat i) s) sub then i
      else rfind_down s sub b k'
  end.

(** [s.rfind(sub, start, end)]: the highest index [i] with
    [start <= i], [i + len(sub) <= end] and [s[i:i+len(sub)] == sub], or
    [-1].  The bounds are adjusted as for a slice, except that [start] is
    not cut down to the length. *)
Definition rfind (s sub : str) (start end_ : Z) : Z :=
  let n := len s in
  let e := if n <? end_ then n
           else if end_ <? 0 then Z.max 0 (end_ + n) else end_ in
  let b := if start <? 0 then Z.max 0 (start + n) else start in
  rfind_down s sub b (Z.to_nat (e - b - len sub + 1)).

(** [sep.join(parts)] *)
Fixpoint join (sep : str) (parts : list str) : str :=
  match parts with
  | [] => []
  | [p] => p
  | p :: rest => p ++ sep ++ join sep rest
  end.

(** [c.lower()] on the ASCII range.  Code points above 127 are left as
    they are: the Unicode case table is not reproduced, and no character
    outside ASCII has a lower-case form containing one of [.], [p], [d] or
    [f], the only characters the scripts compare lowered text with. *)
Definition lower_char (c : char) : char :=
  if (65 <=? c) && (c <=? 90) then c + 32 else c.

(** [s.lower()] *)
Definition lower (s : str) : str := map lower_char s.

(** [s.replace(old, new)] for a non-empty [old]: the occurrences of [old]
    are taken from the left and do not overlap.  [skip] counts the
    characters of the current occurrence that are still to be dropped. *)
Fixpoint replace_from (old new : str) (skip : nat) (s : str) : str :=
  match s with
  | [] => []
  | c :: r =>
      match skip with
      | S k => replace_from old new k r
      | O =>
          if startswith s old
          then new ++ replace_from old new (Nat.pred (length old)) r
          else c :: replace_from old new 0 r
      end
  end.

Definition replace (s old new : str) : str := replace_from old new 0 s.

(** [a <= b] on strings: lexicographic on code points. *)
Fixpoint str_leb (a b : str) : bool :=
  match a, b with
  | [], _ => true
  | _ :: _, [] => false
  | x :: a', y :: b' => (x <? y) || ((x =? y) && str_leb a' b')
  end.

Fixpoint insert_sorted (x : str) (l : list str) : list str :=
  match l with
  | [] => [x]
  | y :: l' => if str_leb x y then x :: l else y :: insert_sorted x l'
  end.

(** [sorted(names)] *)
Definition sorted (l : list str) : list str :=
  fold_right insert_sorted [] l.

(** [os.path.join(a, b)] on a POSIX system. *)
Definition path_join (a b : str) : str :=
  if startswith b (lit "/") then b
  else if negb (truthy a) || endswith a (lit "/") then a ++ b
  else a ++ lit "/" ++ b.

(** A [dict] with string keys and values, in insertion order. *)
Definition dict := list (str * str).

Fixpoint str_eqb (a b : str) : bool :=
  match a, b with
  | [], [] => true
  | x :: a', y :: b' => (x =? y) && str_eqb a' b'
  | _, _ => false
  end.

(** [d[k] = v]: an existing key keeps its place. *)
Fixpoint dict_set (d : dict) (k v : str) : dict :=
  match d with
  | [] => [(k, v)]
  | (k', v') :: d' =>
      if str_eqb k' k then (k, v) :: d' else (k', v') :: dict_set d' k v
  end.

(** [d.keys()] *)
Definition dict_keys (d : dict) : list str := map fst d.

End Py.

Import Py.

(* ================================================================== *)
(** * The chunking loop

    [chunk_text] has the same body in both scripts:
<<
    chunks = []
    start = 0
    length = len(text)
    while start < length:
        end = start + max_chars
        if end < length:
            split = text.rfind("\n\n", start, end)
            if split != -1:
                end = split
        chunk = text[start:end].strip()
        if chunk:
            chunks.append(chunk)
        start = end
    return chunks
>>
*)
(* ================================================================== *)

Module Chunker.

(** The paragraph break ["\n\n"]. *)
Definition para : str := [LF; LF].

(** The variables of the loop that change: [start] and [chunks]. *)
Definition loop_state : Type := Z * list str.

(** The value of [end] at the bottom of the loop body. *)
Definition cut_point (text : str) (max_chars start : Z) : Z :=
  let length := len text in
  let end_ := start + max_chars in
  if end_ <? length then
    let split := rfind text para start end_ in
    if negb (split =? -1) then split else end_
  else end_.

(** One run of the loop body. *)
Definition chunk_body (text : str) (max_chars : Z) (st : loop_state)
  : loop_state :=
  let '(start, chunks) := st in
  let end_ := cut_point text max_chars start in
  let chunk := strip (slice text start end_) in
  let chunks := if truthy chunk then chunks ++ [chunk] else chunks in
  (end_, chunks).

(** The [while] loop; [None] when [fuel] runs of the body did not reach
    the exit test. *)
Fixpoint chunk_loop (fuel : nat) (text : str) (max_chars : Z)
    (st : loop_state) : option (list str) :=
  if fst st <? len text then
    match fuel with
    | O => None
    | S fuel' => chunk_loop fuel' text max_chars (chunk_body text max_chars st)
    end
  else Some (snd st).

(** The function from its first statement to [return chunks], for a given
    [max_chars]. *)
Definition chunk_from_start (fuel : nat) (text : str) (max_chars : Z)
  : option (list str) :=
  chunk_loop fuel text max_chars (0, []).

(** The state after [n] runs of the body, whether or not the loop would
    have stopped before. *)
Fixpoint chunk_iter (n : nat) (text : str) (max_chars : Z) : loop_state :=
  match n with
  | O => (0, [])
  | S n' => chunk_body text max_chars (chunk_iter n' text max_chars)
  end.

End Chunker.

(* ================================================================== *)
(** * Exceptions, results and calls to the collaborators *)
(* ================================================================== *)

Module Runtime.

(** The exceptions that occur; all of them are subclasses of
    [Exception], so [except Exception] catches every one. *)
Inductive exn : Type :=
  | ConnectionError
  | TimeoutError
  | ResponseError
  | KeyError
  | OCRError
  | OSError
  | CudaError
  | ZeroDivisionError
  | OverflowError
  | ValueError.

(** What a call to a collaborator does: it returns or it raises. *)
Inductive outcome (A : Type) : Type :=
  | Returns (a : A)
  | Raises (e : exn).
Arguments Returns {A} a.
Arguments Raises {A} e.

Definition obind {A B : Type} (o : outcome A) (f : A -> outcome B)
  : outcome B :=
  match o with
  | Returns a => f a
  | Raises e => Raises e
  end.

(** What a run of a function of the scripts does: it returns, it raises,
    or the fuel given to the chunking loop ran out. *)
Inductive result (A : Type) : Type :=
  | Done (a : A)
  | Raised (e : exn)
  | OutOfFuel.
Arguments Done {A} a.
Arguments Raised {A} e.
Arguments OutOfFuel {A}.

(** A message of a chat request: role and content. *)
Definition message : Type := str * str.

(** The calls made to the collaborators. *)
Inductive event : Type :=
  | EvPixmap (page_num : Z) (dpi : Z)
  | EvOcr (page_num : Z)
  | EvChat (model : str) (messages : list message)
  | EvWrite (path : str) (content : str).

(** A computation: the calls it made, in order, and how it ended. *)
Definition M (A : Type) : Type := list event * result A.

Definition ret {A : Type} (a : A) : M A := ([], Done a).

Definition bind {A B : Type} (m : M A) (f : A -> M B) : M B :=
  match m with
  | (t, Done a) => let '(t', r) := f a in (t ++ t', r)
  | (t, Raised e) => (t, Raised e)
  | (t, OutOfFuel) => (t, OutOfFuel)
  end.

(** A call to a collaborator, recorded. *)
Definition call {A : Type} (ev : event) (o : outcome A) : M A :=
  ([ev], match o with Returns a => Done a | Raises e => Raised e end).

(** A computation that makes no call. *)
Definition pure_call {A : Type} (o : outcome A) : M A :=
  ([], match o with Returns a => Done a | Raises e => Raised e end).

(** [try: m  except Exception as e: handler(e)] *)
Definition try_except {A : Type} (m : M A) (handler : exn -> M A) : M A :=
  match m with
  | (t, Raised e) => let '(t', r) := handler e in (t ++ t', r)
  | _ => m
  end.

(** The loop of [chunk_text] as a computation. *)
Definition of_fuel {A : Type} (o : option A) : M A :=
  match o with
  | Some a => ret a
  | None => ([], OutOfFuel)
  end.

Definition trace {A : Type} (m : M A) : list event := fst m.
Definition outcome_of {A : Type} (m : M A) : result A := snd m.

(** The computation [m] after the calls [t]. *)
Definition prepend {A : Type} (t : list event) (m : M A) : M A :=
  (t ++ fst m, snd m).


Definition is_write (ev : event) : bool :=
  match ev with EvWrite _ _ => true | _ => false end.

(** The rendering of a page: [pix.width], [pix.height], [pix.samples]. *)
Record pixmap : Type := { width : Z; height : Z; samples : list Z }.

(** A page of an opened PDF: its embedded text and its rendering.  Once
    the file is open, [page.get_text()] and [page.get_pixmap(dpi=...)] are
    taken to return; the conversions of the rendering to a PIL image and to
    an array keep the same data and are left out. *)
Record page : Type := {
  get_text : str;
  get_pixmap : Z -> pixmap      (* by resolution in dots per inch *)
}.

(** The answer of the chat service: [resp["message"]["content"]] is there
    or the lookup fails. *)
Record response : Type := { message_content : option str }.

(** The collaborators.  Each answers by its arguments alone: the services
    keep no state between two calls. *)
Record env : Type := {
  (* torch.cuda.is_available() *)
  cuda_is_available : bool;
  (* torch.cuda.get_device_properties(0).total_memory *)
  cuda_total_memory : outcome Z;
  (* os.path.isfile(path) *)
  isfile : str -> bool;
  (* os.listdir(directory) *)
  listdir : str -> outcome (list str);
  (* os.makedirs(path, exist_ok=True) *)
  makedirs : str -> outcome unit;
  (* fitz.open(path), as the list of its pages *)
  fitz_open : str -> outcome (list page);
  (* pytesseract.image_to_string(img, lang="eng+por") *)
  image_to_string : pixmap -> outcome str;
  (* reader.readtext(img_array, detail=0, paragraph=True) *)
  readtext : pixmap -> outcome (list str);
  (* ollama.chat(model=model, messages=messages) *)
  ollama_chat : str -> list message -> outcome response;
  (* with open(path, "w", encoding="utf-8") as f: f.write(content) *)
  write_text : str -> str -> outcome unit
}.

(** [resp["message"]["content"]] *)
Definition content_of (resp : response) : M str :=
  match message_content resp with
  | Some c => ret c
  | None => ([], Raised KeyError)
  end.

End Runtime.

Import Runtime.

Notation "x <- m ;; k" := (bind m (fun x => k))
  (at level 61, m at next level, right associativity).

(* ================================================================== *)
(** * Python floats (binary64) and their conversions *)
(* ================================================================== *)

Module PyFloat.

Definition prec : Z := 53.
Definition emax : Z := 1024.

Definition float : Type := spec_float.

(** [a / b] on two [int]: the quotient rounded once, to nearest even. *)
Definition int_truediv (a b : Z) : outcome float :=
  if b =? 0 then Raises ZeroDivisionError
  else if a =? 0 then Returns (S754_zero (b <? 0))
  else
    let '(q, e, l) := SFdiv_core_binary prec emax (Z.abs a) 0 (Z.abs b) 0 in
    match binary_round_aux prec emax (xorb (a <? 0) (b <? 0)) q e l with
    | S754_infinity _ => Raises OverflowError
    | f => Returns f
    end.

(** [float(n)] for an [int], as done when an [int] meets a [float] in an
    arithmetic operation. *)
Definition float_of_int (n : Z) : outcome float :=
  match binary_normalize prec emax n 0 false with
  | S754_infinity _ => Raises OverflowError
  | f => Returns f
  end.

(** [x * y] on two [float]. *)
Definition float_mul (x y : float) : float := SFmul prec emax x y.

(** [int(x)]: truncation towards zero. *)
Definition int_of_float (x : float) : outcome Z :=
  match x with
  | S754_zero _ => Returns 0
  | S754_finite s m e =>
      let a := if 0 <=? e then Zpos m * 2 ^ e else Zpos m / 2 ^ (- e) in
      Returns (if s then - a else a)
  | S754_infinity _ => Raises OverflowError
  | S754_nan => Raises ValueError
  end.

End PyFloat.

Import PyFloat.

(* ================================================================== *)
(** * resume_ocr_gpu.py: one document, lenient about failures *)
(* ================================================================== *)

Module ResumeOcrGpu.

(** The [for page_num, page in enumerate(doc, start=1)] loop of
    [extract_text_from_pdf]; [full_text] is the list built so far.  In the
    source only the call of the OCR engine stands inside a [try]: reading
    a page ([page.get_text()]), rendering it ([page.get_pixmap(dpi=300)])
    and converting the rendering are not guarded.  A [page] of the model
    is one on which these return, so what is proved of this loop is about
    the documents whose pages can be read and rendered. *)
Fixpoint pages_loop (e : env) (page_num : Z) (doc : list page)
    (full_text : list str) : M (list str) :=
  match doc with
  | [] => ret full_text
  | page :: rest =>
      let text := strip (get_text page) in
      if truthy text then
        pages_loop e (page_num + 1) rest (full_text ++ [text])
      else
        pix <- call (EvPixmap page_num 300) (Returns (get_pixmap page 300)) ;;
        results <- try_except
                     (call (EvOcr page_num) (readtext e pix))
                     (fun _ => ret []) ;;
        let ocr_text := strip (join [LF] results) in
        if truthy ocr_text then
          pages_loop e (page_num + 1) rest (full_text ++ [ocr_text])
        else
          pages_loop e (page_num + 1) rest full_text
  end.

Definition extract_text_from_pdf (e : env) (pdf_path : str) : M str :=
  if negb (isfile e pdf_path) then ret []
  else
    match fitz_open e pdf_path with
    | Raises _ => ret []
    | Returns doc =>
        full_text <- pages_loop e 1 doc [] ;;
        ret (join [LF; LF] full_text)
    end.

(** [chunk_text(text, max_chars)]; the default of [max_chars] is 4000. *)
Definition chunk_text (fuel : nat) (text : str) (max_chars : Z)
  : option (list str) :=
  Chunker.chunk_from_start fuel text max_chars.

Definition summarize_prompt (chunk : str) : str :=
  lit "Você é um assistente útil. "
  ++ lit "Por favor, forneça um resumo conciso em língua portuguesa, seguindo a norma culta da gramática brasileira, do seguinte texto:"
  ++ [LF; LF]
  ++ chunk.

Definition summarize_messages (chunk : str) : list message :=
  [ (lit "system", lit "Você resume textos em português.");
    (lit "user", summarize_prompt chunk) ].

Definition summarize_chunk (e : env) (chunk : str) (model : str) : M str :=
  try_except
    (resp <- call (EvChat model (summarize_messages chunk))
                  (ollama_chat e model (summarize_messages chunk)) ;;
     content <- content_of resp ;;
     ret (strip content))
    (fun _ => ret []).

(** [joined] in [synthesize_summaries]. *)
Definition synthesize_joined (summaries : list str) : str :=
  join [LF; LF] (map (fun s => lit "- " ++ s) (filter truthy summaries)).

Definition synthesize_prompt (summaries : list str) : str :=
  lit "Você é um especialista em síntese. "
  ++ lit "Com base nos resumos a seguir, produza um único resumo coeso e estruturado, "
  ++ lit "em língua portuguesa conforme a norma culta da gramática brasileira, no formato Markdown:"
  ++ [LF; LF]
  ++ synthesize_joined summaries.

Definition synthesize_messages (summaries : list str) : list message :=
  [ (lit "system", lit "Você sintetiza múltiplos resumos em português.");
    (lit "user", synthesize_prompt summaries) ].

Definition synthesize_summaries (e : env) (summaries : list str)
    (model : str) : M str :=
  try_except
    (resp <- call (EvChat model (synthesize_messages summaries))
                  (ollama_chat e model (synthesize_messages summaries)) ;;
     content <- content_of resp ;;
     ret (strip content))
    (fun _ => ret []).

(** The [for idx, chunk in enumerate(chunks, 1)] loop of [main]. *)
Fixpoint summaries_loop (e : env) (model : str) (chunks : list str)
    (summaries : list str) : M (list str) :=
  match chunks with
  | [] => ret summaries
  | chunk :: rest =>
      s <- summarize_chunk e chunk model ;;
      summaries_loop e model rest (summaries ++ [s])
  end.

Definition main (fuel : nat) (e : env) (pdf_path output_path model : str)
  : M unit :=
  text <- extract_text_from_pdf e pdf_path ;;
  if negb (truthy text) then ret tt
  else
    chunks <- of_fuel (chunk_text fuel text 4000) ;;
    summaries <- summaries_loop e model chunks [] ;;
    final_summary <- synthesize_summaries e summaries model ;;
    try_except
      (call (EvWrite output_path final_summary)
            (write_text e output_path final_summary))
      (fun _ => ret tt).

End ResumeOcrGpu.

(* ================================================================== *)
(** * resumes.py: a directory of documents, no handler around the calls *)
(* ================================================================== *)

Module Resumes.

Definition get_ideal_chunk_size (e : env) (default : Z) : Z :=
  if negb (cuda_is_available e) then default
  else
    match
      obind (cuda_total_memory e) (fun total_mem_bytes =>
      obind (int_truediv total_mem_bytes (1024 ^ 3)) (fun total_mem_gb =>
      obind (float_of_int 80000) (fun factor =>
      obind (int_of_float (float_mul total_mem_gb factor)) (fun ideal =>
      Returns (Z.max 1024 (Z.min ideal (default * 120)))))))
    with
    | Returns ideal => ideal
    | Raises _ => default
    end.

(** The [for page_num, page in enumerate(doc, start=1)] loop of
    [extract_text_from_pdf]. *)
Fixpoint pages_loop (e : env) (page_num : Z) (doc : list page)
    (full_text : list str) : M (list str) :=
  match doc with
  | [] => ret full_text
  | page :: rest =>
      let text := strip (get_text page) in
      if truthy text then
        pages_loop e (page_num + 1) rest (full_text ++ [text])
      else
        pix <- call (EvPixmap page_num 300) (Returns (get_pixmap page 300)) ;;
        raw <- call (EvOcr page_num) (image_to_string e pix) ;;
        let ocr_text := strip raw in
        if truthy ocr_text then
          pages_loop e (page_num + 1) rest (full_text ++ [ocr_text])
        else
          pages_loop e (page_num + 1) rest full_text
  end.

Definition extract_text_from_pdf (e : env) (pdf_path : str) : M str :=
  doc <- pure_call (fitz_open e pdf_path) ;;
  full_text <- pages_loop e 1 doc [] ;;
  ret (join [LF; LF] full_text).

(** [chunk_text(text, max_chars)]; [None] for [max_chars] is the default. *)
Definition chunk_text (fuel : nat) (e : env) (text : str)
    (max_chars : option Z) : option (list str) :=
  let max_chars :=
    match max_chars with
    | None => get_ideal_chunk_size e 4000
    | Some m => m
    end in
  Chunker.chunk_from_start fuel text max_chars.

Definition summarize_prompt (chunk : str) : str :=
  lit "Você é um assistente que resume textos científicos. "
  ++ lit "Forneça um resumo em português culto, valorizando as ideias principais do trecho abaixo:"
  ++ [LF; LF]
  ++ chunk.

Definition summarize_messages (chunk : str) : list message :=
  [ (lit "system", lit "Resuma textos em português.");
    (lit "user", summarize_prompt chunk) ].

Definition summarize_chunk (e : env) (chunk : str) (model : str) : M str :=
  resp <- call (EvChat model (summarize_messages chunk))
               (ollama_chat e model (summarize_messages chunk)) ;;
  content <- content_of resp ;;
  ret (strip content).

(** [joined] in [synthesize_summaries_single]. *)
Definition synthesize_single_joined (summaries : list str) : str :=
  join [LF; LF] summaries.

Definition synthesize_single_prompt (summaries : list str) : str :=
  lit "Você é um assistente especializado em resumos científicos. "
  ++ lit "Com base nas ideias abaixo, produza um resumo coeso em texto corrido, "
  ++ lit "em língua portuguesa culta, sintetizando as principais contribuições do artigo:"
  ++ [LF; LF]
  ++ synthesize_single_joined summaries.

Definition synthesize_single_messages (summaries : list str) : list message :=
  [ (lit "system", lit "Síntese multi-resumos em texto corrido.");
    (lit "user", synthesize_single_prompt summaries) ].

Definition synthesize_summaries_single (e : env) (summaries : list str)
    (model : str) : M str :=
  resp <- call (EvChat model (synthesize_single_messages summaries))
               (ollama_chat e model (synthesize_single_messages summaries)) ;;
  content <- content_of resp ;;
  ret (strip content).

(** The [for i, chunk in enumerate(chunks, 1)] loop of [process_papers]. *)
Fixpoint parts_loop (e : env) (model : str) (chunks : list str)
    (article_parts : list str) : M (list str) :=
  match chunks with
  | [] => ret article_parts
  | chunk :: rest =>
      s <- summarize_chunk e chunk model ;;
      parts_loop e model rest (article_parts ++ [s])
  end.

(** The test [fname.lower().endswith('.pdf')]. *)
Definition is_pdf_name (fname : str) : bool :=
  endswith (lower fname) (lit ".pdf").

(** The key [fname.replace('.pdf','')]. *)
Definition title_of (fname : str) : str :=
  replace fname (lit ".pdf") [].

(** The [for fname in sorted(os.listdir(directory))] loop. *)
Fixpoint papers_loop (fuel : nat) (e : env) (directory model : str)
    (fnames : list str) (summaries : dict) : M dict :=
  match fnames with
  | [] => ret summaries
  | fname :: rest =>
      if is_pdf_name fname then
        let path := path_join directory fname in
        text <- extract_text_from_pdf e path ;;
        if negb (truthy text) then
          papers_loop fuel e directory model rest summaries
        else
          chunks <- of_fuel (chunk_text fuel e text None) ;;
          article_parts <- parts_loop e model chunks [] ;;
          summary <- synthesize_summaries_single e article_parts model ;;
          papers_loop fuel e directory model rest
            (dict_set summaries (title_of fname) summary)
      else papers_loop fuel e directory model rest summaries
  end.

Definition process_papers (fuel : nat) (e : env) (directory model : str)
  : M dict :=
  names <- pure_call (listdir e directory) ;;
  papers_loop fuel e directory model (sorted names) [].

Definition comparative_prompt (summaries : dict) : str :=
  let sections :=
    map (fun '(title, text) =>
           lit "Artigo '" ++ title ++ lit "':" ++ [LF] ++ text) summaries in
  let combined := join [LF; LF] sections in
  lit "Você é um especialista em educação e pesquisa científica. "
  ++ lit "Com base nos resumos dos artigos abaixo, produza um capítulo de livro em texto corrido, "
  ++ lit "em língua portuguesa conforme a norma culta da gramática brasileira. "
  ++ lit "Compare os trabalhos destacando: " ++ [LF]
  ++ lit "- pontos comuns "
  ++ lit "- conflitos teóricos ou metodológicos"
  ++ lit "- contribuições principais de cada artigo "
  ++ lit "- lacunas para futuras pesquisas " ++ [LF]
  ++ lit "Não use formatação Markdown. "
  ++ lit "O texto deve ser detalhado, fluido e coeso, como um capítulo de livro. "
  ++ lit "Não inclua referências bibliográficas. "
  ++ lit "O texto deve ser claro e acessível, evitando jargões técnicos. "
  ++ lit "O texto deve ser escrito em português culto." ++ [LF; LF]
  ++ lit "Resumos dos artigos:" ++ [LF]
  ++ [LF] ++ combined.

Definition comparative_messages (summaries : dict) : list message :=
  [ (lit "system", lit "Gere texto corrido comparativo sem usar Markdown.");
    (lit "user", comparative_prompt summaries) ].

Definition synthesize_summaries (e : env) (summaries : dict) (model : str)
  : M str :=
  resp <- call (EvChat model (comparative_messages summaries))
               (ollama_chat e model (comparative_messages summaries)) ;;
  content <- content_of resp ;;
  ret (strip content).

Definition default_model : str := lit "gemma3:27b".

Definition main (fuel : nat) (e : env) : M unit :=
  _ <- pure_call (makedirs e (lit "static")) ;;
  let input_dir := lit "papers" in
  let output_file := path_join (lit "static") (lit "capitulo_comparativo.txt") in
  article_summaries <- process_papers fuel e input_dir default_model ;;
  match article_summaries with
  | [] => ret tt
  | _ :: _ =>
      chapter <- synthesize_summaries e article_summaries default_model ;;
      call (EvWrite output_file chapter) (write_text e output_file chapter)
  end.

End Resumes.

(* ================================================================== *)
(** * Rounding to 53 bits, in integer arithmetic *)
(* ================================================================== *)

Module Rounding.

(** The number of binary digits of a positive integer. *)
Definition nbits (x : Z) : Z := Z.log2 x + 1.

(** A location other than [loc_Exact]. *)
Definition inexact (l : location) : bool :=
  match l with loc_Exact => false | loc_Inexact _ => true end.

(** [x / 2 ^ k] rounded to the nearest integer, ties to even, where the
    number rounded is [x] itself or, with [inx], slightly more than [x]. *)
Definition rne_loc (x k : Z) (inx : bool) : Z :=
  let q := x / 2 ^ k in
  if Z.odd (x / 2 ^ (k - 1))
     && ((negb (x mod 2 ^ (k - 1) =? 0) || inx) || Z.odd q)
  then q + 1 else q.

(** A positive integer rounded to 53 significant bits, ties to even. *)
Definition round53 (x : Z) : Z :=
  let k := nbits x - 53 in
  if k <=? 0 then x else rne_loc x k false * 2 ^ k.

(** [int(total_mem_bytes / (1024 ** 3) * 80000)] in integer arithmetic:
    the quotient by [2 ^ 30] is rounded to 53 bits, so is its product with
    [80000 = 625 * 2 ^ 7], and the result is truncated. *)
Definition ideal_of (bytes : Z) : Z :=
  round53 (round53 bytes * 625) / 2 ^ 23.

End Rounding.

Import Rounding.

(* ================================================================== *)
(** * Vocabulary of the properties and the inputs of the examples *)
(* ================================================================== *)

Module Props.

(** A string of white space only. *)
Definition blank (s : str) : bool := forallb isspace s.

(** The characters of a string that are not white space, in order. *)
Definition visible (s : str) : str := filter (fun c => negb (isspace c)) s.






(** Loop state: the budget bounds every chunk collected so far. *)
Definition within_budget (m : Z) (st : Chunker.loop_state) : Prop :=
  0 <= fst st /\ Forall (fun c => len c <= m) (snd st).


(** [fname] is a file of [names] that [process_papers] selects and whose
    extracted text is not empty. *)
Definition summarised (e : env) (directory : str) (names : list str)
    (fname : str) : Prop :=
  In fname names
  /\ Resumes.is_pdf_name fname = true
  /\ exists text,
       outcome_of (Resumes.extract_text_from_pdf e (path_join directory fname))
       = Done text
       /\ truthy text = true.


End Props.

Import Props.

Module Inputs.

(** ["a\n\nbcdef"]: a paragraph break followed by a paragraph that does
    not fit in a budget of 4. *)
Definition stuck_text : str := lit "a" ++ [LF; LF] ++ lit "bcdef".

(** ["ab cd\n\nef"] *)
Definition short_text : str := lit "ab cd" ++ [LF; LF] ++ lit "ef".

Definition no_pixmap : pixmap := {| width := 0; height := 0; samples := [] |}.

(** A page with embedded text [t]. *)
Definition text_page (t : str) : page :=
  {| get_text := t; get_pixmap := fun _ => no_pixmap |}.

(** A scanned page: no embedded text. *)
Definition scanned_page : page := text_page [].

(** A machine without accelerator, on which every path is the PDF [doc],
    the directory listing is [names], OCR answers [ocr] and the chat
    service answers [chat]. *)
Definition machine (doc : list page) (names : list str)
    (ocr : outcome str) (chat : outcome response) : env :=
  {| cuda_is_available := false;
     cuda_total_memory := Raises CudaError;
     isfile := fun _ => true;
     listdir := fun _ => Returns names;
     makedirs := fun _ => Returns tt;
     fitz_open := fun _ => Returns doc;
     image_to_string := fun _ => ocr;
     readtext := fun _ => obind ocr (fun t => Returns [t]);
     ollama_chat := fun _ _ => chat;
     write_text := fun _ _ => Returns tt |}.

(** A machine with an accelerator of [bytes] bytes of memory. *)
Definition gpu_machine (bytes : Z) : env :=
  {| cuda_is_available := true;
     cuda_total_memory := Returns bytes;
     isfile := fun _ => true;
     listdir := fun _ => Returns [];
     makedirs := fun _ => Returns tt;
     fitz_open := fun _ => Returns [];
     image_to_string := fun _ => Returns [];
     readtext := fun _ => Returns [];
     ollama_chat := fun _ _ => Raises ConnectionError;
     write_text := fun _ _ => Returns tt |}.

Definition answer (t : str) : outcome response :=
  Returns {| message_content := Some t |}.

Definition hello : str := lit "Hello world.".

(** Two pages: a scanned one, then one with embedded text. *)
Definition scan_then_text : list page := [scanned_page; text_page hello].

(** The OCR engine raises on every page. *)
Definition ocr_down : env :=
  machine scan_then_text [] (Raises OCRError) (answer (lit "ok")).

(** The chat service times out on every request; the directory holds
    one document, of one page with embedded text. *)
Definition llm_down : env :=
  machine [text_page hello] [lit "paper.pdf"] (Returns [])
    (Raises TimeoutError).

(** The chat service answers without content. *)
Definition llm_malformed : env :=
  machine [text_page hello] [lit "paper.pdf"] (Returns [])
    (Returns {| message_content := None |}).

(** A directory of three files; every PDF in it has one page with
    embedded text, and the chat service answers ["ok"]. *)
Definition papers_dir : env :=
  machine [text_page hello]
    [lit "notes.txt"; lit "a.pdf.b.pdf"; lit "X.PDF"]
    (Returns []) (answer (lit "ok")).

(** A page with embedded text, then a scanned page that the OCR engine
    reads as ["Scanned content."]. *)
Definition text_then_scan : env :=
  machine [text_page hello; scanned_page] []
    (Returns (lit "Scanned content.")) (answer (lit "ok")).

(** Three summaries, the middle one empty. *)
Definition gappy_summaries : list str := [lit "a"; []; lit "b"].

(** ["a\n\n"] followed by 5000 times ["b"]: a paragraph break followed by
    a paragraph longer than the budget of 4000 used by [main]. *)
Definition long_paragraph_text : str :=
  lit "a" ++ [LF; LF] ++ repeat 98 5000.

(** A PDF of two pages with embedded text, ["a"] and 5000 times ["b"]:
    joined by [extract_text_from_pdf] they give [long_paragraph_text].  The
    chat service answers every request. *)
Definition long_paragraph_pdf : env :=
  machine [text_page (lit "a"); text_page (repeat 98 5000)] []
    (Returns []) (answer (lit "ok")).

End Inputs.

(* ================================================================== *)
(** * resume_ocr_gpu.py run as a script

    The statements at module level: the EasyOCR reader is created inside
    a [try] whose handler calls [sys.exit(1)]; the block under
    [if __name__ == "__main__"] then creates the directory [static] and
    calls [main] with the two constants and the default model. *)
(* ================================================================== *)

Module Script.

(** How the script ends: [sys.exit(code)] at module level, or the run of
    the block under [__main__]. *)
Inductive run : Type :=
  | Exit (code : Z)
  | Ran (m : M unit).

Definition PDF_FILE : str := lit "almeida.pdf".
Definition OUT_FILE : str := lit "resumo_gpu.md".

(** The default of the parameter [model] of [main]. *)
Definition default_model : str := lit "gemma3:12b".

(** [easyocr_reader] is what [easyocr.Reader(['en', 'pt'], gpu=...)]
    does. *)
Definition resume_ocr_gpu (easyocr_reader : outcome unit) (fuel : nat)
    (e : env) : run :=
  match easyocr_reader with
  | Raises _ => Exit 1
  | Returns _ =>
      Ran (_ <- pure_call (makedirs e (lit "static")) ;;
           ResumeOcrGpu.main fuel e PDF_FILE OUT_FILE default_model)
  end.

End Script.

(* ================================================================== *)
(** * Reference definitions

    What the loops of the scripts compute, written without a loop; the
    theorems on the loops compare them with these. *)
(* ================================================================== *)

Module Reference.

(** [s] cut every [m] characters, from the left; [fuel] bounds the number
    of cuts. *)
Fixpoint every (m fuel : nat) (s : str) : list str :=
  match fuel with
  | O => []
  | S fuel' =>
      match s with
      | [] => []
      | _ :: _ => firstn m s :: every m fuel' (skipn m s)
      end
  end.

(** The text holds no paragraph break: ["\n\n" not in text]. *)
Definition no_break (text : str) : Prop :=
  rfind text Chunker.para 0 (len text) = -1.

(** The window that opens at [start] ends before the end of the text and
    the last paragraph break in it stands at [start] itself. *)
Definition stuck_at (text : str) (m start : Z) : Prop :=
  start + m < len text
  /\ rfind text Chunker.para start (start + m) = start.

(** A chunk as [chunk_text] keeps them: not empty, no white space at
    either end. *)
Definition clean (s : str) : Prop := s <> [] /\ strip s = s.

(** The text the lenient script gets out of one page. *)
Definition lenient_page_text (e : env) (p : page) : str :=
  let text := strip (get_text p) in
  if truthy text then text
  else
    strip (join [LF]
             match readtext e (get_pixmap p 300) with
             | Returns results => results
             | Raises _ => []
             end).

(** The text the strict script gets out of one page whose OCR, if any,
    returns. *)
Definition strict_page_text (e : env) (p : page) : str :=
  let text := strip (get_text p) in
  if truthy text then text
  else
    match image_to_string e (get_pixmap p 300) with
    | Returns raw => strip raw
    | Raises _ => []
    end.

(** The calls of page extraction on the pages numbered from [n] on: a
    rendering and an OCR call for every page without embedded text. *)
Fixpoint ocr_calls (n : Z) (doc : list page) : list event :=
  match doc with
  | [] => []
  | p :: rest =>
      (if truthy (strip (get_text p)) then []
       else [EvPixmap n 300; EvOcr n])
      ++ ocr_calls (n + 1) rest
  end.

(** What an answer of the chat service gives, per script: the lenient one
    turns every failure into the empty string. *)
Definition lenient_answer (o : outcome response) : str :=
  match o with
  | Raises _ => []
  | Returns resp =>
      match message_content resp with
      | Some c => strip c
      | None => []
      end
  end.

Definition strict_answer (o : outcome response) : result str :=
  match o with
  | Raises ex => Raised ex
  | Returns resp =>
      match message_content resp with
      | Some c => Done (strip c)
      | None => Raised KeyError
      end
  end.

(** The summary the lenient script keeps for one chunk. *)
Definition lenient_summary (e : env) (model chunk : str) : str :=
  lenient_answer
    (ollama_chat e model (ResumeOcrGpu.summarize_messages chunk)).

(** The chat requests of the two summarising loops. *)
Definition lenient_requests (model : str) (chunks : list str) : list event :=
  map (fun c => EvChat model (ResumeOcrGpu.summarize_messages c)) chunks.

Definition strict_requests (model : str) (chunks : list str) : list event :=
  map (fun c => EvChat model (Resumes.summarize_messages c)) chunks.

(** A computation that writes no file. *)
Definition no_write {A : Type} (m : M A) : Prop :=
  filter is_write (trace m) = [].

End Reference.

Import Reference.

(* ================================================================== *)
(** * Strings: trimming, slices and search *)
(* ================================================================== *)

Section StringFacts.

Lemma lstrip_split (s : str) :
  exists l, s = l ++ lstrip s /\ blank l = true.
Proof.
  induction s as [|c s IH]; simpl.
  - exists []; split; reflexivity.
  - destruct (isspace c) eqn:Hc.
    + destruct IH as [l [Hs Hl]].
      exists (c :: l); simpl; rewrite Hc, Hl; split; [congruence | reflexivity].
    + exists []; split; reflexivity.
Qed.

Lemma blank_rev (s : str) : blank (rev s) = blank s.
Proof.
  unfold blank. induction s as [|c s IH]; simpl; [reflexivity|].
  rewrite forallb_app, IH; simpl. rewrite andb_true_r. apply andb_comm.
Qed.

Lemma rstrip_split (s : str) :
  exists r, s = rstrip s ++ r /\ blank r = true.
Proof.
  unfold rstrip. destruct (lstrip_split (rev s)) as [l [Hs Hl]].
  exists (rev l). split.
  - rewrite <- rev_app_distr, <- Hs, rev_involutive; reflexivity.
  - rewrite blank_rev; exact Hl.
Qed.

Lemma strip_split (s : str) :
  exists l r, s = l ++ strip s ++ r /\ blank l = true /\ blank r = true.
Proof.
  unfold strip.
  destruct (lstrip_split s) as [l [Hs Hl]].
  destruct (rstrip_split (lstrip s)) as [r [Hs' Hr]].
  exists l, r. repeat split; try assumption.
  rewrite <- Hs'; exact Hs.
Qed.

Lemma strip_length (s : str) : (length (strip s) <= length s)%nat.
Proof.
  destruct (strip_split s) as [l [r [Hs _]]].
  rewrite Hs at 2. rewrite !length_app. lia.
Qed.

Lemma visible_app (a b : str) : visible (a ++ b) = visible a ++ visible b.
Proof. apply filter_app. Qed.

Lemma visible_blank (s : str) : blank s = true -> visible s = [].
Proof.
  unfold blank, visible. induction s as [|c s IH]; simpl; [reflexivity|].
  intros H. apply andb_true_iff in H. destruct H as [Hc Hs].
  rewrite Hc; simpl. auto.
Qed.

Lemma visible_strip (s : str) : visible (strip s) = visible s.
Proof.
  destruct (strip_split s) as [l [r [Hs [Hl Hr]]]].
  rewrite Hs at 2. rewrite !visible_app.
  rewrite (visible_blank l Hl), (visible_blank r Hr), app_nil_r. reflexivity.
Qed.

Lemma slice_length (s : str) (i j : Z) :
  0 <= i -> 0 <= j -> len (slice s i j) <= Z.max 0 (j - i).
Proof.
  intros Hi Hj. unfold slice, len, slice_bound.
  rewrite length_firstn.
  destruct (i <? 0) eqn:Ei; [apply Z.ltb_lt in Ei; lia|].
  destruct (j <? 0) eqn:Ej; [apply Z.ltb_lt in Ej; lia|].
  lia.
Qed.



Lemma rfind_down_range (s sub : str) (b : Z) (k : nat) :
  rfind_down s sub b k = -1 \/
  b <= rfind_down s sub b k < b + Z.of_nat k.
Proof.
  induction k as [|k IH]; [left; reflexivity|].
  cbn [rfind_down].
  destruct (startswith (skipn (Z.to_nat (b + Z.of_nat k)) s) sub).
  - right; lia.
  - destruct IH as [IH|IH]; [left; exact IH | right; lia].
Qed.

(** Inside the text, the answer of [rfind] is [-1] or the start of a
    window position at which [sub] fits before [end]. *)
Lemma rfind_range (s sub : str) (start end_ : Z) :
  0 <= start -> 0 <= end_ <= len s ->
  rfind s sub start end_ = -1 \/
  start <= rfind s sub start end_ <= end_ - len sub.
Proof.
  intros Hs He. unfold rfind.
  destruct (len s <? end_) eqn:E1; [apply Z.ltb_lt in E1; lia|].
  destruct (end_ <? 0) eqn:E2; [apply Z.ltb_lt in E2; lia|].
  destruct (start <? 0) eqn:E3; [apply Z.ltb_lt in E3; lia|].
  destruct (rfind_down_range s sub start
              (Z.to_nat (end_ - start - len sub + 1))) as [H|H];
    [left; exact H | right; lia].
Qed.

End StringFacts.

(* ================================================================== *)
(** * The chunking loop: what every run of the body keeps true *)
(* ================================================================== *)

Section ChunkLoop.

Import Chunker.

Variable text : str.
Variable m : Z.
Hypothesis m_pos : 0 < m.

Lemma cut_point_range (start : Z) :
  0 <= start -> start <= cut_point text m start <= start + m.
Proof.
  intros Hs. unfold cut_point.
  destruct (start + m <? len text) eqn:E; [|lia].
  apply Z.ltb_lt in E.
  destruct (rfind_range text para start (start + m)) as [H|H]; try lia.
  - rewrite H; simpl. lia.
  - change (len para) with 2 in H.
    destruct (rfind text para start (start + m) =? -1); simpl; lia.
Qed.

(** Without a paragraph break in the window the cut is at the budget. *)
Lemma cut_point_no_break (start : Z) :
  rfind text para start (start + m) = -1 ->
  cut_point text m start = start + m.
Proof.
  intros H. unfold cut_point. rewrite H; simpl.
  destruct (start + m <? len text); reflexivity.
Qed.

(** A property of the loop state that holds before the loop and that the
    body keeps holds after any number of runs. *)
Lemma chunk_iter_keeps (P : loop_state -> Prop) :
  P (0, []) ->
  (forall st, P st -> P (chunk_body text m st)) ->
  forall n, P (chunk_iter n text m).
Proof.
  intros H0 Hstep n. induction n as [|n IH]; simpl; auto.
Qed.

(** When the loop returns, it returns the chunks of the state reached
    after some number of runs, and that state is past the end. *)
Lemma chunk_loop_reaches (fuel : nat) :
  forall n chunks,
    chunk_loop fuel text m (chunk_iter n text m) = Some chunks ->
    exists k, chunks = snd (chunk_iter k text m)
              /\ len text <= fst (chunk_iter k text m).
Proof.
  induction fuel as [|fuel IH]; intros n chunks; cbn [chunk_loop];
    destruct (fst (chunk_iter n text m) <? len text) eqn:E;
    try discriminate.
  - apply Z.ltb_ge in E. intros H; inversion H; subst. exists n; auto.
  - intros H. apply (IH (S n)). exact H.
  - apply Z.ltb_ge in E. intros H; inversion H; subst. exists n; auto.
Qed.

Lemma chunk_from_start_reaches (fuel : nat) (chunks : list str) :
  chunk_from_start fuel text m = Some chunks ->
  exists k, chunks = snd (chunk_iter k text m)
            /\ len text <= fst (chunk_iter k text m).
Proof. apply (chunk_loop_reaches fuel 0). Qed.

Lemma chunk_body_within_budget (st : loop_state) :
  within_budget m st -> within_budget m (chunk_body text m st).
Proof.
  destruct st as [start chunks]. intros [Hs Hc]; simpl in Hs, Hc.
  pose proof (cut_point_range start Hs) as Hcut.
  unfold within_budget, chunk_body; simpl. split; [lia|].
  destruct (truthy _); [|exact Hc].
  apply Forall_app; split; [exact Hc|].
  constructor; [|constructor].
  pose proof (strip_length (slice text start (cut_point text m start))) as H1.
  pose proof (slice_length text start (cut_point text m start)) as H2.
  unfold len in *. lia.
Qed.

Lemma chunk_iter_within_budget (n : nat) :
  within_budget m (chunk_iter n text m).
Proof.
  apply chunk_iter_keeps.
  - split; simpl; [lia | constructor].
  - apply chunk_body_within_budget.
Qed.





Lemma chunk_from_start_within_budget (fuel : nat) (chunks : list str) :
  chunk_from_start fuel text m = Some chunks ->
  Forall (fun c => len c <= m) chunks.
Proof.
  intros H. destruct (chunk_from_start_reaches fuel chunks H) as [k [Hk _]].
  rewrite Hk. apply chunk_iter_within_budget.
Qed.

End ChunkLoop.

(** A state that the body maps to itself before the end of the text keeps
    the loop running for ever. *)
Lemma chunk_loop_stuck (text : str) (m : Z) (st : Chunker.loop_state) :
  Chunker.chunk_body text m st = st ->
  fst st < len text ->
  forall fuel, Chunker.chunk_loop fuel text m st = None.
Proof.
  intros Hfix Hlt fuel. induction fuel as [|fuel IH]; cbn [Chunker.chunk_loop].
  - apply Z.ltb_lt in Hlt; rewrite Hlt; reflexivity.
  - apply Z.ltb_lt in Hlt; rewrite Hlt, Hfix. exact IH.
Qed.

(** The loop is in such a state whenever the window opens on a paragraph
    break and holds no later one, the text going on past the window. *)
Lemma chunk_body_stuck (text : str) (m start : Z) (chunks : list str) :
  start + m < len text ->
  rfind text Chunker.para start (start + m) = start ->
  start <> -1 ->
  Chunker.chunk_body text m (start, chunks) = (start, chunks).
Proof.
  intros Hlt Hfind Hne. unfold Chunker.chunk_body, Chunker.cut_point.
  apply Z.ltb_lt in Hlt; rewrite Hlt, Hfind.
  destruct (start =? -1) eqn:E; [apply Z.eqb_eq in E; contradiction|].
  simpl. unfold slice. rewrite Z.sub_diag; simpl. reflexivity.
Qed.

Lemma chunk_loop_more_fuel (text : str) (m : Z) (fuel : nat) :
  forall st chunks,
    Chunker.chunk_loop fuel text m st = Some chunks ->
    Chunker.chunk_loop (S fuel) text m st = Some chunks.
Proof.
  induction fuel as [|fuel IH]; intros st chunks H.
  - cbn [Chunker.chunk_loop] in *.
    destruct (fst st <? len text); [discriminate | exact H].
  - cbn [Chunker.chunk_loop] in H.
    change (Chunker.chunk_loop (S (S fuel)) text m st) with
      (if fst st <? len text
       then Chunker.chunk_loop (S fuel) text m (Chunker.chunk_body text m st)
       else Some (snd st)).
    destruct (fst st <? len text); [apply IH; exact H | exact H].
Qed.

Lemma rfind_down_absent (s sub : str) (b : Z) (k : nat) :
  (forall i, startswith (skipn i s) sub = false) ->
  rfind_down s sub b k = -1.
Proof.
  intros H. induction k as [|k IH]; [reflexivity|].
  cbn [rfind_down]. rewrite H. exact IH.
Qed.

(** On a text without paragraph break every run of the body moves [start]
    on by the budget, so the loop returns: the defect needs a break. *)
Lemma chunk_loop_returns_without_breaks (text : str) (m : Z) :
  0 < m ->
  (forall i, startswith (skipn i text) Chunker.para = false) ->
  forall fuel start chunks,
    len text - start <= Z.of_nat fuel ->
    exists result,
      Chunker.chunk_loop fuel text m (start, chunks) = Some result.
Proof.
  intros Hm Hno fuel. induction fuel as [|fuel IH]; intros start chunks Hf;
    cbn [Chunker.chunk_loop fst snd];
    destruct (start <? len text) eqn:E;
    try (eexists; reflexivity).
  - apply Z.ltb_lt in E. lia.
  - apply Z.ltb_lt in E. unfold Chunker.chunk_body.
    assert (Hcut : Chunker.cut_point text m start = start + m).
    { unfold Chunker.cut_point, rfind.
      rewrite rfind_down_absent by exact Hno.
      destruct (start + m <? len text); reflexivity. }
    rewrite Hcut. apply IH. lia.
Qed.

(** A text that fits in the budget gives its trimmed self, or nothing when
    it is blank. *)
Lemma chunk_short_text (text : str) (m : Z) (fuel : nat) :
  len text <= m ->
  Chunker.chunk_from_start (S fuel) text m
  = Some (if truthy (strip text) then [strip text] else []).
Proof.
  intros Hm. unfold Chunker.chunk_from_start.
  cbn [Chunker.chunk_loop fst].
  destruct (0 <? len text) eqn:E.
  - apply Z.ltb_lt in E.
    assert (Hcut : Chunker.cut_point text m 0 = m).
    { unfold Chunker.cut_point. cbn [Z.add].
      replace (m <? len text) with false
        by (symmetry; apply Z.ltb_ge; lia).
      reflexivity. }
    assert (Hslice : slice text 0 m = text).
    { unfold slice, slice_bound. cbn [Z.ltb Z.compare].
      replace (m <? 0) with false by (symmetry; apply Z.ltb_ge; lia).
      rewrite (Z.min_l 0) by lia.
      rewrite (Z.min_r m) by lia. rewrite Z.sub_0_r. cbn [Z.to_nat skipn].
      apply firstn_all2. unfold len. lia. }
    unfold Chunker.chunk_body. rewrite Hcut, Hslice.
    destruct fuel; cbn [Chunker.chunk_loop fst snd app];
      replace (m <? len text) with false
        by (symmetry; apply Z.ltb_ge; lia);
      reflexivity.
  - apply Z.ltb_ge in E. destruct text as [|c text]; [reflexivity|].
    unfold len in E. cbn [length] in E. lia.
Qed.

Example chunk_three_pieces :
  option_map (map len) (ResumeOcrGpu.chunk_text 3 (repeat 120 (Z.to_nat 9000)) 4000)
  = Some [4000; 4000; 1000].
Proof. vm_compute. reflexivity. Qed.

Lemma rfind_down_first (s sub : str) (k : nat) :
  startswith s sub = true ->
  (forall i, startswith (skipn (S i) s) sub = false) ->
  rfind_down s sub 0 (S k) = 0.
Proof.
  intros H0 Hlater. induction k as [|k IH].
  - cbn [rfind_down Z.of_nat Z.add Z.to_nat skipn]. rewrite H0. reflexivity.
  - change (rfind_down s sub 0 (S (S k)))
      with (if startswith (skipn (Z.to_nat (0 + Z.of_nat (S k))) s) sub
            then 0 + Z.of_nat (S k) else rfind_down s sub 0 (S k)).
    replace (Z.to_nat (0 + Z.of_nat (S k))) with (S k) by lia.
    rewrite Hlater. exact IH.
Qed.

Lemma startswith_repeat_para (c : char) (n : nat) :
  c <> LF -> startswith (repeat c n) Chunker.para = false.
Proof.
  intros Hc. destruct n as [|n]; [reflexivity|].
  cbn [repeat startswith Chunker.para].
  replace (LF =? c) with false by (symmetry; apply Z.eqb_neq; congruence).
  reflexivity.
Qed.

(** For every budget of at least 2, a paragraph break followed by as many
    other characters as the budget never lets the loop return. *)
Lemma chunk_stuck_for_every_budget (m : Z) (c : char) :
  2 <= m -> c <> LF ->
  forall fuel,
    Chunker.chunk_from_start fuel
      (Chunker.para ++ repeat c (Z.to_nat m)) m = None.
Proof.
  intros Hm Hc fuel.
  set (text := Chunker.para ++ repeat c (Z.to_nat m)).
  assert (Hlen : len text = m + 2).
  { unfold text, len. rewrite length_app, repeat_length.
    cbn [Chunker.para length]. lia. }
  apply chunk_loop_stuck; [|cbn [fst]; lia].
  apply chunk_body_stuck; [lia | | discriminate].
  unfold rfind.
  replace (len text <? 0 + m) with false by (symmetry; apply Z.ltb_ge; lia).
  replace (0 + m <? 0) with false by (symmetry; apply Z.ltb_ge; lia).
  cbn [Z.ltb Z.compare].
  change (len Chunker.para) with 2.
  replace (Z.to_nat (0 + m - 0 - 2 + 1)) with (S (Z.to_nat (m - 2))) by lia.
  apply rfind_down_first; [reflexivity|].
  intros [|i].
  - unfold text. cbn [Chunker.para app skipn].
    destruct (Z.to_nat m) as [|n] eqn:En; [lia|].
    cbn [repeat startswith Chunker.para].
    replace (LF =? c) with false by (symmetry; apply Z.eqb_neq; congruence).
    rewrite andb_false_r. reflexivity.
  - unfold text. cbn [Chunker.para app skipn].
    generalize (Z.to_nat m). intros n. revert i.
    induction n as [|n IH]; intros i.
    + destruct i; reflexivity.
    + destruct i as [|i]; cbn [repeat skipn].
      * apply (startswith_repeat_para c (S n) Hc).
      * apply IH.
Qed.

(* ================================================================== *)
(** * The chunker: termination, budget and reconstruction *)
(* ================================================================== *)

Lemma get_ideal_chunk_size_cases (e : env) (default : Z) :
  Resumes.get_ideal_chunk_size e default = default
  \/ 1024 <= Resumes.get_ideal_chunk_size e default.
Proof.
  unfold Resumes.get_ideal_chunk_size.
  destruct (cuda_is_available e); cbn [negb]; [|left; reflexivity].
  destruct (cuda_total_memory e) as [bytes|]; cbn [obind];
    [|left; reflexivity].
  destruct (int_truediv bytes (1024 ^ 3)) as [g|]; cbn [obind];
    [|left; reflexivity].
  destruct (float_of_int 80000) as [c|]; cbn [obind]; [|left; reflexivity].
  destruct (int_of_float (float_mul g c)) as [i|]; cbn [obind];
    [|left; reflexivity].
  right. lia.
Qed.

(** C1 (as a defect of the code).  The loop of [chunk_text] does not stop
    on every text: on ["a\n\nbcdef"] with a budget of 4 the first run cuts
    at the paragraph break, and from then on every run finds that same break
    at the start of its window, cuts there again and leaves [start] at 1.
    No amount of fuel makes either script's [chunk_text] return.  Such a
    text exists for every budget of at least 2: a paragraph break followed
    by as many other characters as the budget. *)
Theorem chunk_text_stuck_at_paragraph_break :
  (forall fuel, ResumeOcrGpu.chunk_text fuel Inputs.stuck_text 4 = None)
  /\ (forall fuel e,
        Resumes.chunk_text fuel e Inputs.stuck_text (Some 4) = None)
  /\ (forall m fuel,
        2 <= m ->
        ResumeOcrGpu.chunk_text fuel
          (Chunker.para ++ repeat 98 (Z.to_nat m)) m = None).
Proof.
  assert (H : forall fuel,
             Chunker.chunk_from_start fuel Inputs.stuck_text 4 = None).
  { intros [|fuel]; [reflexivity|].
    unfold Chunker.chunk_from_start.
    change (Chunker.chunk_loop (S fuel) Inputs.stuck_text 4 (0, []))
      with (Chunker.chunk_loop fuel Inputs.stuck_text 4 (1, [lit "a"])).
    apply chunk_loop_stuck; [reflexivity | reflexivity]. }
  split; [|split].
  - intros fuel. apply H.
  - intros fuel e. apply H.
  - intros m fuel Hm.
    apply (chunk_stuck_for_every_budget m 98 Hm). discriminate.
Qed.

(** C2.  For a budget [m > 0], every chunk has at most [m] characters:
    this holds of the chunks collected after any number of runs of the loop
    body, hence of every list that [chunk_text] returns, in both scripts
    (also under the default budget of [resumes.py]).  When the window holds
    no paragraph break the cut is exactly at [start + m]: a long paragraph is
    cut at the budget and the chunk is not extended. *)
Theorem chunk_text_within_budget (text : str) (m : Z) :
  0 < m ->
  (forall n, Forall (fun c => len c <= m)
               (snd (Chunker.chunk_iter n text m)))
  /\ (forall fuel chunks,
        ResumeOcrGpu.chunk_text fuel text m = Some chunks ->
        Forall (fun c => len c <= m) chunks)
  /\ (forall fuel e chunks,
        Resumes.chunk_text fuel e text (Some m) = Some chunks ->
        Forall (fun c => len c <= m) chunks)
  /\ (forall fuel e chunks,
        Resumes.chunk_text fuel e text None = Some chunks ->
        Forall (fun c => len c <= Resumes.get_ideal_chunk_size e 4000) chunks)
  /\ (forall start,
        rfind text Chunker.para start (start + m) = -1 ->
        Chunker.cut_point text m start = start + m).
Proof.
  intros Hm. repeat split.
  - intros n. apply (chunk_iter_within_budget text m Hm n).
  - intros fuel chunks. apply chunk_from_start_within_budget; exact Hm.
  - intros fuel e chunks. apply chunk_from_start_within_budget; exact Hm.
  - intros fuel e chunks. apply chunk_from_start_within_budget.
    destruct (get_ideal_chunk_size_cases e 4000); lia.
  - intros start. apply cut_point_no_break.
Qed.

Lemma chunk_text_within_budget_witness :
  ResumeOcrGpu.chunk_text 5 Inputs.short_text 7 = Some [lit "ab cd"; lit "ef"]
  /\ Forall (fun c => len c <= 7) [lit "ab cd"; lit "ef"].
Proof.
  split; [reflexivity|].
  apply (proj1 (proj2 (chunk_text_within_budget Inputs.short_text 7
                         ltac:(reflexivity))) 5%nat).
  reflexivity.
Defined.



(* ================================================================== *)
(** * Binary64 rounding: what [SpecFloat] computes *)
(* ================================================================== *)

Lemma digits2_pos_size (p : positive) : digits2_pos p = Pos.size p.
Proof. induction p; simpl; congruence. Qed.

Lemma Zdigits2_nbits (x : Z) : 0 < x -> Zdigits2 x = nbits x.
Proof.
  destruct x as [|p|p]; try lia. intros _. unfold nbits. cbn [Zdigits2].
  rewrite digits2_pos_size.
  destruct p; cbn [Pos.size Z.log2]; lia.
Qed.

Lemma nbits_bounds (x : Z) : 0 < x -> 2 ^ (nbits x - 1) <= x < 2 ^ nbits x.
Proof.
  intros H. unfold nbits. replace (Z.log2 x + 1 - 1) with (Z.log2 x) by lia.
  replace (Z.log2 x + 1) with (Z.succ (Z.log2 x)) by lia.
  apply Z.log2_spec; exact H.
Qed.

Lemma nbits_unique (x d : Z) : 2 ^ (d - 1) <= x < 2 ^ d -> 0 < d -> nbits x = d.
Proof.
  intros H Hd. unfold nbits.
  assert (Z.log2 x = d - 1); [|lia].
  apply Z.log2_unique; [lia|]. replace (Z.succ (d - 1)) with d by lia. exact H.
Qed.

(** One step of [shr_1] on a non-negative mantissa: halve it, keep the
    bit that falls off as round bit and fold the old round bit into the
    sticky bit. *)
Lemma shr_1_spec (m : Z) (r s : bool) :
  0 <= m ->
  shr_1 {| shr_m := m; shr_r := r; shr_s := s |}
  = {| shr_m := m / 2; shr_r := Z.odd m; shr_s := r || s |}.
Proof.
  intros Hm. destruct m as [|p|p]; try lia.
  - reflexivity.
  - destruct p as [p|p|]; cbn [shr_1].
    + replace (Z.pos p~1 / 2) with (Z.pos p); [reflexivity|].
      rewrite Pos2Z.inj_xI. apply Z.div_unique with (r := 1); lia.
    + replace (Z.pos p~0 / 2) with (Z.pos p); [reflexivity|].
      rewrite Pos2Z.inj_xO. apply Z.div_unique with (r := 0); lia.
    + reflexivity.
Qed.

Lemma iter_pos_nat {A : Type} (f : A -> A) (p : positive) (x : A) :
  iter_pos f p x = Nat.iter (Pos.to_nat p) f x.
Proof.
  revert x; induction p as [p IH|p IH|]; intros x; cbn [iter_pos].
  - rewrite !IH, Pos2Nat.inj_xI.
    replace (S (2 * Pos.to_nat p)) with (Pos.to_nat p + S (Pos.to_nat p))%nat
      by lia.
    rewrite Nat.iter_add, Nat.iter_succ_r. reflexivity.
  - rewrite !IH, Pos2Nat.inj_xO.
    replace (2 * Pos.to_nat p)%nat with (Pos.to_nat p + Pos.to_nat p)%nat
      by lia.
    rewrite Nat.iter_add. reflexivity.
  - reflexivity.
Qed.

(** The low [n + 1] bits are zero when bit [n] and the low [n] bits are. *)
Lemma sticky_step (x n : Z) :
  0 <= x -> 0 <= n ->
  negb (x mod 2 ^ (n + 1) =? 0)
  = Z.odd (x / 2 ^ n) || negb (x mod 2 ^ n =? 0).
Proof.
  intros Hx Hn.
  assert (Hp : 0 < 2 ^ n) by (apply Z.pow_pos_nonneg; lia).
  rewrite Z.pow_add_r, Z.pow_1_r by lia.
  rewrite Z.rem_mul_r by lia.
  rewrite Zmod_odd.
  pose proof (Z.mod_pos_bound x (2 ^ n) Hp) as Hr.
  destruct (Z.odd (x / 2 ^ n)); cbn [orb].
  - destruct (x mod 2 ^ n + 2 ^ n * 1 =? 0) eqn:E; [|reflexivity].
    apply Z.eqb_eq in E. lia.
  - rewrite Z.mul_0_r, Z.add_0_r. reflexivity.
Qed.

Lemma shr_iter_spec (x : Z) (r0 s0 : bool) (n : nat) :
  0 <= x ->
  Nat.iter (S n) shr_1 {| shr_m := x; shr_r := r0; shr_s := s0 |}
  = {| shr_m := x / 2 ^ (Z.of_nat n + 1);
       shr_r := Z.odd (x / 2 ^ Z.of_nat n);
       shr_s := negb (x mod 2 ^ Z.of_nat n =? 0) || (r0 || s0) |}.
Proof.
  intros Hx. induction n as [|n IH].
  - cbn [Nat.iter]. rewrite shr_1_spec by exact Hx.
    cbn [Z.of_nat Z.add]. rewrite Z.pow_0_r, Z.pow_1_r, Z.div_1_r, Z.mod_1_r.
    reflexivity.
  - change (Nat.iter (S (S n)) shr_1 ?a) with (shr_1 (Nat.iter (S n) shr_1 a)).
    rewrite IH, shr_1_spec.
    + replace (Z.of_nat (S n)) with (Z.of_nat n + 1) by lia.
      f_equal.
      * rewrite Z.div_div by (try apply Z.pow_pos_nonneg; lia).
        rewrite (Z.pow_add_r 2 (Z.of_nat n + 1) 1) by lia. reflexivity.
      * rewrite (sticky_step x (Z.of_nat n)) by lia.
        rewrite orb_assoc. reflexivity.
    + apply Z.div_pos; [exact Hx | apply Z.pow_pos_nonneg; lia].
Qed.

(** [shr] by [k >= 1] positions: quotient, round bit and sticky bit. *)
Lemma shr_spec (x e k : Z) (r0 s0 : bool) :
  0 <= x -> 0 < k ->
  shr {| shr_m := x; shr_r := r0; shr_s := s0 |} e k
  = ({| shr_m := x / 2 ^ k;
        shr_r := Z.odd (x / 2 ^ (k - 1));
        shr_s := negb (x mod 2 ^ (k - 1) =? 0) || (r0 || s0) |}, e + k).
Proof.
  intros Hx Hk. destruct k as [|p|p]; try lia.
  cbn [shr]. rewrite iter_pos_nat.
  destruct (Pos.to_nat p) as [|n] eqn:En; [lia|].
  rewrite shr_iter_spec by exact Hx.
  replace (Z.pos p) with (Z.of_nat n + 1) by lia.
  replace (Z.of_nat n + 1 - 1) with (Z.of_nat n) by lia. reflexivity.
Qed.

(** Rounding to nearest even by the round bit and the sticky bit. *)
Lemma round_nearest_even_spec (q : Z) (r s : bool) :
  round_nearest_even q
    (loc_of_shr_record {| shr_m := q; shr_r := r; shr_s := s |})
  = if r && (s || Z.odd q) then q + 1 else q.
Proof.
  destruct r, s; cbn [loc_of_shr_record round_nearest_even andb orb];
    try reflexivity.
  rewrite <- Z.negb_odd. destruct (Z.odd q); reflexivity.
Qed.

Lemma shr_record_of_loc_bits (m : Z) (l : location) :
  exists r0 s0, shr_record_of_loc m l = {| shr_m := m; shr_r := r0; shr_s := s0 |}
                /\ r0 || s0 = inexact l.
Proof.
  destruct l as [|[| |]]; cbn; eauto.
Qed.

Lemma quotient_bounds (x k : Z) :
  0 <= k -> 2 ^ (52 + k) <= x < 2 ^ (53 + k) ->
  2 ^ 52 <= x / 2 ^ k < 2 ^ 53.
Proof.
  intros Hk [Hlo Hhi].
  assert (Hp : 0 < 2 ^ k) by (apply Z.pow_pos_nonneg; lia).
  rewrite Z.pow_add_r in Hlo, Hhi by lia.
  split.
  - apply Z.div_le_lower_bound; lia.
  - apply Z.div_lt_upper_bound; lia.
Qed.

(** [binary_round_aux] on a positive mantissa of [53 + k] bits, in the
    range of the normal numbers: the mantissa is rounded by [k] bits to the
    nearest, ties to even, and renormalised when the rounding carries. *)
Lemma binary_round_aux_spec (x e k : Z) (l : location) :
  1 <= k -> 2 ^ (52 + k) <= x < 2 ^ (53 + k) ->
  -1074 <= e + k <= 970 ->
  binary_round_aux 53 1024 false x e l
  = if rne_loc x k (inexact l) <? 2 ^ 53
    then S754_finite false (Z.to_pos (rne_loc x k (inexact l))) (e + k)
    else S754_finite false (Z.to_pos (2 ^ 52)) (e + k + 1).
Proof.
  intros Hk Hx He.
  assert (Hpos : 0 < x).
  { destruct Hx as [Hlo _]. pose proof (Z.pow_pos_nonneg 2 (52 + k)). lia. }
  assert (Hd : nbits x = 53 + k).
  { apply nbits_unique; [|lia].
    replace (53 + k - 1) with (52 + k) by lia. exact Hx. }
  pose proof (quotient_bounds x k ltac:(lia) Hx) as Hq.
  unfold binary_round_aux, shr_fexp.
  rewrite (Zdigits2_nbits x Hpos), Hd.
  unfold fexp, emin.
  replace (Z.max (53 + k + e - 53) (3 - 1024 - 53) - e) with k by lia.
  destruct (shr_record_of_loc_bits x l) as [r0 [s0 [Hrec Hbits]]].
  rewrite Hrec, shr_spec by lia.
  rewrite Hbits.
  cbn [shr_m]. rewrite round_nearest_even_spec.
  fold (rne_loc x k (inexact l)).
  set (m1 := rne_loc x k (inexact l)).
  assert (Hm1 : 2 ^ 52 <= m1 <= 2 ^ 53).
  { unfold m1, rne_loc. destruct (_ && _); lia. }
  destruct (m1 <? 2 ^ 53) eqn:E.
  - apply Z.ltb_lt in E.
    assert (Hd1 : nbits m1 = 53)
      by (apply nbits_unique; [change (53 - 1) with 52; lia | lia]).
    rewrite (Zdigits2_nbits m1) by lia. rewrite Hd1.
    replace (Z.max (53 + (e + k) - 53) (3 - 1024 - 53) - (e + k)) with 0 by lia.
    cbn [shr_record_of_loc shr shr_m].
    destruct m1 as [|p|p]; try lia.
    replace (e + k <=? 1024 - 53) with true by (symmetry; apply Z.leb_le; lia).
    reflexivity.
  - apply Z.ltb_ge in E. assert (m1 = 2 ^ 53) as Hm by lia. rewrite Hm.
    rewrite (Zdigits2_nbits (2 ^ 53)) by reflexivity.
    change (nbits (2 ^ 53)) with 54.
    replace (Z.max (54 + (e + k) - 53) (3 - 1024 - 53) - (e + k)) with 1 by lia.
    cbn [shr_record_of_loc]. rewrite shr_spec by lia.
    cbn [shr_m]. change (2 ^ 53 / 2 ^ 1) with (2 ^ 52).
    change (2 ^ 52) with (Z.pos (Z.to_pos (2 ^ 52))) at 1.
    cbv iota beta.
    replace (e + k + 1 <=? 1024 - 53) with true by (symmetry; apply Z.leb_le; lia).
    reflexivity.
Qed.

(** The quotient, exponent and location that [SFdiv_core_binary] hands
    over for [bytes / 2 ^ 30]. *)
Lemma div_core_gib (bytes : Z) :
  0 < bytes < 2 ^ 64 ->
  SFdiv_core_binary 53 1024 bytes 0 (2 ^ 30) 0
  = (bytes * 2 ^ (84 - nbits bytes) / 2 ^ 30,
     nbits bytes - 84,
     if (bytes * 2 ^ (84 - nbits bytes)) mod 2 ^ 30 =? 0 then loc_Exact
     else loc_Inexact
            (2 * ((bytes * 2 ^ (84 - nbits bytes)) mod 2 ^ 30) ?= 2 ^ 30)).
Proof.
  intros Hb.
  assert (Hd : 1 <= nbits bytes <= 64).
  { pose proof (Z.log2_nonneg bytes). unfold nbits. split; [lia|].
    assert (Z.log2 bytes < 64); [|lia].
    apply Z.log2_lt_pow2; lia. }
  unfold SFdiv_core_binary.
  rewrite (Zdigits2_nbits bytes) by lia.
  change (Zdigits2 (2 ^ 30)) with 31.
  unfold fexp, emin.
  replace (Z.min (Z.max (nbits bytes + 0 - (31 + 0) - 53) (3 - 1024 - 53)) (0 - 0))
    with (nbits bytes - 84) by lia.
  replace (0 - 0 - (nbits bytes - 84)) with (84 - nbits bytes) by lia.
  destruct (84 - nbits bytes) as [|s|s] eqn:Es; try lia.
  rewrite Z.shiftl_mul_pow2 by lia.
  unfold Z.div, Z.modulo.
  destruct (Z.div_eucl (bytes * 2 ^ Z.pos s) (2 ^ 30)) as [q r].
  unfold new_location. change (Z.even (2 ^ 30)) with true.
  unfold new_location_even. reflexivity.
Qed.

Lemma nbits_range (bytes : Z) :
  0 < bytes < 2 ^ 64 -> 1 <= nbits bytes <= 64.
Proof.
  intros Hb. pose proof (Z.log2_nonneg bytes). unfold nbits. split; [lia|].
  assert (Z.log2 bytes < 64); [|lia].
  apply Z.log2_lt_pow2; lia.
Qed.

Lemma pow2_split (a b : Z) : 0 <= a -> 0 <= b -> 2 ^ (a + b) = 2 ^ a * 2 ^ b.
Proof. intros. apply Z.pow_add_r; assumption. Qed.

Lemma pow2_pos (a : Z) : 0 <= a -> 0 < 2 ^ a.
Proof. intros. apply Z.pow_pos_nonneg; lia. Qed.

Lemma scale_bounds (x lo hi j : Z) :
  0 <= lo -> 0 <= hi -> 0 <= j ->
  2 ^ lo <= x < 2 ^ hi ->
  2 ^ (lo + j) <= x * 2 ^ j < 2 ^ (hi + j).
Proof.
  intros Hlo Hhi Hj Hx. pose proof (pow2_pos j Hj).
  rewrite (pow2_split lo j), (pow2_split hi j) by assumption. nia.
Qed.

(** The quotient by [2 ^ 30] as [int_truediv] prepares it: below 55 bits
    nothing is lost. *)
Lemma gib_quotient_small (bytes d : Z) :
  1 <= d <= 54 ->
  bytes * 2 ^ (84 - d) / 2 ^ 30 = bytes * 2 ^ (54 - d)
  /\ (bytes * 2 ^ (84 - d)) mod 2 ^ 30 = 0.
Proof.
  intros Hd. replace (84 - d) with ((54 - d) + 30) by lia.
  rewrite pow2_split by lia. rewrite Z.mul_assoc.
  split; [apply Z.div_mul | apply Z.mod_mul]; discriminate.
Qed.

Lemma gib_quotient_large (bytes d : Z) :
  54 <= d <= 64 ->
  bytes * 2 ^ (84 - d) / 2 ^ 30 = bytes / 2 ^ (d - 54)
  /\ ((bytes * 2 ^ (84 - d)) mod 2 ^ 30 =? 0)
     = (bytes mod 2 ^ (d - 54) =? 0).
Proof.
  intros Hd.
  assert (H30 : 2 ^ 30 = 2 ^ (d - 54) * 2 ^ (84 - d)).
  { rewrite <- pow2_split by lia. f_equal. lia. }
  pose proof (pow2_pos (84 - d) ltac:(lia)) as Hc.
  pose proof (pow2_pos (d - 54) ltac:(lia)) as Ha.
  rewrite H30. split.
  - apply Z.div_mul_cancel_r; lia.
  - rewrite Z.mul_mod_distr_r by lia.
    destruct (bytes mod 2 ^ (d - 54) =? 0) eqn:E.
    + apply Z.eqb_eq in E. rewrite E. reflexivity.
    + apply Z.eqb_neq in E. apply Z.eqb_neq. nia.
Qed.

(** [total_mem_bytes / (1024 ** 3)]: a finite float whose value is the
    memory rounded to 53 bits, over [2 ^ 30]. *)
Lemma int_truediv_gib (bytes : Z) :
  0 < bytes < 2 ^ 64 ->
  exists Mg Eg,
    int_truediv bytes (1024 ^ 3) = Returns (S754_finite false Mg Eg)
    /\ 2 ^ 52 <= Z.pos Mg < 2 ^ 53
    /\ -82 <= Eg <= -18
    /\ Z.pos Mg * 2 ^ (Eg + 83) = round53 bytes * 2 ^ 53.
Proof.
  intros Hb.
  pose proof (nbits_range bytes Hb) as Hd.
  pose proof (nbits_bounds bytes ltac:(lia)) as Hbits.
  set (d := nbits bytes) in *.
  unfold int_truediv. change (1024 ^ 3) with (2 ^ 30).
  change (2 ^ 30 =? 0) with false. cbv iota.
  replace (bytes =? 0) with false by (symmetry; apply Z.eqb_neq; lia).
  rewrite (Z.abs_eq bytes) by lia. change (Z.abs (2 ^ 30)) with (2 ^ 30).
  rewrite div_core_gib by exact Hb. fold d.
  replace (bytes <? 0) with false by (symmetry; apply Z.ltb_ge; lia).
  change (xorb false (2 ^ 30 <? 0)) with false.
  set (q := bytes * 2 ^ (84 - d) / 2 ^ 30).
  set (l := if (bytes * 2 ^ (84 - d)) mod 2 ^ 30 =? 0 then loc_Exact
            else loc_Inexact _).
  assert (Hinx : inexact l = negb ((bytes * 2 ^ (84 - d)) mod 2 ^ 30 =? 0)).
  { unfold l. destruct (_ =? 0); reflexivity. }
  assert (Hq : 2 ^ (52 + 1) <= q < 2 ^ (53 + 1)).
  { unfold q. pose proof (pow2_pos (84 - d) ltac:(lia)) as Hp.
    assert (2 ^ 83 <= bytes * 2 ^ (84 - d) < 2 ^ 84).
    { pose proof (scale_bounds bytes (d - 1) d (84 - d)
                    ltac:(lia) ltac:(lia) ltac:(lia) Hbits) as Hs.
      replace (d - 1 + (84 - d)) with 83 in Hs by lia.
      replace (d + (84 - d)) with 84 in Hs by lia. exact Hs. }
    split.
    - apply Z.div_le_lower_bound; [reflexivity|].
      change (2 ^ 30 * 2 ^ (52 + 1)) with (2 ^ 83). lia.
    - apply Z.div_lt_upper_bound; [reflexivity|].
      change (2 ^ 30 * 2 ^ (53 + 1)) with (2 ^ 84). lia. }
  unfold prec, emax.
  rewrite (binary_round_aux_spec q (d - 84) 1 l) by lia.
  rewrite Hinx.
  assert (Hm1 : rne_loc q 1 (negb ((bytes * 2 ^ (84 - d)) mod 2 ^ 30 =? 0))
                = if d <=? 53 then bytes * 2 ^ (53 - d)
                  else rne_loc bytes (d - 53) false).
  { destruct (d <=? 53) eqn:E.
    - apply Z.leb_le in E.
      destruct (gib_quotient_small bytes d ltac:(lia)) as [Hq1 Hr1].
      rewrite Hr1. unfold rne_loc, q. rewrite Hq1.
      change (2 ^ (1 - 1)) with 1. rewrite Z.div_1_r, Z.mod_1_r.
      replace (54 - d) with (1 + (53 - d)) by lia.
      rewrite pow2_split by lia. change (2 ^ 1) with 2.
      replace (bytes * (2 * 2 ^ (53 - d))) with (2 * (bytes * 2 ^ (53 - d))) by lia.
      rewrite Z.odd_mul. cbn [Z.odd andb].
      rewrite Z.mul_comm, Z.div_mul by discriminate. reflexivity.
    - apply Z.leb_gt in E.
      destruct (gib_quotient_large bytes d ltac:(lia)) as [Hq1 Hr1].
      rewrite Hr1. unfold rne_loc, q. rewrite Hq1.
      change (2 ^ (1 - 1)) with 1. rewrite Z.div_1_r, Z.mod_1_r.
      change (2 ^ 1) with 2.
      rewrite Z.div_div by (try apply pow2_pos; lia).
      replace (2 ^ (d - 54) * 2) with (2 ^ (d - 53)).
      2:{ replace (d - 53) with ((d - 54) + 1) by lia.
          rewrite pow2_split by lia. reflexivity. }
      replace (d - 53 - 1) with (d - 54) by lia.
      cbn [Z.eqb negb orb]. rewrite orb_false_r. reflexivity. }
  rewrite Hm1.
  destruct (d <=? 53) eqn:E.
  - apply Z.leb_le in E.
    assert (Hlt : 2 ^ 52 <= bytes * 2 ^ (53 - d) < 2 ^ 53).
    { pose proof (scale_bounds bytes (d - 1) d (53 - d)
                    ltac:(lia) ltac:(lia) ltac:(lia) Hbits) as Hs.
      replace (d - 1 + (53 - d)) with 52 in Hs by lia.
      replace (d + (53 - d)) with 53 in Hs by lia. exact Hs. }
    replace (bytes * 2 ^ (53 - d) <? 2 ^ 53) with true
      by (symmetry; apply Z.ltb_lt; lia).
    exists (Z.to_pos (bytes * 2 ^ (53 - d))), (d - 84 + 1).
    rewrite Z2Pos.id by lia.
    split; [reflexivity|]. split; [exact Hlt|]. split; [lia|].
    unfold round53. fold d.
    replace (d - 53 <=? 0) with true by (symmetry; apply Z.leb_le; lia).
    replace (d - 84 + 1 + 83) with d by lia.
    replace 53 with ((53 - d) + d) at 2 by lia.
    rewrite (pow2_split (53 - d) d) by lia. lia.
  - apply Z.leb_gt in E.
    assert (Hx : 2 ^ (52 + (d - 53)) <= bytes < 2 ^ (53 + (d - 53))).
    { replace (52 + (d - 53)) with (d - 1) by lia.
      replace (53 + (d - 53)) with d by lia. exact Hbits. }
    pose proof (quotient_bounds bytes (d - 53) ltac:(lia) Hx) as Hqb.
    assert (Hm : 2 ^ 52 <= rne_loc bytes (d - 53) false <= 2 ^ 53).
    { unfold rne_loc. destruct (_ && _); lia. }
    assert (Hr53 : round53 bytes = rne_loc bytes (d - 53) false * 2 ^ (d - 53)).
    { unfold round53. fold d.
      replace (d - 53 <=? 0) with false by (symmetry; apply Z.leb_gt; lia).
      reflexivity. }
    destruct (rne_loc bytes (d - 53) false <? 2 ^ 53) eqn:E1.
    + apply Z.ltb_lt in E1.
      exists (Z.to_pos (rne_loc bytes (d - 53) false)), (d - 84 + 1).
      rewrite Z2Pos.id by lia.
      split; [reflexivity|]. split; [lia|]. split; [lia|].
      rewrite Hr53. replace (d - 84 + 1 + 83) with ((d - 53) + 53) by lia.
      rewrite pow2_split by lia. lia.
    + apply Z.ltb_ge in E1.
      exists (Z.to_pos (2 ^ 52)), (d - 84 + 1 + 1).
      split; [reflexivity|]. split; [split; [reflexivity | reflexivity]|].
      split; [lia|].
      rewrite Hr53. replace (rne_loc bytes (d - 53) false) with (2 ^ 53) by lia.
      change (Z.pos (Z.to_pos (2 ^ 52))) with (2 ^ 52).
      replace (d - 84 + 1 + 1 + 83) with (1 + ((d - 53) + 53)) by lia.
      rewrite (pow2_split 1) by lia. rewrite (pow2_split (d - 53)) by lia.
      change (2 ^ 1) with 2. change (2 ^ 53) with (2 * 2 ^ 52) at 1. lia.
Qed.

(* ------------------------------------------------------------------ *)
(** ** Rounding to 53 bits: order and scaling *)

(** The rounding of [x / 2 ^ k] by the remainder: up above the half, up
    at the half when the quotient is odd. *)
Lemma rne_loc_by_remainder (x k : Z) :
  0 <= x -> 1 <= k ->
  rne_loc x k false
  = if (2 ^ (k - 1) <? x mod 2 ^ k)
       || ((2 ^ (k - 1) =? x mod 2 ^ k) && Z.odd (x / 2 ^ k))
    then x / 2 ^ k + 1 else x / 2 ^ k.
Proof.
  intros Hx Hk.
  pose proof (pow2_pos (k - 1) ltac:(lia)) as Hh.
  assert (H2 : 2 ^ k = 2 * 2 ^ (k - 1)).
  { replace k with (1 + (k - 1)) at 1 by lia.
    rewrite pow2_split by lia. reflexivity. }
  set (h := 2 ^ (k - 1)) in *.
  pose proof (Z.div_mod x (2 ^ k) ltac:(lia)) as Hdm.
  pose proof (Z.mod_pos_bound x (2 ^ k) ltac:(lia)) as Hr.
  set (q := x / 2 ^ k) in *. set (r := x mod 2 ^ k) in *.
  unfold rne_loc. fold h. fold q.
  destruct (Z_lt_ge_dec r h) as [Hlt|Hge].
  - assert (Hq : x / h = 2 * q) by (symmetry; apply Z.div_unique with (r := r); lia).
    rewrite Hq, Z.odd_mul. cbn [Z.odd andb].
    replace (h <? r) with false by (symmetry; apply Z.ltb_ge; lia).
    replace (h =? r) with false by (symmetry; apply Z.eqb_neq; lia).
    reflexivity.
  - assert (Hq : x / h = 2 * q + 1)
      by (symmetry; apply Z.div_unique with (r := r - h); lia).
    assert (Hm : x mod h = r - h)
      by (symmetry; apply Z.mod_unique with (q := 2 * q + 1); lia).
    rewrite Hq, Hm, Z.odd_add, Z.odd_mul. cbn [Z.odd andb xorb].
    rewrite orb_false_r.
    destruct (Z.eq_dec r h) as [Heq|Hne].
    + replace (r - h =? 0) with true by (symmetry; apply Z.eqb_eq; lia).
      replace (h <? r) with false by (symmetry; apply Z.ltb_ge; lia).
      replace (h =? r) with true by (symmetry; apply Z.eqb_eq; lia).
      reflexivity.
    + replace (r - h =? 0) with false by (symmetry; apply Z.eqb_neq; lia).
      replace (h <? r) with true by (symmetry; apply Z.ltb_lt; lia).
      reflexivity.
Qed.

Lemma rne_loc_mono (x y k : Z) :
  0 <= x <= y -> 1 <= k -> rne_loc x k false <= rne_loc y k false.
Proof.
  intros Hxy Hk.
  rewrite !rne_loc_by_remainder by lia.
  pose proof (pow2_pos (k - 1) ltac:(lia)) as Hh.
  assert (H2 : 2 ^ k = 2 * 2 ^ (k - 1)).
  { replace k with (1 + (k - 1)) at 1 by lia.
    rewrite pow2_split by lia. reflexivity. }
  pose proof (Z.div_mod x (2 ^ k) ltac:(lia)) as Hx.
  pose proof (Z.mod_pos_bound x (2 ^ k) ltac:(lia)) as Hrx.
  pose proof (Z.div_mod y (2 ^ k) ltac:(lia)) as Hy.
  pose proof (Z.mod_pos_bound y (2 ^ k) ltac:(lia)) as Hry.
  assert (Hq : x / 2 ^ k <= y / 2 ^ k) by (apply Z.div_le_mono; lia).
  destruct (Z.eq_dec (x / 2 ^ k) (y / 2 ^ k)) as [Heq|Hne].
  - rewrite <- Heq in *.
    assert (Hr : x mod 2 ^ k <= y mod 2 ^ k) by lia.
    destruct (2 ^ (k - 1) <? x mod 2 ^ k) eqn:E1;
      destruct (2 ^ (k - 1) <? y mod 2 ^ k) eqn:E2;
      destruct (2 ^ (k - 1) =? x mod 2 ^ k) eqn:E3;
      destruct (2 ^ (k - 1) =? y mod 2 ^ k) eqn:E4;
      destruct (Z.odd (x / 2 ^ k)); cbn [orb andb]; try lia;
      repeat match goal with
             | H : (_ <? _) = true |- _ => apply Z.ltb_lt in H
             | H : (_ <? _) = false |- _ => apply Z.ltb_ge in H
             | H : (_ =? _) = true |- _ => apply Z.eqb_eq in H
             | H : (_ =? _) = false |- _ => apply Z.eqb_neq in H
             end; lia.
  - destruct (_ || _); destruct (_ || _); lia.
Qed.

Lemma nbits_scale (x j : Z) : 0 < x -> 0 <= j -> nbits (x * 2 ^ j) = nbits x + j.
Proof.
  intros Hx Hj. pose proof (Z.log2_nonneg x).
  apply nbits_unique; [|unfold nbits; lia].
  replace (nbits x + j - 1) with (nbits x - 1 + j) by lia.
  apply scale_bounds; try (unfold nbits; lia).
  apply nbits_bounds; exact Hx.
Qed.

Lemma nbits_mono (x y : Z) : x <= y -> nbits x <= nbits y.
Proof.
  intros H. unfold nbits. pose proof (Z.log2_le_mono x y H). lia.
Qed.

Lemma round53_bounds (x : Z) :
  0 < x -> 2 ^ (nbits x - 1) <= round53 x <= 2 ^ nbits x.
Proof.
  intros Hx. pose proof (nbits_bounds x Hx) as Hb.
  unfold round53. destruct (nbits x - 53 <=? 0) eqn:E; [lia|].
  apply Z.leb_gt in E. set (k := nbits x - 53) in *.
  assert (Hx' : 2 ^ (52 + k) <= x < 2 ^ (53 + k)).
  { replace (52 + k) with (nbits x - 1) by (unfold k; lia).
    replace (53 + k) with (nbits x) by (unfold k; lia). exact Hb. }
  pose proof (quotient_bounds x k ltac:(lia) Hx') as Hq.
  assert (Hm : 2 ^ 52 <= rne_loc x k false <= 2 ^ 53).
  { unfold rne_loc. destruct (_ && _); lia. }
  pose proof (pow2_pos k ltac:(lia)) as Hp.
  replace (nbits x - 1) with (52 + k) by (unfold k; lia).
  replace (nbits x) with (53 + k) by (unfold k; lia).
  rewrite !pow2_split by lia. nia.
Qed.

Lemma round53_small (x : Z) : 0 <= x < 2 ^ 53 -> round53 x = x.
Proof.
  intros Hx. unfold round53.
  assert (nbits x <= 53); [|destruct (nbits x - 53 <=? 0) eqn:E;
                             [reflexivity | apply Z.leb_gt in E; lia]].
  destruct (Z.eq_dec x 0) as [->|Hne]; [discriminate|].
  unfold nbits. assert (Z.log2 x < 53); [|lia].
  apply Z.log2_lt_pow2; lia.
Qed.

Lemma round53_mono (x y : Z) : 0 <= x <= y -> round53 x <= round53 y.
Proof.
  intros [Hx Hxy].
  destruct (Z.eq_dec x 0) as [->|Hx0].
  - change (round53 0) with 0.
    destruct (Z.eq_dec y 0) as [->|Hy0]; [reflexivity|].
    pose proof (round53_bounds y ltac:(lia)).
    pose proof (pow2_pos (nbits y - 1)). unfold nbits in *.
    pose proof (Z.log2_nonneg y). lia.
  - pose proof (nbits_mono x y Hxy) as Hn.
    pose proof (round53_bounds x ltac:(lia)) as Bx.
    pose proof (round53_bounds y ltac:(lia)) as By.
    destruct (Z.eq_dec (nbits x) (nbits y)) as [Heq|Hne].
    + unfold round53. rewrite <- Heq.
      destruct (nbits x - 53 <=? 0) eqn:E; [exact Hxy|].
      apply Z.leb_gt in E.
      pose proof (rne_loc_mono x y (nbits x - 53) ltac:(lia) ltac:(lia)).
      pose proof (pow2_pos (nbits x - 53) ltac:(lia)). nia.
    + assert (2 ^ nbits x <= 2 ^ (nbits y - 1))
        by (apply Z.pow_le_mono_r; lia).
      lia.
Qed.

Lemma round53_scale (x j : Z) :
  0 < x -> 0 <= j -> round53 (x * 2 ^ j) = round53 x * 2 ^ j.
Proof.
  intros Hx Hj. unfold round53. rewrite nbits_scale by assumption.
  set (k := nbits x - 53).
  replace (nbits x + j - 53) with (k + j) by (unfold k; lia).
  pose proof (pow2_pos j Hj) as Hpj.
  destruct (k <=? 0) eqn:Ek; [apply Z.leb_le in Ek | apply Z.leb_gt in Ek].
  - destruct (k + j <=? 0) eqn:Ekj; [reflexivity|]. apply Z.leb_gt in Ekj.
    unfold rne_loc.
    assert (Hq : x * 2 ^ j / 2 ^ (k + j) = x * 2 ^ (- k)).
    { replace j with ((- k) + (k + j)) at 1 by lia.
      rewrite pow2_split by lia. rewrite Z.mul_assoc.
      apply Z.div_mul. pose proof (pow2_pos (k + j)); lia. }
    assert (Hh : x * 2 ^ j / 2 ^ (k + j - 1) = 2 * (x * 2 ^ (- k))).
    { replace j with ((1 + - k) + (k + j - 1)) at 1 by lia.
      rewrite (pow2_split (1 + - k)) by lia. rewrite Z.mul_assoc.
      rewrite Z.div_mul by (pose proof (pow2_pos (k + j - 1)); lia).
      rewrite pow2_split by lia. change (2 ^ 1) with 2. lia. }
    rewrite Hq, Hh, Z.odd_mul. cbn [Z.odd andb].
    replace j with ((- k) + (k + j)) at 2 by lia.
    rewrite (pow2_split (- k)) by lia. lia.
  - replace (k + j <=? 0) with false by (symmetry; apply Z.leb_gt; lia).
    pose proof (pow2_pos k ltac:(lia)) as Hpk.
    pose proof (pow2_pos (k - 1) ltac:(lia)) as Hpk1.
    assert (Hq : x * 2 ^ j / 2 ^ (k + j) = x / 2 ^ k).
    { rewrite (pow2_split k j) by lia. apply Z.div_mul_cancel_r; lia. }
    assert (Hh : x * 2 ^ j / 2 ^ (k + j - 1) = x / 2 ^ (k - 1)).
    { replace (k + j - 1) with ((k - 1) + j) by lia.
      rewrite (pow2_split (k - 1) j) by lia. apply Z.div_mul_cancel_r; lia. }
    assert (Hm : (x * 2 ^ j) mod 2 ^ (k + j - 1) = x mod 2 ^ (k - 1) * 2 ^ j).
    { replace (k + j - 1) with ((k - 1) + j) by lia.
      rewrite (pow2_split (k - 1) j) by lia. apply Z.mul_mod_distr_r; lia. }
    unfold rne_loc. rewrite Hq, Hh, Hm.
    replace (x mod 2 ^ (k - 1) * 2 ^ j =? 0) with (x mod 2 ^ (k - 1) =? 0).
    2:{ destruct (x mod 2 ^ (k - 1) =? 0) eqn:E.
        - apply Z.eqb_eq in E. rewrite E. reflexivity.
        - apply Z.eqb_neq in E. symmetry. apply Z.eqb_neq. nia. }
    rewrite (pow2_split k j) by lia. lia.
Qed.

(* ------------------------------------------------------------------ *)
(** ** The product with 80000 and its truncation *)

Lemma float_of_int_80000 :
  float_of_int 80000 = Returns (S754_finite false 5497558138880000 (-36)).
Proof. vm_compute. reflexivity. Qed.

(** From a mantissa and an exponent to the integer part. *)
Lemma trunc_value (M E Y W Eg t : Z) :
  0 <= t -> 0 <= Eg + 83 -> E = Eg - 36 + t -> E <= 0 ->
  M * 2 ^ t = W * 2 ^ 43 ->
  Y * 2 ^ 53 = W * 2 ^ (Eg + 83) ->
  M / 2 ^ (- E) = Y / 2 ^ 23.
Proof.
  intros Ht Hg HE Hneg HM HY.
  assert (Hn : 0 <= 119 + E) by lia.
  pose proof (pow2_pos (119 + E) Hn) as Hp.
  pose proof (pow2_pos (- E) ltac:(lia)) as Hq.
  assert (Hkey : M * 2 ^ (119 + E) = Y * 2 ^ 96).
  { replace (119 + E) with (t + (Eg + 83)) by lia.
    rewrite pow2_split by lia.
    replace (M * (2 ^ t * 2 ^ (Eg + 83))) with (M * 2 ^ t * 2 ^ (Eg + 83)) by lia.
    rewrite HM.
    replace (W * 2 ^ 43 * 2 ^ (Eg + 83)) with (W * 2 ^ (Eg + 83) * 2 ^ 43) by lia.
    rewrite <- HY. change (2 ^ 96) with (2 ^ 53 * 2 ^ 43). lia. }
  rewrite <- (Z.div_mul_cancel_r M (2 ^ (- E)) (2 ^ (119 + E))) by lia.
  rewrite Hkey, <- pow2_split by lia.
  replace (- E + (119 + E)) with 119 by lia.
  change (2 ^ 119) with (2 ^ 23 * 2 ^ 96).
  apply Z.div_mul_cancel_r; discriminate.
Qed.

(** [int(total_mem_gb * 80000)] for a [total_mem_gb] of value
    [R / 2 ^ 30]. *)
Lemma int_of_product (Mg : positive) (Eg R : Z) :
  2 ^ 52 <= Z.pos Mg < 2 ^ 53 ->
  -82 <= Eg <= -18 ->
  0 < R ->
  Z.pos Mg * 2 ^ (Eg + 83) = R * 2 ^ 53 ->
  int_of_float
    (float_mul (S754_finite false Mg Eg)
       (S754_finite false 5497558138880000 (-36)))
  = Returns (round53 (R * 625) / 2 ^ 23).
Proof.
  intros HMg HEg HR Hval.
  unfold float_mul, prec, emax. cbn [SFmul xorb].
  rewrite Pos2Z.inj_mul.
  change (Z.pos 5497558138880000) with (625 * 2 ^ 43).
  set (x := Z.pos Mg * (625 * 2 ^ 43)).
  assert (Hx : 2 ^ 104 <= x < 2 ^ 106).
  { unfold x. change (2 ^ 104) with (2 ^ 52 * (512 * 2 ^ 43)).
    change (2 ^ 106) with (2 ^ 53 * (1024 * 2 ^ 43)).
    pose proof (pow2_pos 43 ltac:(lia)). nia. }
  assert (Hpos : 0 < x) by (pose proof (pow2_pos 104); lia).
  pose proof (nbits_bounds x Hpos) as Hbits.
  assert (Hdx : 105 <= nbits x <= 106).
  { pose proof (nbits_mono (2 ^ 104) x ltac:(lia)) as H1.
    pose proof (nbits_mono x (2 ^ 106 - 1) ltac:(lia)) as H2.
    change (nbits (2 ^ 104)) with 105 in H1.
    change (nbits (2 ^ 106 - 1)) with 106 in H2. lia. }
  remember (nbits x - 53) as k eqn:Hk.
  assert (Hxk : 2 ^ (52 + k) <= x < 2 ^ (53 + k)).
  { replace (52 + k) with (nbits x - 1) by lia.
    replace (53 + k) with (nbits x) by lia. exact Hbits. }
  rewrite (binary_round_aux_spec x (Eg + -36) k loc_Exact)
    by lia.
  cbn [inexact].
  pose proof (quotient_bounds x k ltac:(lia) Hxk) as Hq.
  assert (Hm : 2 ^ 52 <= rne_loc x k false <= 2 ^ 53).
  { unfold rne_loc. destruct (_ && _); lia. }
  assert (Hr53 : round53 x = rne_loc x k false * 2 ^ k).
  { unfold round53. rewrite <- Hk.
    replace (k <=? 0) with false by (symmetry; apply Z.leb_gt; lia).
    reflexivity. }
  (* the two scalings *)
  assert (HW : round53 x = round53 (Z.pos Mg * 625) * 2 ^ 43).
  { unfold x. rewrite Z.mul_assoc. apply round53_scale; lia. }
  assert (HY : round53 (R * 625) * 2 ^ 53
               = round53 (Z.pos Mg * 625) * 2 ^ (Eg + 83)).
  { rewrite <- !round53_scale by lia. f_equal. lia. }
  destruct (rne_loc x k false <? 2 ^ 53) eqn:E1.
  - apply Z.ltb_lt in E1. cbn [int_of_float].
    rewrite Z2Pos.id by lia.
    f_equal.
    assert (Hgoal : rne_loc x k false / 2 ^ (- (Eg + -36 + k))
                    = round53 (R * 625) / 2 ^ 23).
    { apply (trunc_value _ _ _ (round53 (Z.pos Mg * 625)) Eg k);
        lia. }
    destruct (0 <=? Eg + -36 + k) eqn:E2; [|exact Hgoal].
    apply Z.leb_le in E2.
    assert (Eg + -36 + k = 0) as H0 by lia.
    rewrite H0 in *. rewrite <- Hgoal.
    change (2 ^ 0) with 1. change (2 ^ (- 0)) with 1.
    rewrite Z.div_1_r. lia.
  - apply Z.ltb_ge in E1. cbn [int_of_float].
    change (Z.pos (Z.to_pos (2 ^ 52))) with (2 ^ 52).
    f_equal.
    assert (Hgoal : 2 ^ 52 / 2 ^ (- (Eg + -36 + k + 1))
                    = round53 (R * 625) / 2 ^ 23).
    { apply (trunc_value _ _ _ (round53 (Z.pos Mg * 625)) Eg (k + 1));
        try lia.
      rewrite <- HW, Hr53.
      replace (rne_loc x k false) with (2 ^ 53) by lia.
      rewrite (pow2_split k 1) by lia.
      change (2 ^ 53) with (2 ^ 52 * 2 ^ 1). lia. }
    destruct (0 <=? Eg + -36 + k + 1) eqn:E2; [|exact Hgoal].
    apply Z.leb_le in E2.
    assert (Eg + -36 + k + 1 = 0) as H0 by lia.
    rewrite H0 in *. rewrite <- Hgoal.
    change (2 ^ (- 0)) with 1. reflexivity.
Qed.

(** With an accelerator that reports [bytes] bytes, the chunk size is
    [ideal_of bytes] brought into the bounds. *)
Lemma get_ideal_chunk_size_gpu (e : env) (default bytes : Z) :
  cuda_is_available e = true ->
  cuda_total_memory e = Returns bytes ->
  0 <= bytes < 2 ^ 64 ->
  Resumes.get_ideal_chunk_size e default
  = Z.max 1024 (Z.min (ideal_of bytes) (default * 120)).
Proof.
  intros Hav Hmem Hb. unfold Resumes.get_ideal_chunk_size.
  rewrite Hav, Hmem. cbn [negb obind].
  destruct (Z.eq_dec bytes 0) as [->|Hne].
  - rewrite float_of_int_80000. reflexivity.
  - destruct (int_truediv_gib bytes ltac:(lia))
      as [Mg [Eg [Hdiv [HMg [HEg Hval]]]]].
    rewrite Hdiv, float_of_int_80000. cbn [obind].
    assert (HR : 0 < round53 bytes).
    { pose proof (round53_bounds bytes ltac:(lia)).
      pose proof (pow2_pos (nbits bytes - 1)).
      pose proof (Z.log2_nonneg bytes). unfold nbits in *. lia. }
    rewrite (int_of_product Mg Eg (round53 bytes) HMg HEg HR Hval).
    reflexivity.
Qed.

Lemma ideal_of_mono (b1 b2 : Z) :
  0 <= b1 <= b2 -> ideal_of b1 <= ideal_of b2.
Proof.
  intros H. unfold ideal_of.
  apply Z.div_le_mono; [reflexivity|].
  pose proof (round53_mono b1 b2 H) as H1.
  assert (0 <= round53 b1).
  { pose proof (round53_mono 0 b1 ltac:(lia)) as H0.
    change (round53 0) with 0 in H0. exact H0. }
  apply round53_mono. lia.
Qed.

Lemma ideal_of_exact (bytes : Z) :
  0 <= bytes -> bytes * 625 < 2 ^ 53 ->
  ideal_of bytes = bytes * 80000 / 1024 ^ 3.
Proof.
  intros H0 H1. unfold ideal_of.
  rewrite (round53_small bytes) by lia.
  rewrite (round53_small (bytes * 625)) by lia.
  change 80000 with (625 * 2 ^ 7). change (1024 ^ 3) with (2 ^ 23 * 2 ^ 7).
  rewrite Z.mul_assoc. symmetry. apply Z.div_mul_cancel_r; discriminate.
Qed.

(** C4.  Without an accelerator [get_ideal_chunk_size] returns the default
    it was given.  With an accelerator that reports [bytes] bytes of memory
    (a 64-bit count) it returns [max(1024, min(ideal, default * 120))], where
    [ideal] is the integer part of the memory in gigabytes times 80000, the
    product being computed in binary64: at least 1024 in every case, at most
    [default * 120] when that bound is not below 1024.  As long as
    [bytes * 625] fits in 53 bits (up to some 13 TiB) no rounding takes place
    and [ideal] is exactly [bytes * 80000 / 2 ^ 30], rounded down.  The
    result never decreases when the reported memory grows.  When the query
    of the device raises, the default is returned. *)
Theorem ideal_chunk_size_clamped_and_monotone :
  (forall e default,
     cuda_is_available e = false ->
     Resumes.get_ideal_chunk_size e default = default)
  /\ (forall e default bytes,
        cuda_is_available e = true ->
        cuda_total_memory e = Returns bytes ->
        0 <= bytes < 2 ^ 64 ->
        Resumes.get_ideal_chunk_size e default
        = Z.max 1024 (Z.min (ideal_of bytes) (default * 120))
        /\ 1024 <= Resumes.get_ideal_chunk_size e default
        /\ (1024 <= default * 120 ->
            Resumes.get_ideal_chunk_size e default <= default * 120))
  /\ (forall bytes,
        0 <= bytes -> bytes * 625 < 2 ^ 53 ->
        ideal_of bytes = bytes * 80000 / 1024 ^ 3)
  /\ (forall e1 e2 default b1 b2,
        cuda_is_available e1 = true -> cuda_total_memory e1 = Returns b1 ->
        cuda_is_available e2 = true -> cuda_total_memory e2 = Returns b2 ->
        0 <= b1 <= b2 -> b2 < 2 ^ 64 ->
        Resumes.get_ideal_chunk_size e1 default
        <= Resumes.get_ideal_chunk_size e2 default)
  /\ (forall e default ex,
        cuda_total_memory e = Raises ex ->
        Resumes.get_ideal_chunk_size e default = default).
Proof.
  refine (conj _ (conj _ (conj ideal_of_exact (conj _ _)))).
  - intros e default H. unfold Resumes.get_ideal_chunk_size.
    rewrite H. reflexivity.
  - intros e default bytes Hav Hmem Hb.
    rewrite (get_ideal_chunk_size_gpu e default bytes Hav Hmem Hb).
    split; [reflexivity|]. split; lia.
  - intros e1 e2 default b1 b2 Hav1 Hmem1 Hav2 Hmem2 Hle Hhi.
    rewrite (get_ideal_chunk_size_gpu e1 default b1 Hav1 Hmem1) by lia.
    rewrite (get_ideal_chunk_size_gpu e2 default b2 Hav2 Hmem2) by lia.
    pose proof (ideal_of_mono b1 b2 Hle). lia.
  - intros e default ex H. unfold Resumes.get_ideal_chunk_size.
    rewrite H. destruct (cuda_is_available e); reflexivity.
Qed.

Lemma ideal_chunk_size_clamped_and_monotone_witness :
  Resumes.get_ideal_chunk_size (Inputs.gpu_machine (2 * 1024 ^ 3)) 4000
  = Z.max 1024 (Z.min (ideal_of (2 * 1024 ^ 3)) (4000 * 120))
  /\ Resumes.get_ideal_chunk_size (Inputs.gpu_machine (2 * 1024 ^ 3)) 4000
     = 160000
  /\ Resumes.get_ideal_chunk_size (Inputs.gpu_machine (2 * 1024 ^ 3)) 4000
     <= Resumes.get_ideal_chunk_size (Inputs.gpu_machine (8 * 1024 ^ 3)) 4000.
Proof.
  split; [|split].
  - apply (proj1 (proj2 ideal_chunk_size_clamped_and_monotone)
             (Inputs.gpu_machine (2 * 1024 ^ 3)) 4000 (2 * 1024 ^ 3)
             eq_refl eq_refl).
    split; [discriminate | reflexivity].
  - vm_compute. reflexivity.
  - apply (proj1 (proj2 (proj2 (proj2 ideal_chunk_size_clamped_and_monotone)))
             (Inputs.gpu_machine (2 * 1024 ^ 3))
             (Inputs.gpu_machine (8 * 1024 ^ 3)) 4000
             (2 * 1024 ^ 3) (8 * 1024 ^ 3) eq_refl eq_refl eq_refl eq_refl).
    + split; discriminate.
    + reflexivity.
Defined.

(* ================================================================== *)
(** * Computations: sequencing, handlers and traces *)
(* ================================================================== *)

Lemma bind_ret_l {A B : Type} (a : A) (f : A -> M B) : bind (ret a) f = f a.
Proof. unfold bind, ret. destruct (f a); reflexivity. Qed.

Lemma bind_done {A B : Type} (t : list event) (a : A) (f : A -> M B) :
  bind (t, Done a) f = prepend t (f a).
Proof. unfold bind, prepend. destruct (f a); reflexivity. Qed.

Lemma bind_call_returns {A B : Type} (ev : event) (a : A) (f : A -> M B) :
  bind (call ev (Returns a)) f = prepend [ev] (f a).
Proof. apply bind_done. Qed.

Lemma bind_call_raises {A B : Type} (ev : event) (ex : exn) (f : A -> M B) :
  bind (call ev (Raises ex)) f = ([ev], Raised ex).
Proof. reflexivity. Qed.

Lemma bind_prepend {A B : Type} (t : list event) (m : M A) (f : A -> M B) :
  bind (prepend t m) f = prepend t (bind m f).
Proof.
  destruct m as [t0 [a|ex|]]; unfold prepend, bind; simpl;
    try reflexivity.
  destruct (f a); simpl. rewrite app_assoc; reflexivity.
Qed.

Lemma bind_assoc {A B C : Type} (m : M A) (f : A -> M B) (g : B -> M C) :
  bind (bind m f) g = bind m (fun a => bind (f a) g).
Proof.
  destruct m as [t [a|ex|]]; try reflexivity.
  rewrite !bind_done. apply bind_prepend.
Qed.

Lemma bind_ext {A B : Type} (m : M A) (f g : A -> M B) :
  (forall a, f a = g a) -> bind m f = bind m g.
Proof.
  intros H. destruct m as [t [a|ex|]]; try reflexivity.
  rewrite !bind_done, H. reflexivity.
Qed.

Lemma prepend_nil {A : Type} (m : M A) : prepend [] m = m.
Proof. destruct m; reflexivity. Qed.

Lemma prepend_prepend {A : Type} (t t' : list event) (m : M A) :
  prepend t (prepend t' m) = prepend (t ++ t') m.
Proof. unfold prepend; simpl. rewrite app_assoc; reflexivity. Qed.


Lemma outcome_prepend {A : Type} (t : list event) (m : M A) :
  outcome_of (prepend t m) = outcome_of m.
Proof. reflexivity. Qed.


(** A handler that returns catches every exception. *)
Lemma try_except_never_raises {A : Type} (m : M A) (d : A) (ex : exn) :
  outcome_of (try_except m (fun _ => ret d)) <> Raised ex.
Proof. destruct m as [t [a|ex'|]]; simpl; discriminate. Qed.

Lemma outcome_bind_raised {A B : Type} (m : M A) (f : A -> M B) (ex : exn) :
  outcome_of (bind m f) = Raised ex ->
  outcome_of m = Raised ex
  \/ exists a, outcome_of m = Done a /\ outcome_of (f a) = Raised ex.
Proof.
  destruct m as [t [a|ex'|]].
  - rewrite bind_done, outcome_prepend. intros H.
    right. exists a. split; [reflexivity | exact H].
  - intros H; inversion H; left; reflexivity.
  - discriminate.
Qed.

Lemma outcome_bind_done {A B : Type} (m : M A) (f : A -> M B) (a : A) :
  outcome_of m = Done a ->
  outcome_of (bind m f) = outcome_of (f a).
Proof.
  destruct m as [t r]; cbn [outcome_of snd]. intros ->.
  rewrite bind_done. reflexivity.
Qed.


(* ================================================================== *)
(** * Page extraction *)
(* ================================================================== *)

Section Pages.

Variable e : env.

(** What the lenient script does with one page. *)
Lemma lenient_page (n : Z) (p : page) (rest : list page) (acc : list str) :
  ResumeOcrGpu.pages_loop e n (p :: rest) acc =
  if truthy (strip (get_text p)) then
    ResumeOcrGpu.pages_loop e (n + 1) rest (acc ++ [strip (get_text p)])
  else
    prepend [EvPixmap n 300; EvOcr n]
      (let results :=
         match readtext e (get_pixmap p 300) with
         | Returns r => r
         | Raises _ => []
         end in
       if truthy (strip (join [LF] results)) then
         ResumeOcrGpu.pages_loop e (n + 1) rest
           (acc ++ [strip (join [LF] results)])
       else ResumeOcrGpu.pages_loop e (n + 1) rest acc).
Proof.
  cbn [ResumeOcrGpu.pages_loop].
  destruct (truthy (strip (get_text p))); [reflexivity|].
  rewrite bind_call_returns.
  destruct (readtext e (get_pixmap p 300)) as [r|ex];
    cbn [call try_except ret].
  - rewrite bind_call_returns, prepend_prepend. reflexivity.
  - rewrite bind_done, prepend_prepend. reflexivity.
Qed.

(** What the strict script does with one page. *)
Lemma strict_page (n : Z) (p : page) (rest : list page) (acc : list str) :
  Resumes.pages_loop e n (p :: rest) acc =
  if truthy (strip (get_text p)) then
    Resumes.pages_loop e (n + 1) rest (acc ++ [strip (get_text p)])
  else
    match image_to_string e (get_pixmap p 300) with
    | Raises ex => ([EvPixmap n 300; EvOcr n], Raised ex)
    | Returns raw =>
        prepend [EvPixmap n 300; EvOcr n]
          (if truthy (strip raw) then
             Resumes.pages_loop e (n + 1) rest (acc ++ [strip raw])
           else Resumes.pages_loop e (n + 1) rest acc)
    end.
Proof.
  cbn [Resumes.pages_loop].
  destruct (truthy (strip (get_text p))); [reflexivity|].
  rewrite bind_call_returns.
  destruct (image_to_string e (get_pixmap p 300)) as [raw|ex].
  - rewrite bind_call_returns, prepend_prepend. reflexivity.
  - reflexivity.
Qed.

Lemma len_cons {X : Type} (x : X) (l : list X) :
  Z.of_nat (length (x :: l)) = 1 + Z.of_nat (length l).
Proof. cbn [length]. lia. Qed.

(** The loop over [before ++ after] is the loop over [before] followed by
    the loop over [after], numbered on. *)
Lemma lenient_pages_app (before after : list page) :
  forall n acc,
    ResumeOcrGpu.pages_loop e n (before ++ after) acc =
    (acc1 <- ResumeOcrGpu.pages_loop e n before acc ;;
     ResumeOcrGpu.pages_loop e (n + Z.of_nat (length before)) after acc1).
Proof.
  induction before as [|p before IH]; intros n acc.
  - cbn [app length ResumeOcrGpu.pages_loop]. rewrite bind_ret_l.
    rewrite Z.add_0_r. reflexivity.
  - rewrite <- app_comm_cons, !lenient_page, len_cons, Z.add_assoc.
    destruct (truthy (strip (get_text p))); [apply IH|].
    rewrite bind_prepend. f_equal. cbv zeta.
    destruct (truthy _); apply IH.
Qed.

Lemma strict_pages_app (before after : list page) :
  forall n acc,
    Resumes.pages_loop e n (before ++ after) acc =
    (acc1 <- Resumes.pages_loop e n before acc ;;
     Resumes.pages_loop e (n + Z.of_nat (length before)) after acc1).
Proof.
  induction before as [|p before IH]; intros n acc.
  - cbn [app length Resumes.pages_loop]. rewrite bind_ret_l.
    rewrite Z.add_0_r. reflexivity.
  - rewrite <- app_comm_cons, !strict_page, len_cons, Z.add_assoc.
    destruct (truthy (strip (get_text p))); [apply IH|].
    destruct (image_to_string e (get_pixmap p 300)) as [raw|ex];
      [|reflexivity].
    rewrite bind_prepend. f_equal.
    destruct (truthy _); apply IH.
Qed.





End Pages.









Example extract_text_then_scan :
  outcome_of (ResumeOcrGpu.extract_text_from_pdf Inputs.text_then_scan
                (lit "a.pdf"))
    = Done (lit "Hello world." ++ [LF; LF] ++ lit "Scanned content.")
  /\ outcome_of (Resumes.extract_text_from_pdf Inputs.text_then_scan
                   (lit "a.pdf"))
     = Done (lit "Hello world." ++ [LF; LF] ++ lit "Scanned content.").
Proof. split; reflexivity. Qed.

(** C7 (as the code has it).  In [resume_ocr_gpu.py] an exception of the
    OCR engine on a page is caught: the page adds nothing to the text, and
    the loop, hence [extract_text_from_pdf], goes on with the pages after
    it.  In [resumes.py] there is no handler: the exception of the OCR
    engine leaves the loop and [extract_text_from_pdf] as soon as the pages
    before have been read. *)
Theorem ocr_failure_policy (e : env) (before after : list page) (p : page)
    (ex : exn) :
  truthy (strip (get_text p)) = false ->
  (readtext e (get_pixmap p 300) = Raises ex ->
   forall n acc,
     ResumeOcrGpu.pages_loop e n (before ++ p :: after) acc
     = (acc1 <- ResumeOcrGpu.pages_loop e n before acc ;;
        prepend [EvPixmap (n + Z.of_nat (length before)) 300;
                 EvOcr (n + Z.of_nat (length before))]
          (ResumeOcrGpu.pages_loop e (n + Z.of_nat (length before) + 1)
             after acc1)))
  /\ (readtext e (get_pixmap p 300) = Raises ex ->
      forall pdf_path,
        isfile e pdf_path = true ->
        fitz_open e pdf_path = Returns (before ++ p :: after) ->
        ResumeOcrGpu.extract_text_from_pdf e pdf_path
        = (acc1 <- ResumeOcrGpu.pages_loop e 1 before [] ;;
           prepend [EvPixmap (1 + Z.of_nat (length before)) 300;
                    EvOcr (1 + Z.of_nat (length before))]
             (full_text <- ResumeOcrGpu.pages_loop e
                             (1 + Z.of_nat (length before) + 1) after acc1 ;;
              ret (join [LF; LF] full_text))))
  /\ (image_to_string e (get_pixmap p 300) = Raises ex ->
      forall n acc acc1,
        outcome_of (Resumes.pages_loop e n before acc) = Done acc1 ->
        outcome_of (Resumes.pages_loop e n (before ++ p :: after) acc)
        = Raised ex)
  /\ (image_to_string e (get_pixmap p 300) = Raises ex ->
      forall pdf_path acc1,
        fitz_open e pdf_path = Returns (before ++ p :: after) ->
        outcome_of (Resumes.pages_loop e 1 before []) = Done acc1 ->
        outcome_of (Resumes.extract_text_from_pdf e pdf_path) = Raised ex).
Proof.
  intros Hp.
  assert (Hstrict : image_to_string e (get_pixmap p 300) = Raises ex ->
      forall n acc acc1,
        outcome_of (Resumes.pages_loop e n before acc) = Done acc1 ->
        outcome_of (Resumes.pages_loop e n (before ++ p :: after) acc)
        = Raised ex).
  { intros Hocr n acc acc1 Hbefore.
    rewrite strict_pages_app, (outcome_bind_done _ _ _ Hbefore).
    rewrite strict_page, Hp, Hocr. reflexivity. }
  assert (Hlenient : readtext e (get_pixmap p 300) = Raises ex ->
      forall n acc,
        ResumeOcrGpu.pages_loop e n (before ++ p :: after) acc
        = (acc1 <- ResumeOcrGpu.pages_loop e n before acc ;;
           prepend [EvPixmap (n + Z.of_nat (length before)) 300;
                    EvOcr (n + Z.of_nat (length before))]
             (ResumeOcrGpu.pages_loop e (n + Z.of_nat (length before) + 1)
                after acc1))).
  { intros Hocr n acc. rewrite lenient_pages_app. apply bind_ext.
    intros acc1. rewrite lenient_page, Hp, Hocr. reflexivity. }
  split; [exact Hlenient | split; [|split]].
  - intros Hocr pdf_path Hfile Hopen.
    unfold ResumeOcrGpu.extract_text_from_pdf.
    rewrite Hfile, Hopen. cbn [negb].
    rewrite (Hlenient Hocr 1 []), bind_assoc. apply bind_ext.
    intros acc1. apply bind_prepend.
  - exact Hstrict.
  - intros Hocr pdf_path acc1 Hopen Hbefore.
    unfold Resumes.extract_text_from_pdf. rewrite Hopen.
    unfold pure_call. rewrite bind_done, outcome_prepend.
    pose proof (Hstrict Hocr 1 [] acc1 Hbefore) as H.
    destruct (Resumes.pages_loop e 1 (before ++ p :: after) [])
      as [t r]. cbn [outcome_of snd] in H. subst r. reflexivity.
Qed.

Lemma ocr_failure_policy_witness :
  outcome_of (ResumeOcrGpu.extract_text_from_pdf Inputs.ocr_down (lit "a.pdf"))
    = Done Inputs.hello
  /\ outcome_of
       (Resumes.pages_loop Inputs.ocr_down 1
          ([] ++ Inputs.scanned_page :: [Inputs.text_page Inputs.hello]) [])
     = Raised OCRError.
Proof.
  pose proof (ocr_failure_policy Inputs.ocr_down []
                [Inputs.text_page Inputs.hello] Inputs.scanned_page OCRError
                eq_refl) as [_ [Hextract [Hstrict _]]].
  split.
  - rewrite (Hextract eq_refl (lit "a.pdf") eq_refl eq_refl). reflexivity.
  - exact (Hstrict eq_refl 1 [] [] eq_refl).
Defined.

(** Stated for both scripts, the handling of OCR failures does not hold
    of [resumes.py]: with an OCR engine
    that raises, a scanned page followed by a page with embedded text makes
    [extract_text_from_pdf] raise instead of returning the text of the
    second page. *)
Lemma ocr_failure_aborts_strict_extraction :
  Resumes.extract_text_from_pdf Inputs.ocr_down (lit "a.pdf")
    = ([EvPixmap 1 300; EvOcr 1], Raised OCRError)
  /\ outcome_of (Resumes.extract_text_from_pdf Inputs.ocr_down (lit "a.pdf"))
     <> Done Inputs.hello.
Proof. split; [reflexivity | discriminate]. Qed.

(* ================================================================== *)
(** * Summaries and their synthesis *)
(* ================================================================== *)

(** The lenient [summarize_chunk], case by case. *)
Lemma lenient_summarize_cases (e : env) (chunk model : str) :
  ResumeOcrGpu.summarize_chunk e chunk model =
  ([EvChat model (ResumeOcrGpu.summarize_messages chunk)],
   Done match ollama_chat e model (ResumeOcrGpu.summarize_messages chunk) with
        | Raises _ => []
        | Returns resp =>
            match message_content resp with
            | Some c => strip c
            | None => []
            end
        end).
Proof.
  unfold ResumeOcrGpu.summarize_chunk.
  destruct (ollama_chat e model (ResumeOcrGpu.summarize_messages chunk))
    as [resp|ex]; [|reflexivity].
  rewrite bind_call_returns. unfold content_of.
  destruct (message_content resp); reflexivity.
Qed.

(** The strict [summarize_chunk], case by case. *)
Lemma strict_summarize_cases (e : env) (chunk model : str) :
  Resumes.summarize_chunk e chunk model =
  ([EvChat model (Resumes.summarize_messages chunk)],
   match ollama_chat e model (Resumes.summarize_messages chunk) with
   | Raises ex => Raised ex
   | Returns resp =>
       match message_content resp with
       | Some c => Done (strip c)
       | None => Raised KeyError
       end
   end).
Proof.
  unfold Resumes.summarize_chunk.
  destruct (ollama_chat e model (Resumes.summarize_messages chunk))
    as [resp|ex]; [|reflexivity].
  rewrite bind_call_returns. unfold content_of.
  destruct (message_content resp); reflexivity.
Qed.

Lemma lenient_synthesize_cases (e : env) (summaries : list str) (model : str) :
  ResumeOcrGpu.synthesize_summaries e summaries model =
  ([EvChat model (ResumeOcrGpu.synthesize_messages summaries)],
   Done match ollama_chat e model
                (ResumeOcrGpu.synthesize_messages summaries) with
        | Raises _ => []
        | Returns resp =>
            match message_content resp with
            | Some c => strip c
            | None => []
            end
        end).
Proof.
  unfold ResumeOcrGpu.synthesize_summaries.
  destruct (ollama_chat e model (ResumeOcrGpu.synthesize_messages summaries))
    as [resp|ex]; [|reflexivity].
  rewrite bind_call_returns. unfold content_of.
  destruct (message_content resp); reflexivity.
Qed.

(** The loop over the chunks of the lenient script always returns, with
    one summary more for every chunk. *)
Lemma lenient_summaries_return (e : env) (model : str) (chunks : list str) :
  forall summaries, exists added,
    outcome_of (ResumeOcrGpu.summaries_loop e model chunks summaries)
    = Done (summaries ++ added)
    /\ length added = length chunks.
Proof.
  induction chunks as [|chunk chunks IH]; intros summaries.
  - exists []. rewrite app_nil_r. split; reflexivity.
  - cbn [ResumeOcrGpu.summaries_loop].
    rewrite lenient_summarize_cases, bind_done, outcome_prepend.
    destruct (IH (summaries ++ [
      match ollama_chat e model (ResumeOcrGpu.summarize_messages chunk) with
      | Raises _ => []
      | Returns resp =>
          match message_content resp with
          | Some c => strip c
          | None => []
          end
      end])) as [added [H Hlen]].
    eexists (_ :: added). rewrite H, <- app_assoc. split; [reflexivity|].
    simpl. rewrite Hlen. reflexivity.
Qed.

(** Once extraction has returned, no exception leaves [main] of the
    lenient script. *)
Lemma lenient_main_never_raises (fuel : nat) (e : env)
    (pdf_path output_path model text : str) (ex : exn) :
  outcome_of (ResumeOcrGpu.extract_text_from_pdf e pdf_path) = Done text ->
  outcome_of (ResumeOcrGpu.main fuel e pdf_path output_path model)
  <> Raised ex.
Proof.
  intros Htext. unfold ResumeOcrGpu.main.
  rewrite (outcome_bind_done _ _ _ Htext).
  destruct (truthy text); cbn [negb]; [|discriminate].
  destruct (ResumeOcrGpu.chunk_text fuel text 4000) as [chunks|];
    cbn [of_fuel]; [|discriminate].
  rewrite bind_ret_l.
  destruct (lenient_summaries_return e model chunks []) as [added [Hs _]].
  rewrite (outcome_bind_done _ _ _ Hs).
  rewrite lenient_synthesize_cases, bind_done, outcome_prepend.
  apply try_except_never_raises.
Qed.

(** C6 (as the code has it).  [summarize_chunk] of [resume_ocr_gpu.py]
    catches every error of the chat service, a failed call as well as an
    answer without content, and returns the empty string; no exception
    leaves it, and once extraction has returned none leaves [main], so a
    failed summary does not abort the run of the single-document script.
    [summarize_chunk] of [resumes.py] has no handler: the error of the
    service, or the failed lookup in its answer, is raised to the
    caller. *)
Theorem summarize_chunk_failure_policy (e : env) (chunk model : str) :
  (forall ex,
     ollama_chat e model (ResumeOcrGpu.summarize_messages chunk) = Raises ex ->
     outcome_of (ResumeOcrGpu.summarize_chunk e chunk model) = Done [])
  /\ (forall resp,
        ollama_chat e model (ResumeOcrGpu.summarize_messages chunk)
        = Returns resp ->
        message_content resp = None ->
        outcome_of (ResumeOcrGpu.summarize_chunk e chunk model) = Done [])
  /\ (forall ex,
        outcome_of (ResumeOcrGpu.summarize_chunk e chunk model) <> Raised ex)
  /\ (forall fuel pdf_path output_path text ex,
        outcome_of (ResumeOcrGpu.extract_text_from_pdf e pdf_path)
        = Done text ->
        outcome_of (ResumeOcrGpu.main fuel e pdf_path output_path model)
        <> Raised ex)
  /\ (forall ex,
        ollama_chat e model (Resumes.summarize_messages chunk) = Raises ex ->
        outcome_of (Resumes.summarize_chunk e chunk model) = Raised ex)
  /\ (forall resp,
        ollama_chat e model (Resumes.summarize_messages chunk) = Returns resp ->
        message_content resp = None ->
        outcome_of (Resumes.summarize_chunk e chunk model) = Raised KeyError).
Proof.
  repeat split.
  - intros ex H. rewrite lenient_summarize_cases, H. reflexivity.
  - intros resp H Hc. rewrite lenient_summarize_cases, H, Hc. reflexivity.
  - intros ex. rewrite lenient_summarize_cases. discriminate.
  - intros fuel pdf_path output_path text ex Htext.
    exact (lenient_main_never_raises fuel e pdf_path output_path model text
             ex Htext).
  - intros ex H. rewrite strict_summarize_cases, H. reflexivity.
  - intros resp H Hc. rewrite strict_summarize_cases, H, Hc. reflexivity.
Qed.

Lemma summarize_chunk_failure_policy_witness :
  outcome_of (ResumeOcrGpu.summarize_chunk Inputs.llm_down Inputs.hello
                (lit "gemma3:12b")) = Done []
  /\ outcome_of (ResumeOcrGpu.summarize_chunk Inputs.llm_malformed Inputs.hello
                   (lit "gemma3:12b")) = Done []
  /\ outcome_of (Resumes.summarize_chunk Inputs.llm_malformed Inputs.hello
                   Resumes.default_model) = Raised KeyError.
Proof.
  split; [|split].
  - exact (proj1 (summarize_chunk_failure_policy Inputs.llm_down Inputs.hello
                    (lit "gemma3:12b")) TimeoutError eq_refl).
  - exact (proj1 (proj2 (summarize_chunk_failure_policy Inputs.llm_malformed
                           Inputs.hello (lit "gemma3:12b")))
             {| message_content := None |} eq_refl eq_refl).
  - exact (proj2 (proj2 (proj2 (proj2 (proj2
             (summarize_chunk_failure_policy Inputs.llm_malformed
                Inputs.hello Resumes.default_model)))))
             {| message_content := None |} eq_refl eq_refl).
Defined.

(** Stated for both scripts, the handling of a failed summary does not
    hold of [resumes.py]: when the chat service times out,
    [summarize_chunk] raises instead of returning the empty string, and the
    exception ends [main] before anything is written. *)
Lemma summarize_failure_aborts_strict_run :
  outcome_of (Resumes.summarize_chunk Inputs.llm_down Inputs.hello
                Resumes.default_model) = Raised TimeoutError
  /\ outcome_of (Resumes.summarize_chunk Inputs.llm_down Inputs.hello
                   Resumes.default_model) <> Done []
  /\ outcome_of (Resumes.main 5 Inputs.llm_down) = Raised TimeoutError
  /\ filter is_write (trace (Resumes.main 5 Inputs.llm_down)) = [].
Proof.
  split; [reflexivity|]. split; [discriminate|].
  split; vm_compute; reflexivity.
Qed.

(** C8 (as the code has it).  [synthesize_summaries] of
    [resume_ocr_gpu.py] drops the empty summaries before joining: the text
    put into the prompt is made of the non-empty summaries only, each after
    ["- "], in their order, and the request sent is the one that the
    non-empty summaries alone would give.  [synthesize_summaries_single] of
    [resumes.py] joins all the summaries it is given, in their order, the
    empty ones too: an empty summary between two others leaves two
    separators in a row. *)
Theorem synthesis_input_filtering (e : env) (model : str)
    (summaries before after : list str) :
  ResumeOcrGpu.synthesize_prompt summaries
    = ResumeOcrGpu.synthesize_prompt []
      ++ join [LF; LF]
           (map (fun s => lit "- " ++ s) (filter truthy summaries))
  /\ Forall (fun s => s <> []) (filter truthy summaries)
  /\ ResumeOcrGpu.synthesize_summaries e summaries model
     = ResumeOcrGpu.synthesize_summaries e (filter truthy summaries) model
  /\ ResumeOcrGpu.synthesize_joined (before ++ [] :: after)
     = ResumeOcrGpu.synthesize_joined (before ++ after)
  /\ Resumes.synthesize_single_prompt summaries
     = Resumes.synthesize_single_prompt [] ++ join [LF; LF] summaries
  /\ (before <> [] -> after <> [] ->
      Resumes.synthesize_single_joined (before ++ [] :: after)
      = Resumes.synthesize_single_joined before
        ++ [LF; LF] ++ [LF; LF]
        ++ Resumes.synthesize_single_joined after).
Proof.
  assert (Hff : forall l : list str,
             filter truthy (filter truthy l) = filter truthy l).
  { induction l as [|s l IH]; [reflexivity|]. simpl.
    destruct (truthy s) eqn:E; simpl; rewrite ?E, IH; reflexivity. }
  assert (Hjoin : forall (l l' : list str) (sep : str),
             l <> [] -> l' <> [] ->
             join sep (l ++ l') = join sep l ++ sep ++ join sep l').
  { induction l as [|s l IH]; intros l' sep Hl Hl'; [contradiction|].
    destruct l as [|s' l].
    - destruct l' as [|x l']; [contradiction|]. reflexivity.
    - change (join sep ((s :: s' :: l) ++ l'))
        with (s ++ sep ++ join sep ((s' :: l) ++ l')).
      rewrite IH by (assumption || discriminate).
      change (join sep (s :: s' :: l)) with (s ++ sep ++ join sep (s' :: l)).
      rewrite <- !app_assoc. reflexivity. }
  refine (conj _ (conj _ (conj _ (conj _ (conj _ _))))).
  - unfold ResumeOcrGpu.synthesize_prompt, ResumeOcrGpu.synthesize_joined.
    cbn [filter map join]. rewrite app_nil_r, <- !app_assoc. reflexivity.
  - apply Forall_forall. intros s Hs. apply filter_In in Hs.
    destruct Hs as [_ Hs]. destruct s; [discriminate | discriminate].
  - unfold ResumeOcrGpu.synthesize_summaries,
      ResumeOcrGpu.synthesize_messages, ResumeOcrGpu.synthesize_prompt,
      ResumeOcrGpu.synthesize_joined.
    rewrite Hff. reflexivity.
  - unfold ResumeOcrGpu.synthesize_joined.
    rewrite !filter_app. reflexivity.
  - unfold Resumes.synthesize_single_prompt, Resumes.synthesize_single_joined.
    cbn [join]. rewrite app_nil_r, <- !app_assoc. reflexivity.
  - intros Hb Ha. unfold Resumes.synthesize_single_joined.
    rewrite Hjoin by (assumption || discriminate).
    destruct after as [|x after]; [contradiction|]. reflexivity.
Qed.

Lemma synthesis_input_filtering_witness :
  Resumes.synthesize_single_joined ([lit "a"] ++ [] :: [lit "b"])
  = Resumes.synthesize_single_joined [lit "a"]
    ++ [LF; LF] ++ [LF; LF] ++ Resumes.synthesize_single_joined [lit "b"].
Proof.
  apply (proj2 (proj2 (proj2 (proj2 (proj2
           (synthesis_input_filtering Inputs.llm_down (lit "m")
              Inputs.gappy_summaries [lit "a"] [lit "b"])))))).
  - discriminate.
  - discriminate.
Defined.

(** Stated for both scripts, the filtering of empty summaries does not
    hold of [resumes.py]: for the summaries ["a"], [""], ["b"] the text put
    into the prompt of [synthesize_summaries_single] is ["a\n\n\n\nb"], not
    the join ["a\n\nb"] of the non-empty ones. *)
Lemma strict_synthesis_keeps_empty_summaries :
  Resumes.synthesize_single_joined Inputs.gappy_summaries
    = lit "a" ++ [LF; LF; LF; LF] ++ lit "b"
  /\ Resumes.synthesize_single_joined (filter truthy Inputs.gappy_summaries)
     = lit "a" ++ [LF; LF] ++ lit "b"
  /\ Resumes.synthesize_single_joined Inputs.gappy_summaries
     <> Resumes.synthesize_single_joined (filter truthy Inputs.gappy_summaries).
Proof.
  split; [reflexivity|]. split; [reflexivity | discriminate].
Qed.

(* ================================================================== *)
(** * The single-document run *)
(* ================================================================== *)

(** When extraction gives a non-empty text and the chunking loop returns,
    [main] ends with a call that writes the final synthesis, whatever the
    chat service did. *)
Lemma lenient_main_writes (fuel : nat) (e : env)
    (pdf_path output_path model text : str) (chunks : list str) :
  outcome_of (ResumeOcrGpu.extract_text_from_pdf e pdf_path) = Done text ->
  truthy text = true ->
  ResumeOcrGpu.chunk_text fuel text 4000 = Some chunks ->
  exists summaries final_summary,
    outcome_of (ResumeOcrGpu.summaries_loop e model chunks []) = Done summaries
    /\ outcome_of (ResumeOcrGpu.synthesize_summaries e summaries model)
       = Done final_summary
    /\ In (EvWrite output_path final_summary)
         (trace (ResumeOcrGpu.main fuel e pdf_path output_path model))
    /\ outcome_of (ResumeOcrGpu.main fuel e pdf_path output_path model)
       = Done tt.
Proof.
  intros Htext Htruthy Hchunks.
  destruct (lenient_summaries_return e model chunks []) as [summaries [Hs _]].
  cbn [app] in Hs.
  exists summaries.
  eexists. split; [exact Hs|].
  split; [rewrite lenient_synthesize_cases; reflexivity|].
  unfold ResumeOcrGpu.main.
  destruct (ResumeOcrGpu.extract_text_from_pdf e pdf_path) as [t0 r0].
  cbn [outcome_of snd] in Htext. subst r0.
  rewrite bind_done, Htruthy, Hchunks. cbn [negb of_fuel].
  rewrite bind_ret_l.
  destruct (ResumeOcrGpu.summaries_loop e model chunks []) as [t1 r1].
  cbn [outcome_of snd] in Hs. subst r1.
  rewrite bind_done, lenient_synthesize_cases, bind_done.
  unfold trace, outcome_of, prepend, call, try_except.
  destruct (write_text e output_path _) as [[]|ex]; cbn [fst snd ret].
  - split; [|reflexivity].
    apply in_or_app; right. apply in_or_app; right.
    apply in_or_app; right. left; reflexivity.
  - split; [|reflexivity].
    apply in_or_app; right. apply in_or_app; right.
    apply in_or_app; right. apply in_or_app; left. left; reflexivity.
Qed.

(** With a chat service that fails on every request the file written is
    empty. *)
Lemma lenient_main_writes_empty (fuel : nat) (e : env)
    (pdf_path output_path model text : str) (chunks : list str) :
  (forall m msgs, exists ex, ollama_chat e m msgs = Raises ex) ->
  outcome_of (ResumeOcrGpu.extract_text_from_pdf e pdf_path) = Done text ->
  truthy text = true ->
  ResumeOcrGpu.chunk_text fuel text 4000 = Some chunks ->
  In (EvWrite output_path [])
    (trace (ResumeOcrGpu.main fuel e pdf_path output_path model)).
Proof.
  intros Hdown Htext Htruthy Hchunks.
  destruct (lenient_main_writes fuel e pdf_path output_path model text chunks
              Htext Htruthy Hchunks)
    as [summaries [final_summary [_ [Hfinal [Hin _]]]]].
  rewrite lenient_synthesize_cases in Hfinal.
  destruct (Hdown model (ResumeOcrGpu.synthesize_messages summaries))
    as [ex Hex].
  rewrite Hex in Hfinal. cbn [outcome_of snd] in Hfinal.
  inversion Hfinal; subst. exact Hin.
Qed.

Example main_writes_empty_file_on_llm_failure :
  outcome_of (ResumeOcrGpu.main 2 Inputs.llm_down (lit "almeida.pdf")
                (lit "resumo_gpu.md") (lit "gemma3:12b")) = Done tt
  /\ filter is_write
       (trace (ResumeOcrGpu.main 2 Inputs.llm_down (lit "almeida.pdf")
                 (lit "resumo_gpu.md") (lit "gemma3:12b")))
     = [EvWrite (lit "resumo_gpu.md") []].
Proof. split; vm_compute; reflexivity. Qed.

(** C9 (as a defect of the code).  A non-empty extracted text does not
    always lead [main] to the write: the chunking loop has to return first.
    For a PDF of two pages with the embedded texts ["a"] and 5000 times
    ["b"], extraction gives ["a\n\n"] followed by the 5000 characters,
    [chunk_text(text, 4000)] cuts at the paragraph break and then stays
    there, and [main] makes no call at all after extraction, for any amount
    of fuel. *)
Theorem main_stuck_before_write :
  ResumeOcrGpu.extract_text_from_pdf Inputs.long_paragraph_pdf
    (lit "almeida.pdf")
  = ([], Done Inputs.long_paragraph_text)
  /\ truthy Inputs.long_paragraph_text = true
  /\ (forall fuel,
        ResumeOcrGpu.chunk_text fuel Inputs.long_paragraph_text 4000 = None)
  /\ (forall fuel,
        ResumeOcrGpu.main fuel Inputs.long_paragraph_pdf
          (lit "almeida.pdf") (lit "resumo_gpu.md") (lit "gemma3:12b")
        = ([], OutOfFuel)).
Proof.
  assert (Hx : ResumeOcrGpu.extract_text_from_pdf Inputs.long_paragraph_pdf
                 (lit "almeida.pdf")
               = ([], Done Inputs.long_paragraph_text)).
  { vm_compute. reflexivity. }
  assert (Hc : forall fuel,
             ResumeOcrGpu.chunk_text fuel Inputs.long_paragraph_text 4000
             = None).
  { intros [|fuel]; [vm_compute; reflexivity|].
    unfold ResumeOcrGpu.chunk_text, Chunker.chunk_from_start.
    assert (H0 : Chunker.chunk_body Inputs.long_paragraph_text 4000 (0, [])
                 = (1, [lit "a"])) by (vm_compute; reflexivity).
    assert (H1 : Chunker.chunk_body Inputs.long_paragraph_text 4000
                   (1, [lit "a"]) = (1, [lit "a"]))
      by (vm_compute; reflexivity).
    assert (Hlt : (0 <? len Inputs.long_paragraph_text) = true)
      by (vm_compute; reflexivity).
    cbn [Chunker.chunk_loop fst]. rewrite Hlt, H0.
    apply chunk_loop_stuck; [exact H1 | vm_compute; reflexivity]. }
  split; [exact Hx|]. split; [reflexivity|]. split; [exact Hc|].
  intros fuel. unfold ResumeOcrGpu.main. rewrite Hx.
  change (([] : list event), Done Inputs.long_paragraph_text)
    with (ret Inputs.long_paragraph_text).
  rewrite bind_ret_l.
  change (truthy Inputs.long_paragraph_text) with true.
  cbn [negb]. rewrite Hc. reflexivity.
Qed.

(* ================================================================== *)
(** * The directory run: which files are taken and how they are keyed *)
(* ================================================================== *)

Lemma startswith_iff (s sub : str) :
  startswith s sub = true <-> exists r, s = sub ++ r.
Proof.
  revert s; induction sub as [|x sub IH]; intros s.
  - split; [intros _; exists s; reflexivity | destruct s; reflexivity].
  - destruct s as [|y s]; cbn [startswith].
    + split; [discriminate | intros [r H]; discriminate].
    + rewrite andb_true_iff, Z.eqb_eq, IH. split.
      * intros [-> [r ->]]. exists r; reflexivity.
      * intros [r H]. inversion H; subst. split; [reflexivity|].
        exists r; reflexivity.
Qed.

Lemma endswith_iff (s sub : str) :
  endswith s sub = true <-> exists p, s = p ++ sub.
Proof.
  unfold endswith. rewrite startswith_iff. split.
  - intros [r H]. exists (rev r).
    rewrite <- (rev_involutive s), H, rev_app_distr, rev_involutive.
    reflexivity.
  - intros [p ->]. exists (rev p). apply rev_app_distr.
Qed.

Lemma is_pdf_name_iff (fname : str) :
  Resumes.is_pdf_name fname = true
  <-> exists stem ext, fname = stem ++ ext /\ lower ext = lit ".pdf".
Proof.
  unfold Resumes.is_pdf_name. rewrite endswith_iff. split.
  - intros [p H]. unfold lower in H. apply map_eq_app in H.
    destruct H as [stem [ext [Hf [_ He]]]]. exists stem, ext. auto.
  - intros [stem [ext [-> He]]]. exists (lower stem).
    unfold lower in *. rewrite map_app, He. reflexivity.
Qed.

Lemma str_eqb_eq (a b : str) : str_eqb a b = true <-> a = b.
Proof.
  revert b; induction a as [|x a IH]; intros [|y b]; cbn [str_eqb];
    try (split; [discriminate | discriminate]); [tauto|].
  rewrite andb_true_iff, Z.eqb_eq, IH. split.
  - intros [-> ->]; reflexivity.
  - intros H; inversion H; auto.
Qed.

Lemma dict_set_keys (d : dict) (k v key : str) :
  In key (dict_keys (dict_set d k v)) <-> In key (dict_keys d) \/ key = k.
Proof.
  induction d as [|[k' v'] d IH]; cbn [dict_set dict_keys map fst In].
  - split; [intros [H|[]]; auto | intros [[]|H]; auto].
  - destruct (str_eqb k' k) eqn:E; cbn [dict_keys map fst In].
    + apply str_eqb_eq in E. subst k'. intuition congruence.
    + fold (dict_keys (dict_set d k v)). fold (dict_keys d).
      intuition congruence.
Qed.

Lemma insert_sorted_In (x y : str) (l : list str) :
  In y (insert_sorted x l) <-> y = x \/ In y l.
Proof.
  induction l as [|z l IH]; cbn [insert_sorted In].
  - split; [intros [H|[]]; auto | intros [H|[]]; auto].
  - destruct (str_leb x z); cbn [In]; [|rewrite IH]; intuition congruence.
Qed.

Lemma sorted_In (y : str) (l : list str) : In y (sorted l) <-> In y l.
Proof.
  unfold sorted. induction l as [|x l IH]; cbn [fold_right In]; [tauto|].
  rewrite insert_sorted_In, IH. intuition congruence.
Qed.

Lemma outcome_bind_done_inv {A B : Type} (m : M A) (f : A -> M B) (b : B) :
  outcome_of (bind m f) = Done b ->
  exists a, outcome_of m = Done a /\ outcome_of (f a) = Done b.
Proof.
  destruct m as [t [a|ex|]]; try discriminate.
  rewrite bind_done, outcome_prepend. intros H. exists a. auto.
Qed.

(** The keys of the dictionary that the loop returns: those it started
    with, and the titles of the files it summarised. *)
Lemma papers_loop_keys (fuel : nat) (e : env) (directory model : str)
    (fnames : list str) :
  forall d d',
    outcome_of (Resumes.papers_loop fuel e directory model fnames d)
    = Done d' ->
    forall key,
      In key (dict_keys d')
      <-> In key (dict_keys d)
          \/ exists fname,
               summarised e directory fnames fname
               /\ key = Resumes.title_of fname.
Proof.
  induction fnames as [|f rest IH]; intros d d' Hrun key.
  - cbn in Hrun. inversion Hrun; subst. split; [auto|].
    intros [H|[fname [[[] _] _]]]; exact H.
  - cbn [Resumes.papers_loop] in Hrun.
    assert (Hweak : forall k',
               (exists fname, summarised e directory rest fname
                              /\ k' = Resumes.title_of fname) ->
               exists fname, summarised e directory (f :: rest) fname
                             /\ k' = Resumes.title_of fname).
    { intros k' [fname [[Hin Hrest] Hk]]. exists fname.
      split; [split; [right; exact Hin | exact Hrest] | exact Hk]. }
    destruct (Resumes.is_pdf_name f) eqn:Hsel.
    + apply outcome_bind_done_inv in Hrun.
      destruct Hrun as [text [Htext Hrun]].
      destruct (truthy text) eqn:Htruthy; cbn [negb] in Hrun.
      * apply outcome_bind_done_inv in Hrun.
        destruct Hrun as [chunks [_ Hrun]].
        apply outcome_bind_done_inv in Hrun.
        destruct Hrun as [parts [_ Hrun]].
        apply outcome_bind_done_inv in Hrun.
        destruct Hrun as [summary [_ Hrun]].
        rewrite (IH _ _ Hrun key), dict_set_keys. split.
        -- intros [[H|H]|H]; [left; exact H | | right; apply Hweak; exact H].
           right. exists f. split; [|exact H].
           split; [left; reflexivity|]. split; [exact Hsel|].
           exists text. auto.
        -- intros [H|[fname [[[Hin|Hin] Hrest] Hk]]]; [tauto | |].
           ++ subst fname. left; right; exact Hk.
           ++ right. exists fname. split; [split; assumption | exact Hk].
      * rewrite (IH _ _ Hrun key). split.
        -- intros [H|H]; [left; exact H | right; apply Hweak; exact H].
        -- intros [H|[fname [[[Hin|Hin] Hrest] Hk]]]; [tauto | |].
           ++ subst fname. destruct Hrest as [_ [text' [Ht' Htr']]].
              rewrite Htext in Ht'. inversion Ht'; subst. congruence.
           ++ right. exists fname. split; [split; assumption | exact Hk].
    + rewrite (IH _ _ Hrun key). split.
      * intros [H|H]; [left; exact H | right; apply Hweak; exact H].
      * intros [H|[fname [[[Hin|Hin] Hrest] Hk]]]; [tauto | |].
        -- subst fname. destruct Hrest as [Hsel' _]. congruence.
        -- right. exists fname. split; [split; assumption | exact Hk].
Qed.

Lemma replace_before_dot (old new stem rest : str) (c : char) :
  ~ In c stem ->
  replace_from (c :: old) new 0 (stem ++ rest)
  = stem ++ replace_from (c :: old) new 0 rest.
Proof.
  intros Hc. induction stem as [|x stem IH]; [reflexivity|].
  cbn [app replace_from startswith].
  destruct (c =? x) eqn:E.
  - apply Z.eqb_eq in E. subst x. exfalso. apply Hc. left; reflexivity.
  - cbn [andb]. rewrite IH; [reflexivity|].
    intros H. apply Hc. right; exact H.
Qed.

Lemma replace_absent (old new s : str) :
  (forall i, startswith (skipn i s) old = false) ->
  replace s old new = s.
Proof.
  unfold replace. induction s as [|c s IH]; intros H; [reflexivity|].
  cbn [replace_from]. rewrite (H 0%nat : startswith (c :: s) old = false).
  rewrite IH; [reflexivity|]. intros i. apply (H (S i)).
Qed.

(** C10.  [process_papers] takes the files whose name, lowered, ends in
    [".pdf"], that is the names ending in [".pdf"] in any mix of cases, and
    keys each summarised file by its name with the occurrences of the
    lower-case [".pdf"] removed.  So a name without a lower-case [".pdf"] is
    its own key, ["X.PDF"] is taken and keyed ["X.PDF"], and a [".pdf"]
    inside a name goes away: the key of ["a.pdf.b.pdf"] is ["a.b"]. *)
Theorem process_papers_selection_and_titles :
  (forall fname,
     Resumes.is_pdf_name fname = true
     <-> exists stem ext, fname = stem ++ ext /\ lower ext = lit ".pdf")
  /\ (forall fuel e directory model names summaries,
        listdir e directory = Returns names ->
        outcome_of (Resumes.process_papers fuel e directory model)
        = Done summaries ->
        forall key,
          In key (dict_keys summaries)
          <-> exists fname,
                summarised e directory names fname
                /\ key = replace fname (lit ".pdf") [])
  /\ (forall stem rest,
        ~ In 46 stem ->
        Resumes.title_of (stem ++ lit ".pdf" ++ rest)
        = stem ++ Resumes.title_of rest)
  /\ (forall fname,
        (forall i, startswith (skipn i fname) (lit ".pdf") = false) ->
        Resumes.title_of fname = fname)
  /\ Resumes.is_pdf_name (lit "X.PDF") = true
  /\ Resumes.title_of (lit "X.PDF") = lit "X.PDF"
  /\ Resumes.title_of (lit "a.pdf.b.pdf") = lit "a.b"
  /\ outcome_of (Resumes.process_papers 5 Inputs.papers_dir (lit "papers")
                   Resumes.default_model)
     = Done [(lit "X.PDF", lit "ok"); (lit "a.b", lit "ok")].
Proof.
  refine (conj is_pdf_name_iff (conj _ (conj _ (conj _ (conj _ (conj _
            (conj _ _))))))).
  - intros fuel e directory model names summaries Hls Hrun key.
    unfold Resumes.process_papers in Hrun. rewrite Hls in Hrun.
    unfold pure_call in Hrun. rewrite bind_done, outcome_prepend in Hrun.
    rewrite (papers_loop_keys _ _ _ _ _ _ _ Hrun key). split.
    + intros [[]|[fname [[Hin Hrest] Hk]]]. exists fname.
      split; [split; [apply sorted_In; exact Hin | exact Hrest] | exact Hk].
    + intros [fname [[Hin Hrest] Hk]]. right. exists fname.
      split; [split; [apply sorted_In; exact Hin | exact Hrest] | exact Hk].
  - intros stem rest Hdot. unfold Resumes.title_of, replace.
    change (lit ".pdf") with [46; 112; 100; 102].
    rewrite replace_before_dot by exact Hdot. reflexivity.
  - intros fname H. apply replace_absent. exact H.
  - reflexivity.
  - reflexivity.
  - reflexivity.
  - vm_compute. reflexivity.
Qed.

Lemma process_papers_selection_and_titles_witness :
  In (lit "a.b")
     (dict_keys [(lit "X.PDF", lit "ok"); (lit "a.b", lit "ok")])
  <-> exists fname,
        summarised Inputs.papers_dir (lit "papers")
          [lit "notes.txt"; lit "a.pdf.b.pdf"; lit "X.PDF"] fname
        /\ lit "a.b" = replace fname (lit ".pdf") [].
Proof.
  apply (proj1 (proj2 process_papers_selection_and_titles)
           5%nat Inputs.papers_dir (lit "papers") Resumes.default_model
           [lit "notes.txt"; lit "a.pdf.b.pdf"; lit "X.PDF"]
           [(lit "X.PDF", lit "ok"); (lit "a.b", lit "ok")]).
  - reflexivity.
  - vm_compute. reflexivity.
Defined.

(* ================================================================== *)
(** * Trimmed strings *)
(* ================================================================== *)

Lemma lstrip_length (s : str) : (length (lstrip s) <= length s)%nat.
Proof.
  induction s as [|c s IH]; simpl; [lia|].
  destruct (isspace c); simpl; lia.
Qed.

Lemma lstrip_fixed (s : str) :
  lstrip s = s <-> s = [] \/ exists c r, s = c :: r /\ isspace c = false.
Proof.
  split.
  - destruct s as [|c r]; [left; reflexivity|]. simpl.
    destruct (isspace c) eqn:Hc.
    + intros H. pose proof (lstrip_length r) as Hl. rewrite H in Hl.
      simpl in Hl. lia.
    + intros _. right. exists c, r. split; [reflexivity | exact Hc].
  - intros [->|[c [r [-> Hc]]]]; simpl; [reflexivity|].
    rewrite Hc. reflexivity.
Qed.

Lemma lstrip_lstrip (s : str) : lstrip (lstrip s) = lstrip s.
Proof.
  induction s as [|c s IH]; simpl; [reflexivity|].
  destruct (isspace c) eqn:Hc; [exact IH|]. simpl. rewrite Hc. reflexivity.
Qed.

Lemma rstrip_rstrip (s : str) : rstrip (rstrip s) = rstrip s.
Proof.
  unfold rstrip. rewrite rev_involutive, lstrip_lstrip. reflexivity.
Qed.

Lemma rstrip_fixed (s : str) : rstrip s = s <-> lstrip (rev s) = rev s.
Proof.
  unfold rstrip. split; intros H.
  - rewrite <- H at 2. rewrite rev_involutive. reflexivity.
  - rewrite H. apply rev_involutive.
Qed.

(** Trimming on the right leaves a string without leading white space
    without leading white space. *)
Lemma lstrip_rstrip (s : str) : lstrip s = s -> lstrip (rstrip s) = rstrip s.
Proof.
  intros H. destruct (rstrip_split s) as [r [Hs _]].
  apply lstrip_fixed. apply lstrip_fixed in H.
  destruct (rstrip s) as [|c u]; [left; reflexivity|]. right.
  destruct H as [H|[c' [r' [H Hc]]]]; rewrite H in Hs; simpl in Hs.
  - discriminate.
  - injection Hs as -> _. exists c, u. split; [reflexivity | exact Hc].
Qed.

Lemma strip_strip (s : str) : strip (strip s) = strip s.
Proof.
  unfold strip.
  rewrite (lstrip_rstrip (lstrip s)) by apply lstrip_lstrip.
  apply rstrip_rstrip.
Qed.

Lemma rstrip_length (s : str) : (length (rstrip s) <= length s)%nat.
Proof.
  unfold rstrip. rewrite length_rev.
  pose proof (lstrip_length (rev s)) as H. rewrite length_rev in H. exact H.
Qed.

Lemma app_same_length_nil {X : Type} (l s : list X) :
  length (l ++ s) = length s -> l = [].
Proof.
  rewrite length_app. destruct l; [reflexivity | simpl; lia].
Qed.

(** A string is its own [strip] exactly when neither end is white
    space. *)
Lemma strip_fixed (s : str) : strip s = s <-> lstrip s = s /\ rstrip s = s.
Proof.
  split.
  - intros H.
    assert (Hl : lstrip s = s).
    { destruct (lstrip_split s) as [l [Hs _]].
      assert (l = []) as ->.
      { apply (app_same_length_nil l (lstrip s)). rewrite <- Hs.
        pose proof (rstrip_length (lstrip s)) as H1.
        pose proof (lstrip_length s) as H2.
        unfold strip in H. rewrite H in H1. lia. }
      simpl in Hs. congruence. }
    split; [exact Hl|]. unfold strip in H. rewrite Hl in H. exact H.
  - intros [Hl Hr]. unfold strip. rewrite Hl. exact Hr.
Qed.

Lemma lstrip_app (a x : str) :
  a <> [] -> lstrip a = a -> lstrip (a ++ x) = a ++ x.
Proof.
  intros Ha H. apply lstrip_fixed in H.
  destruct H as [H|[c [r [-> Hc]]]]; [contradiction|].
  simpl. rewrite Hc. reflexivity.
Qed.

Lemma rstrip_app (x b : str) :
  b <> [] -> rstrip b = b -> rstrip (x ++ b) = x ++ b.
Proof.
  intros Hb H. apply rstrip_fixed in H. apply rstrip_fixed.
  rewrite rev_app_distr. apply lstrip_app; [|exact H].
  intros Hr. apply Hb. rewrite <- (rev_involutive b), Hr. reflexivity.
Qed.

Lemma clean_strip (s : str) : truthy (strip s) = true -> clean (strip s).
Proof.
  intros H. split; [|apply strip_strip].
  intros E. rewrite E in H. discriminate.
Qed.

(** Joining clean strings gives a clean string, whatever the separator. *)
Lemma clean_join (sep : str) (l : list str) :
  Forall clean l -> l <> [] -> clean (join sep l).
Proof.
  induction l as [|a l IH]; [intros _ H; contradiction|].
  intros Hall _. inversion Hall as [|? ? [Ha Hs] Hl]; subst.
  destruct l as [|b l]; [split; assumption|].
  change (join sep (a :: b :: l)) with (a ++ sep ++ join sep (b :: l)).
  destruct (IH Hl ltac:(discriminate)) as [Hj Hsj].
  apply strip_fixed in Hs. destruct Hs as [Hla Hra].
  apply strip_fixed in Hsj. destruct Hsj as [Hlj Hrj].
  split.
  - destruct a; [contradiction | discriminate].
  - apply strip_fixed. split.
    + apply lstrip_app; assumption.
    + rewrite (app_assoc a sep). apply rstrip_app; assumption.
Qed.

Lemma truthy_filter_clean (l : list str) :
  (forall s, In s l -> strip s = s) -> Forall clean (filter truthy l).
Proof.
  intros H. apply Forall_forall. intros s Hs.
  apply filter_In in Hs. destruct Hs as [Hin Ht].
  split; [destruct s; [discriminate | discriminate] | apply H; exact Hin].
Qed.

(* ================================================================== *)
(** * The chunking loop: when it returns and what it returns *)
(* ================================================================== *)

Lemma rfind_down_none (s sub : str) (b : Z) (k : nat) :
  0 <= b -> rfind_down s sub b k = -1 ->
  forall j, (j < k)%nat ->
    startswith (skipn (Z.to_nat (b + Z.of_nat j)) s) sub = false.
Proof.
  intros Hb. induction k as [|k IH]; intros H j Hj; [lia|].
  simpl in H.
  destruct (startswith (skipn (Z.to_nat (b + Z.of_nat k)) s) sub) eqn:Hs.
  - lia.
  - destruct (Nat.eq_dec j k) as [->|Hne]; [exact Hs|].
    apply IH; [exact H | lia].
Qed.

Lemma no_break_no_occurrence (text : str) :
  no_break text ->
  forall i, startswith (skipn i text) Chunker.para = false.
Proof.
  unfold no_break, rfind. intros H i.
  assert (Hn : (len text <? 0) = false)
    by (apply Z.ltb_ge; unfold len; lia).
  rewrite (Z.ltb_irrefl (len text)), Hn in H.
  change (0 <? 0) with false in H.
  cbv iota zeta in H.
  destruct (Nat.lt_ge_cases i (Z.to_nat (len text - 0 - len Chunker.para + 1)))
    as [Hi|Hi].
  - pose proof (rfind_down_none _ _ 0 _ ltac:(lia) H i Hi) as Hs.
    simpl in Hs. rewrite Nat2Z.id in Hs. exact Hs.
  - assert (Hlen : (length (skipn i text) <= 1)%nat).
    { rewrite length_skipn. change (len Chunker.para) with 2 in Hi.
      unfold len in Hi. lia. }
    destruct (skipn i text) as [|x [|y r]].
    + reflexivity.
    + simpl. apply andb_false_r.
    + simpl in Hlen. lia.
Qed.

Lemma slice_window (text : str) (start m : Z) :
  0 <= start < len text -> 0 < m ->
  slice text start (start + m)
  = firstn (Z.to_nat m) (skipn (Z.to_nat start) text).
Proof.
  intros Hs Hm. unfold slice, slice_bound.
  replace (start <? 0) with false by (symmetry; apply Z.ltb_ge; lia).
  replace (start + m <? 0) with false by (symmetry; apply Z.ltb_ge; lia).
  rewrite (Z.min_l start) by lia.
  destruct (Z.le_gt_cases (start + m) (len text)) as [H|H].
  - rewrite Z.min_l by lia. f_equal. f_equal. lia.
  - rewrite Z.min_r by lia.
    rewrite !firstn_all2; [reflexivity | |];
      rewrite length_skipn; unfold len in *; lia.
Qed.

Lemma skipn_past_end (text : str) (start : Z) :
  len text <= start -> skipn (Z.to_nat start) text = [].
Proof.
  intros H. apply skipn_all2. unfold len in H. lia.
Qed.

Lemma every_nil (m fuel : nat) : every m fuel [] = [].
Proof. destruct fuel; reflexivity. Qed.

Lemma chunk_loop_without_breaks (text : str) (m : Z) :
  0 < m ->
  (forall i, startswith (skipn i text) Chunker.para = false) ->
  forall fuel start chunks,
    0 <= start -> len text - start <= Z.of_nat fuel ->
    Chunker.chunk_loop fuel text m (start, chunks)
    = Some (chunks
            ++ filter truthy
                 (map strip
                    (every (Z.to_nat m) fuel (skipn (Z.to_nat start) text)))).
Proof.
  intros Hm Hno. induction fuel as [|fuel IH]; intros start chunks H0 Hf.
  - simpl. replace (start <? len text) with false
      by (symmetry; apply Z.ltb_ge; lia).
    rewrite app_nil_r. reflexivity.
  - cbn [Chunker.chunk_loop fst snd].
    destruct (start <? len text) eqn:Hlt.
    + apply Z.ltb_lt in Hlt.
      assert (Hcut : Chunker.cut_point text m start = start + m).
      { apply cut_point_no_break. unfold rfind.
        apply rfind_down_absent. exact Hno. }
      unfold Chunker.chunk_body. rewrite Hcut.
      rewrite slice_window by lia.
      assert (Hne : exists x r, skipn (Z.to_nat start) text = x :: r).
      { destruct (skipn (Z.to_nat start) text) as [|x r] eqn:E.
        - apply (f_equal (@length Z)) in E. rewrite length_skipn in E.
          unfold len in Hlt. simpl in E. lia.
        - exists x, r. reflexivity. }
      destruct Hne as [x [r E]].
      match goal with
      | |- Chunker.chunk_loop _ _ _ (_, ?c) = _ =>
          rewrite (IH (start + m) c) by lia
      end.
      f_equal. rewrite E. cbn [every map filter]. rewrite <- E.
      replace (skipn (Z.to_nat (start + m)) text)
        with (skipn (Z.to_nat m) (skipn (Z.to_nat start) text))
        by (rewrite skipn_skipn; f_equal; lia).
      destruct (truthy (strip (firstn (Z.to_nat m)
                                 (skipn (Z.to_nat start) text)))).
      * rewrite <- app_assoc. reflexivity.
      * reflexivity.
    + apply Z.ltb_ge in Hlt. rewrite skipn_past_end by exact Hlt.
      rewrite every_nil, app_nil_r. reflexivity.
Qed.

Lemma chunk_loop_add_fuel (text : str) (m : Z) (fuel d : nat)
    (st : Chunker.loop_state) (chunks : list str) :
  Chunker.chunk_loop fuel text m st = Some chunks ->
  Chunker.chunk_loop (d + fuel) text m st = Some chunks.
Proof.
  intros H. induction d as [|d IH]; [exact H|].
  apply chunk_loop_more_fuel. exact IH.
Qed.

Lemma chunk_loop_fuel_agree (text : str) (m : Z) (f1 f2 : nat)
    (st : Chunker.loop_state) (a b : list str) :
  Chunker.chunk_loop f1 text m st = Some a ->
  Chunker.chunk_loop f2 text m st = Some b ->
  a = b.
Proof.
  intros H1 H2.
  apply (chunk_loop_add_fuel _ _ _ f2) in H1.
  apply (chunk_loop_add_fuel _ _ _ f1) in H2.
  rewrite Nat.add_comm in H2. congruence.
Qed.

Section Progress.

Import Chunker.

Variable text : str.
Variable m : Z.
Hypothesis m_pos : 0 < m.

Lemma chunk_iter_start_nonneg (n : nat) : 0 <= fst (chunk_iter n text m).
Proof. apply (chunk_iter_within_budget text m m_pos n). Qed.

Lemma chunk_iter_next_start (n : nat) :
  fst (chunk_iter (S n) text m) = cut_point text m (fst (chunk_iter n text m)).
Proof.
  simpl. destruct (chunk_iter n text m) as [start chunks]. reflexivity.
Qed.

Lemma chunk_iter_start_step (n : nat) :
  fst (chunk_iter n text m) <= fst (chunk_iter (S n) text m).
Proof.
  rewrite chunk_iter_next_start.
  apply cut_point_range; [exact m_pos | apply chunk_iter_start_nonneg].
Qed.

Lemma chunk_iter_start_mono (n d : nat) :
  fst (chunk_iter n text m) <= fst (chunk_iter (d + n) text m).
Proof.
  induction d as [|d IH]; [simpl; lia|].
  etransitivity; [exact IH|]. apply chunk_iter_start_step.
Qed.

(** A run of the body that leaves [start] in place found the paragraph
    break at [start]. *)
Lemma cut_point_in_place (start : Z) :
  cut_point text m start = start -> stuck_at text m start.
Proof.
  unfold cut_point, stuck_at.
  destruct (start + m <? len text) eqn:Hlt; [|lia].
  apply Z.ltb_lt in Hlt.
  destruct (rfind text para start (start + m) =? -1) eqn:Hs; simpl; [lia|].
  intros H. split; [exact Hlt | exact H].
Qed.

Lemma stuck_iter_stays (k : nat) :
  stuck_at text m (fst (chunk_iter k text m)) ->
  forall d, chunk_iter (d + k) text m = chunk_iter k text m.
Proof.
  intros [Hlt Hr] d. induction d as [|d IH]; [reflexivity|].
  simpl. rewrite IH.
  pose proof (chunk_iter_start_nonneg k) as H0.
  destruct (chunk_iter k text m) as [start chunks]. simpl in *.
  apply chunk_body_stuck; [exact Hlt | exact Hr | lia].
Qed.

Lemma stuck_never_returns (k : nat) :
  stuck_at text m (fst (chunk_iter k text m)) ->
  forall fuel, chunk_from_start fuel text m = None.
Proof.
  intros Hk fuel.
  destruct (chunk_from_start fuel text m) as [chunks|] eqn:E; [|reflexivity].
  exfalso. apply chunk_from_start_reaches in E.
  destruct E as [j [_ Hj]].
  pose proof Hk as [Hlt _].
  destruct (Nat.le_gt_cases j k) as [Hle|Hgt].
  - pose proof (chunk_iter_start_mono j (k - j)) as Hm.
    replace (k - j + j)%nat with k in Hm by lia. lia.
  - pose proof (stuck_iter_stays k Hk (j - k)) as Hs.
    replace (j - k + k)%nat with j in Hs by lia.
    rewrite Hs in Hj. lia.
Qed.

Lemma never_stuck_returns :
  (forall k, ~ stuck_at text m (fst (chunk_iter k text m))) ->
  forall fuel n,
    len text - fst (chunk_iter n text m) <= Z.of_nat fuel ->
    exists chunks,
      chunk_loop fuel text m (chunk_iter n text m) = Some chunks.
Proof.
  intros Hfree. induction fuel as [|fuel IH]; intros n Hf.
  - simpl. replace (fst (chunk_iter n text m) <? len text) with false
      by (symmetry; apply Z.ltb_ge; lia).
    eexists; reflexivity.
  - cbn [chunk_loop].
    destruct (fst (chunk_iter n text m) <? len text) eqn:Hlt;
      [|eexists; reflexivity].
    change (chunk_body text m (chunk_iter n text m))
      with (chunk_iter (S n) text m).
    apply IH.
    pose proof (chunk_iter_start_step n) as Hstep.
    assert (fst (chunk_iter (S n) text m) <> fst (chunk_iter n text m)).
    { intros E. apply (Hfree n). apply cut_point_in_place.
      rewrite <- chunk_iter_next_start. exact E. }
    lia.
Qed.

End Progress.

(** On an empty budget or a negative one, [start] never reaches the end
    of a text that is not empty. *)
Lemma rfind_below_length (s sub : str) (start end_ : Z) :
  0 < len sub -> rfind s sub start end_ = -1 \/ rfind s sub start end_ < len s.
Proof.
  intros Hsub. unfold rfind.
  set (n := len s).
  set (e := if n <? end_ then n
            else if end_ <? 0 then Z.max 0 (end_ + n) else end_).
  set (b := if start <? 0 then Z.max 0 (start + n) else start).
  assert (Hn : 0 <= n) by (unfold n, len; lia).
  assert (He : e <= n).
  { unfold e. destruct (n <? end_) eqn:H1; [lia|].
    apply Z.ltb_ge in H1. destruct (end_ <? 0) eqn:H2; [|lia].
    apply Z.ltb_lt in H2. lia. }
  destruct (rfind_down_range s sub b (Z.to_nat (e - b - len sub + 1)))
    as [H|H]; lia.
Qed.

Lemma cut_point_below_length (text : str) (m start : Z) :
  m <= 0 -> start < len text ->
  Chunker.cut_point text m start < len text.
Proof.
  intros Hm Hs. unfold Chunker.cut_point.
  replace (start + m <? len text) with true
    by (symmetry; apply Z.ltb_lt; lia).
  destruct (rfind text Chunker.para start (start + m) =? -1) eqn:E; simpl.
  - lia.
  - pose proof (rfind_below_length text Chunker.para start (start + m)
                  eq_refl) as H.
    apply Z.eqb_neq in E. lia.
Qed.

Lemma chunk_loop_nonpositive_budget (text : str) (m : Z) :
  m <= 0 ->
  forall fuel st, fst st < len text ->
    Chunker.chunk_loop fuel text m st = None.
Proof.
  intros Hm. induction fuel as [|fuel IH]; intros [start chunks] Hs;
    cbn [Chunker.chunk_loop fst snd]; simpl in Hs;
    replace (start <? len text) with true by (symmetry; apply Z.ltb_lt; lia).
  - reflexivity.
  - apply IH. unfold Chunker.chunk_body. simpl.
    apply cut_point_below_length; assumption.
Qed.

Lemma chunk_iter_clean (text : str) (m : Z) (n : nat) :
  Forall clean (snd (Chunker.chunk_iter n text m)).
Proof.
  apply (chunk_iter_keeps text m (fun st => Forall clean (snd st))).
  - constructor.
  - intros [start chunks] H. unfold Chunker.chunk_body. simpl in *.
    destruct (truthy (strip (slice text start
                               (Chunker.cut_point text m start)))) eqn:Ht;
      [|exact H].
    apply Forall_app. split; [exact H|].
    constructor; [apply clean_strip; exact Ht | constructor].
Qed.

Lemma chunk_from_start_clean (text : str) (m : Z) (fuel : nat)
    (chunks : list str) :
  Chunker.chunk_from_start fuel text m = Some chunks -> Forall clean chunks.
Proof.
  intros H. apply chunk_from_start_reaches in H.
  destruct H as [k [-> _]]. apply chunk_iter_clean.
Qed.

(** X1. A text that fits in the budget is not cut: [chunk_text] returns
    after one run of the loop, with the trimmed text as the only chunk, or
    with no chunk when the text is white space only.  Both scripts; for
    [resumes.py] also when the budget is the one computed from the
    accelerator. *)
Theorem chunk_text_short_input (text : str) (m : Z) (fuel : nat) :
  len text <= m ->
  ResumeOcrGpu.chunk_text (S fuel) text m
    = Some (if truthy (strip text) then [strip text] else [])
  /\ (forall e,
        Resumes.chunk_text (S fuel) e text (Some m)
        = Some (if truthy (strip text) then [strip text] else []))
  /\ (forall e,
        m = Resumes.get_ideal_chunk_size e 4000 ->
        Resumes.chunk_text (S fuel) e text None
        = Some (if truthy (strip text) then [strip text] else [])).
Proof.
  intros H. split; [|split].
  - apply chunk_short_text. exact H.
  - intros e. apply chunk_short_text. exact H.
  - intros e ->. apply chunk_short_text. exact H.
Qed.

Lemma chunk_text_short_input_witness :
  ResumeOcrGpu.chunk_text 1 (lit "  Hello world. " ++ [LF]) 4000
  = Some [lit "Hello world."].
Proof.
  apply (proj1 (chunk_text_short_input (lit "  Hello world. " ++ [LF])
                  4000 0 ltac:(vm_compute; discriminate))).
Defined.

(** X2. On a text without paragraph break and a positive budget [m],
    [chunk_text] returns, within [len(text)] runs of the loop, the
    consecutive segments of [m] characters of the text, each trimmed, the
    empty ones left out. *)
Theorem chunk_text_without_paragraph_breaks (text : str) (m : Z)
    (fuel : nat) :
  0 < m -> no_break text -> (length text <= fuel)%nat ->
  ResumeOcrGpu.chunk_text fuel text m
    = Some (filter truthy
              (map strip (every (Z.to_nat m) (length text) text)))
  /\ (forall e,
        Resumes.chunk_text fuel e text (Some m)
        = Some (filter truthy
                  (map strip (every (Z.to_nat m) (length text) text)))).
Proof.
  intros Hm Hno Hf.
  assert (H : Chunker.chunk_from_start fuel text m
              = Some (filter truthy
                        (map strip (every (Z.to_nat m) (length text) text)))).
  { replace fuel with ((fuel - length text) + length text)%nat by lia.
    apply chunk_loop_add_fuel.
    rewrite (chunk_loop_without_breaks text m Hm
               (no_break_no_occurrence text Hno) (length text) 0 []);
      [reflexivity | lia | unfold len; lia]. }
  split; [exact H | intros e; exact H].
Qed.

Lemma chunk_text_without_paragraph_breaks_witness :
  ResumeOcrGpu.chunk_text 11 (lit "ab cd" ++ [LF] ++ lit "ef gh") 3
  = Some [lit "ab"; lit "cd"; lit "ef"; lit "gh"].
Proof.
  apply (proj1 (chunk_text_without_paragraph_breaks
                  (lit "ab cd" ++ [LF] ++ lit "ef gh") 3 11
                  ltac:(lia) ltac:(reflexivity) ltac:(vm_compute; lia))).
Defined.

(** X3. Every chunk that [chunk_text] returns is clean: it is not empty
    and has no white space at either end.  This holds for every budget, in
    both scripts. *)
Theorem chunk_text_chunks_are_clean (text : str) :
  (forall fuel m chunks,
     ResumeOcrGpu.chunk_text fuel text m = Some chunks ->
     Forall clean chunks)
  /\ (forall fuel e max_chars chunks,
        Resumes.chunk_text fuel e text max_chars = Some chunks ->
        Forall clean chunks).
Proof.
  split.
  - intros fuel m chunks H. exact (chunk_from_start_clean _ _ _ _ H).
  - intros fuel e max_chars chunks H.
    exact (chunk_from_start_clean _ _ _ _ H).
Qed.

Lemma chunk_text_chunks_are_clean_witness :
  Forall clean [lit "ab cd"; lit "ef"].
Proof.
  apply (proj1 (chunk_text_chunks_are_clean Inputs.short_text) 5%nat 7).
  reflexivity.
Defined.

(** X4. Chunking is idempotent on its own output: a chunk returned by
    [chunk_text] for a positive budget, chunked again with the same budget,
    comes back as the only chunk. *)
Theorem chunk_text_keeps_its_chunks (text : str) (m : Z) (fuel : nat)
    (chunks : list str) :
  0 < m ->
  ResumeOcrGpu.chunk_text fuel text m = Some chunks ->
  forall c fuel',
    In c chunks -> ResumeOcrGpu.chunk_text (S fuel') c m = Some [c].
Proof.
  intros Hm H c fuel' Hin.
  pose proof (chunk_from_start_within_budget text m Hm fuel chunks H) as Hb.
  pose proof (chunk_from_start_clean text m fuel chunks H) as Hc.
  rewrite Forall_forall in Hb, Hc.
  destruct (Hc c Hin) as [Hne Hs].
  unfold ResumeOcrGpu.chunk_text.
  rewrite chunk_short_text by (apply Hb; exact Hin).
  rewrite Hs. destruct c; [contradiction | reflexivity].
Qed.

Lemma chunk_text_keeps_its_chunks_witness :
  ResumeOcrGpu.chunk_text 1 (lit "ab cd") 7 = Some [lit "ab cd"].
Proof.
  apply (chunk_text_keeps_its_chunks Inputs.short_text 7 5
           [lit "ab cd"; lit "ef"] ltac:(lia) ltac:(reflexivity)
           (lit "ab cd") 0%nat).
  left. reflexivity.
Defined.

(** X5. For a positive budget, [chunk_text] returns exactly when no run
    of the loop opens its window on a paragraph break that is the last one
    in the window (and the window ends before the end of the text).  When
    it returns, [len(text)] runs of the loop suffice; when some run is stuck
    in that way, it never returns. *)
Theorem chunk_text_returns_iff_never_stuck (text : str) (m : Z) :
  0 < m ->
  ((exists fuel chunks, ResumeOcrGpu.chunk_text fuel text m = Some chunks)
   <-> (forall k,
          ~ stuck_at text m (fst (Chunker.chunk_iter k text m))))
  /\ (forall fuel chunks,
        ResumeOcrGpu.chunk_text fuel text m = Some chunks ->
        ResumeOcrGpu.chunk_text (length text) text m = Some chunks)
  /\ (forall k,
        stuck_at text m (fst (Chunker.chunk_iter k text m)) ->
        forall fuel, ResumeOcrGpu.chunk_text fuel text m = None).
Proof.
  intros Hm.
  assert (Hret : forall fuel chunks,
             ResumeOcrGpu.chunk_text fuel text m = Some chunks ->
             forall k,
               ~ stuck_at text m (fst (Chunker.chunk_iter k text m))).
  { intros fuel chunks H k Hk.
    unfold ResumeOcrGpu.chunk_text in H.
    rewrite (stuck_never_returns text m Hm k Hk fuel) in H.
    discriminate. }
  assert (Hfree : (forall k,
              ~ stuck_at text m (fst (Chunker.chunk_iter k text m))) ->
            exists chunks,
              ResumeOcrGpu.chunk_text (length text) text m = Some chunks).
  { intros H.
    apply (never_stuck_returns text m Hm H (length text) 0).
    simpl. unfold len. lia. }
  split; [split|split].
  - intros [fuel [chunks H]]. exact (Hret fuel chunks H).
  - intros H. exists (length text). exact (Hfree H).
  - intros fuel chunks H.
    destruct (Hfree (Hret fuel chunks H)) as [chunks' H'].
    rewrite H'. f_equal.
    exact (chunk_loop_fuel_agree _ _ _ _ _ _ _ H' H).
  - intros k Hk fuel. exact (stuck_never_returns text m Hm k Hk fuel).
Qed.

Lemma chunk_text_returns_iff_never_stuck_witness :
  ResumeOcrGpu.chunk_text (length Inputs.short_text) Inputs.short_text 7
    = Some [lit "ab cd"; lit "ef"]
  /\ (forall k,
        ~ stuck_at Inputs.short_text 7
            (fst (Chunker.chunk_iter k Inputs.short_text 7))).
Proof.
  pose proof (chunk_text_returns_iff_never_stuck Inputs.short_text 7
                ltac:(lia)) as [Hiff [Hlen _]].
  split.
  - apply (Hlen 2%nat). reflexivity.
  - apply Hiff. exists 2%nat, [lit "ab cd"; lit "ef"]. reflexivity.
Defined.

(** X6. A budget of zero or below makes [chunk_text] loop for ever on
    every text that is not empty: [start] never reaches the length.  On
    the empty text it returns no chunk, whatever the budget. *)
Theorem chunk_text_nonpositive_budget :
  (forall text m,
     m <= 0 -> text <> [] ->
     (forall fuel, ResumeOcrGpu.chunk_text fuel text m = None)
     /\ (forall fuel e, Resumes.chunk_text fuel e text (Some m) = None))
  /\ (forall fuel m, ResumeOcrGpu.chunk_text fuel [] m = Some [])
  /\ (forall fuel e max_chars,
        Resumes.chunk_text fuel e [] max_chars = Some []).
Proof.
  split; [|split].
  - intros text m Hm Hne.
    assert (H : forall fuel, Chunker.chunk_from_start fuel text m = None).
    { intros fuel. apply chunk_loop_nonpositive_budget; [exact Hm|].
      destruct text; [contradiction|]. unfold len. simpl. lia. }
    split; [exact H | intros fuel e; apply H].
  - intros [|fuel] m; reflexivity.
  - intros [|fuel] e max_chars; reflexivity.
Qed.

Lemma chunk_text_nonpositive_budget_witness :
  ResumeOcrGpu.chunk_text 1000 Inputs.hello 0 = None
  /\ Resumes.chunk_text 1000 Inputs.llm_down Inputs.hello (Some (-3)) = None.
Proof.
  split.
  - exact (proj1 (proj1 chunk_text_nonpositive_budget Inputs.hello 0
                    ltac:(lia) ltac:(discriminate)) 1000%nat).
  - exact (proj2 (proj1 chunk_text_nonpositive_budget Inputs.hello (-3)
                    ltac:(lia) ltac:(discriminate)) 1000%nat Inputs.llm_down).
Defined.

(* ================================================================== *)
(** * Page extraction as a map over the pages *)
(* ================================================================== *)

Lemma pure_call_returns {A : Type} (a : A) : pure_call (Returns a) = ret a.
Proof. reflexivity. Qed.

Lemma lenient_pages_reference (e : env) (doc : list page) :
  forall n acc,
    ResumeOcrGpu.pages_loop e n doc acc
    = (ocr_calls n doc,
       Done (acc ++ filter truthy (map (lenient_page_text e) doc))).
Proof.
  induction doc as [|p rest IH]; intros n acc.
  - simpl. rewrite app_nil_r. reflexivity.
  - rewrite lenient_page. cbn [ocr_calls map filter].
    unfold lenient_page_text at 1 2.
    destruct (truthy (strip (get_text p))) eqn:Hn.
    + rewrite Hn, IH, <- app_assoc. reflexivity.
    + cbv zeta.
      destruct (truthy (strip (join [LF]
                  match readtext e (get_pixmap p 300) with
                  | Returns r => r
                  | Raises _ => []
                  end))) eqn:Ho;
        rewrite IH; unfold prepend; simpl; [rewrite <- app_assoc|];
        reflexivity.
Qed.

Lemma strict_pages_reference (e : env) (doc : list page) :
  (forall p, In p doc ->
     truthy (strip (get_text p)) = false ->
     exists raw, image_to_string e (get_pixmap p 300) = Returns raw) ->
  forall n acc,
    Resumes.pages_loop e n doc acc
    = (ocr_calls n doc,
       Done (acc ++ filter truthy (map (strict_page_text e) doc))).
Proof.
  induction doc as [|p rest IH]; intros Hocr n acc.
  - simpl. rewrite app_nil_r. reflexivity.
  - assert (Hrest : forall q, In q rest ->
              truthy (strip (get_text q)) = false ->
              exists raw, image_to_string e (get_pixmap q 300) = Returns raw)
      by (intros q Hq; apply Hocr; right; exact Hq).
    rewrite strict_page. cbn [ocr_calls map filter].
    unfold strict_page_text at 1 2.
    destruct (truthy (strip (get_text p))) eqn:Hn.
    + rewrite Hn, (IH Hrest), <- app_assoc. reflexivity.
    + destruct (Hocr p (or_introl eq_refl) Hn) as [raw Hraw].
      rewrite Hraw. cbv zeta.
      destruct (truthy (strip raw)) eqn:Ho;
        rewrite (IH Hrest); unfold prepend; simpl; [rewrite <- app_assoc|];
        reflexivity.
Qed.

Lemma lenient_extract_reference (e : env) (pdf_path : str)
    (doc : list page) :
  isfile e pdf_path = true ->
  fitz_open e pdf_path = Returns doc ->
  ResumeOcrGpu.extract_text_from_pdf e pdf_path
  = (ocr_calls 1 doc,
     Done (join [LF; LF] (filter truthy (map (lenient_page_text e) doc)))).
Proof.
  intros Hf Ho. unfold ResumeOcrGpu.extract_text_from_pdf.
  rewrite Hf, Ho. simpl negb. cbv iota.
  rewrite lenient_pages_reference, bind_done. unfold prepend, ret.
  cbn [fst snd app]. rewrite app_nil_r. reflexivity.
Qed.

Lemma Forall_app_clean (acc : list str) (s : str) :
  Forall clean acc -> clean s -> Forall clean (acc ++ [s]).
Proof.
  intros Ha Hs. apply Forall_app. split; [exact Ha|].
  constructor; [exact Hs | constructor].
Qed.

Lemma filter_truthy_all_empty {X : Type} (f : X -> str) (l : list X) :
  Forall (fun x => f x = []) l -> filter truthy (map f l) = [].
Proof.
  induction 1 as [|x l Hx _ IH]; [reflexivity|].
  simpl. rewrite Hx. exact IH.
Qed.

Lemma lenient_page_text_trimmed (e : env) (p : page) :
  strip (lenient_page_text e p) = lenient_page_text e p.
Proof.
  unfold lenient_page_text.
  destruct (truthy (strip (get_text p))); apply strip_strip.
Qed.

Lemma strict_pages_clean (e : env) (doc : list page) :
  forall n acc full_text,
    Forall clean acc ->
    outcome_of (Resumes.pages_loop e n doc acc) = Done full_text ->
    Forall clean full_text.
Proof.
  induction doc as [|p rest IH]; intros n acc full_text Hacc H.
  - simpl in H. injection H as <-. exact Hacc.
  - rewrite strict_page in H.
    destruct (truthy (strip (get_text p))) eqn:Hn.
    + apply (IH _ _ _ (Forall_app_clean acc _ Hacc (clean_strip _ Hn)) H).
    + destruct (image_to_string e (get_pixmap p 300)) as [raw|ex];
        [|discriminate].
      rewrite outcome_prepend in H.
      destruct (truthy (strip raw)) eqn:Ho.
      * apply (IH _ _ _ (Forall_app_clean acc _ Hacc (clean_strip _ Ho)) H).
      * apply (IH _ _ _ Hacc H).
Qed.

Lemma join_clean_trimmed (sep : str) (l : list str) :
  Forall clean l -> strip (join sep l) = join sep l.
Proof.
  intros H. destruct l as [|a l]; [reflexivity|].
  apply (clean_join sep (a :: l) H). discriminate.
Qed.

Lemma join_clean_empty (sep : str) (l : list str) :
  Forall clean l -> join sep l = [] -> l = [].
Proof.
  intros H E. destruct l as [|a l]; [reflexivity|].
  destruct (clean_join sep (a :: l) H ltac:(discriminate)) as [Hne _].
  contradiction.
Qed.

(** X7. In [resume_ocr_gpu.py], for a PDF that opens and whose pages are
    read and rendered (the pages [doc] with their embedded text and their
    rendering), the text extracted is the texts of the pages joined by a
    blank line, in page order, the pages that give no text left out; the
    text of a page is its embedded text, trimmed, or else what OCR reads on
    it (nothing when OCR raises), trimmed.  The calls made are one
    rendering and one OCR call for every page without embedded text, in
    page order. *)
Theorem lenient_extraction_by_pages (e : env) (pdf_path : str)
    (doc : list page) :
  isfile e pdf_path = true ->
  fitz_open e pdf_path = Returns doc ->
  ResumeOcrGpu.extract_text_from_pdf e pdf_path
  = (ocr_calls 1 doc,
     Done (join [LF; LF] (filter truthy (map (lenient_page_text e) doc)))).
Proof.
  exact (lenient_extract_reference e pdf_path doc).
Qed.

Lemma lenient_extraction_by_pages_witness :
  ResumeOcrGpu.extract_text_from_pdf Inputs.text_then_scan (lit "a.pdf")
  = ([EvPixmap 2 300; EvOcr 2],
     Done (lit "Hello world." ++ [LF; LF] ++ lit "Scanned content.")).
Proof.
  apply (lenient_extraction_by_pages Inputs.text_then_scan (lit "a.pdf")
           [Inputs.text_page Inputs.hello; Inputs.scanned_page]);
    reflexivity.
Defined.

(** X8. In [resumes.py], opening the PDF is not guarded: an error of
    [fitz.open] is raised to the caller.  When the PDF opens and OCR
    returns on every page without embedded text, the extracted text is the
    page texts joined by a blank line as in the other script, with the same
    calls; if moreover both OCR engines read the same text on every page,
    the two scripts extract the same text. *)
Theorem strict_extraction_by_pages (e : env) (pdf_path : str) :
  (forall ex,
     fitz_open e pdf_path = Raises ex ->
     Resumes.extract_text_from_pdf e pdf_path = ([], Raised ex))
  /\ (forall doc,
        fitz_open e pdf_path = Returns doc ->
        (forall p, In p doc ->
           truthy (strip (get_text p)) = false ->
           exists raw, image_to_string e (get_pixmap p 300) = Returns raw) ->
        Resumes.extract_text_from_pdf e pdf_path
        = (ocr_calls 1 doc,
           Done (join [LF; LF]
                   (filter truthy (map (strict_page_text e) doc))))
        /\ (isfile e pdf_path = true ->
            (forall p, In p doc ->
               lenient_page_text e p = strict_page_text e p) ->
            ResumeOcrGpu.extract_text_from_pdf e pdf_path
            = Resumes.extract_text_from_pdf e pdf_path)).
Proof.
  split.
  - intros ex Ho. unfold Resumes.extract_text_from_pdf. rewrite Ho.
    reflexivity.
  - intros doc Ho Hocr.
    assert (Hs : Resumes.extract_text_from_pdf e pdf_path
                 = (ocr_calls 1 doc,
                    Done (join [LF; LF]
                            (filter truthy (map (strict_page_text e) doc))))).
    { unfold Resumes.extract_text_from_pdf. rewrite Ho. rewrite pure_call_returns.
      rewrite bind_ret_l, (strict_pages_reference e doc Hocr), bind_done.
      unfold prepend, ret. cbn [fst snd app]. rewrite app_nil_r.
      reflexivity. }
    split; [exact Hs|].
    intros Hf Hsame.
    rewrite Hs, (lenient_extract_reference e pdf_path doc Hf Ho).
    f_equal. f_equal. f_equal. f_equal.
    apply map_ext_in. exact Hsame.
Qed.

Lemma strict_extraction_by_pages_witness :
  Resumes.extract_text_from_pdf Inputs.text_then_scan (lit "a.pdf")
  = ([EvPixmap 2 300; EvOcr 2],
     Done (lit "Hello world." ++ [LF; LF] ++ lit "Scanned content.")).
Proof.
  refine (proj1 (proj2 (strict_extraction_by_pages Inputs.text_then_scan
                          (lit "a.pdf"))
                   [Inputs.text_page Inputs.hello; Inputs.scanned_page]
                   eq_refl _)).
  intros p _ _. exists (lit "Scanned content."). reflexivity.
Defined.

(** X9. The text that either script extracts has no white space at its
    ends, and it is empty only when no page gave any text.  So a document
    whose text is not empty and fits in the budget of [main] reaches the
    summarising step as one chunk, the text itself. *)
Theorem extracted_text_is_trimmed (e : env) (pdf_path text : str) :
  (outcome_of (ResumeOcrGpu.extract_text_from_pdf e pdf_path) = Done text ->
   strip text = text)
  /\ (outcome_of (Resumes.extract_text_from_pdf e pdf_path) = Done text ->
      strip text = text)
  /\ (outcome_of (ResumeOcrGpu.extract_text_from_pdf e pdf_path) = Done text ->
      text <> [] -> len text <= 4000 ->
      forall fuel, ResumeOcrGpu.chunk_text (S fuel) text 4000 = Some [text])
  /\ (forall doc,
        isfile e pdf_path = true ->
        fitz_open e pdf_path = Returns doc ->
        (outcome_of (ResumeOcrGpu.extract_text_from_pdf e pdf_path) = Done []
         <-> Forall (fun p => lenient_page_text e p = []) doc)).
Proof.
  assert (Hl : outcome_of (ResumeOcrGpu.extract_text_from_pdf e pdf_path)
               = Done text -> strip text = text).
  { unfold ResumeOcrGpu.extract_text_from_pdf.
    destruct (isfile e pdf_path) eqn:Hf; simpl negb; cbv iota;
      [|intros H; injection H as <-; reflexivity].
    destruct (fitz_open e pdf_path) as [doc|ex] eqn:Ho;
      [|intros H; injection H as <-; reflexivity].
    rewrite lenient_pages_reference. simpl. intros H. injection H as <-.
    apply join_clean_trimmed, truthy_filter_clean.
    intros s Hs. apply in_map_iff in Hs. destruct Hs as [p [<- _]].
    apply lenient_page_text_trimmed. }
  split; [exact Hl | split; [|split]].
  - unfold Resumes.extract_text_from_pdf.
    destruct (fitz_open e pdf_path) as [doc|ex]; [|discriminate].
    rewrite pure_call_returns, bind_ret_l. intros H.
    apply outcome_bind_done_inv in H. destruct H as [full [Hp H]].
    simpl in H. injection H as <-.
    apply join_clean_trimmed.
    apply (strict_pages_clean e doc 1 [] full (Forall_nil _) Hp).
  - intros H Hne Hlen fuel. unfold ResumeOcrGpu.chunk_text.
    rewrite chunk_short_text by exact Hlen. rewrite (Hl H).
    destruct text; [contradiction | reflexivity].
  - intros doc Hf Ho.
    rewrite (lenient_extract_reference e pdf_path doc Hf Ho).
    simpl outcome_of. split.
    + intros H. injection H as H.
      apply join_clean_empty in H.
      * apply Forall_forall. intros p Hp.
        destruct (lenient_page_text e p) as [|c r] eqn:E; [reflexivity|].
        assert (Hin : In (c :: r)
                        (filter truthy (map (lenient_page_text e) doc))).
        { apply filter_In. split; [|reflexivity].
          rewrite <- E. apply in_map. exact Hp. }
        rewrite H in Hin. contradiction.
      * apply truthy_filter_clean.
        intros s Hs. apply in_map_iff in Hs. destruct Hs as [p [<- _]].
        apply lenient_page_text_trimmed.
    + intros H. rewrite (filter_truthy_all_empty _ _ H). reflexivity.
Qed.

Lemma extracted_text_is_trimmed_witness :
  strip Inputs.hello = Inputs.hello
  /\ ResumeOcrGpu.chunk_text 1 Inputs.hello 4000 = Some [Inputs.hello].
Proof.
  pose proof (extracted_text_is_trimmed Inputs.ocr_down (lit "a.pdf")
                Inputs.hello) as [H1 [_ [H3 _]]].
  split.
  - apply H1. reflexivity.
  - apply H3; [reflexivity | discriminate | vm_compute; discriminate].
Defined.

(* ================================================================== *)
(** * The summarising loops and the runs of [main] *)
(* ================================================================== *)

Lemma lenient_summarize_answer (e : env) (chunk model : str) :
  ResumeOcrGpu.summarize_chunk e chunk model
  = ([EvChat model (ResumeOcrGpu.summarize_messages chunk)],
     Done (lenient_summary e model chunk)).
Proof. apply lenient_summarize_cases. Qed.

Lemma lenient_synthesize_answer (e : env) (summaries : list str)
    (model : str) :
  ResumeOcrGpu.synthesize_summaries e summaries model
  = ([EvChat model (ResumeOcrGpu.synthesize_messages summaries)],
     Done (lenient_answer
             (ollama_chat e model
                (ResumeOcrGpu.synthesize_messages summaries)))).
Proof. apply lenient_synthesize_cases. Qed.

Lemma strict_summarize_answer (e : env) (chunk model : str) :
  Resumes.summarize_chunk e chunk model
  = ([EvChat model (Resumes.summarize_messages chunk)],
     strict_answer (ollama_chat e model (Resumes.summarize_messages chunk))).
Proof. apply strict_summarize_cases. Qed.

Lemma strict_chat_answer (e : env) (model : str) (messages : list message) :
  (resp <- call (EvChat model messages) (ollama_chat e model messages) ;;
   content <- content_of resp ;;
   ret (strip content))
  = ([EvChat model messages], strict_answer (ollama_chat e model messages)).
Proof.
  destruct (ollama_chat e model messages) as [resp|ex]; [|reflexivity].
  rewrite bind_call_returns. unfold content_of. simpl.
  destruct (message_content resp); reflexivity.
Qed.

Lemma lenient_summaries_reference (e : env) (model : str)
    (chunks : list str) :
  forall acc,
    ResumeOcrGpu.summaries_loop e model chunks acc
    = (lenient_requests model chunks,
       Done (acc ++ map (lenient_summary e model) chunks)).
Proof.
  induction chunks as [|c chunks IH]; intros acc.
  - simpl. rewrite app_nil_r. reflexivity.
  - cbn [ResumeOcrGpu.summaries_loop].
    rewrite lenient_summarize_answer, bind_done, IH.
    unfold prepend. simpl. rewrite <- app_assoc. reflexivity.
Qed.

Lemma strict_parts_reference (e : env) (model : str) (chunks : list str) :
  forall summaries acc,
    Forall2 (fun c s =>
               strict_answer
                 (ollama_chat e model (Resumes.summarize_messages c))
               = Done s) chunks summaries ->
    Resumes.parts_loop e model chunks acc
    = (strict_requests model chunks, Done (acc ++ summaries)).
Proof.
  induction chunks as [|c chunks IH]; intros summaries acc H;
    inversion H as [|? s ? rest Hc Hrest]; subst.
  - simpl. rewrite app_nil_r. reflexivity.
  - cbn [Resumes.parts_loop].
    rewrite strict_summarize_answer, Hc, bind_done, (IH rest _ Hrest).
    unfold prepend. simpl. rewrite <- app_assoc. reflexivity.
Qed.

Lemma strict_parts_app (e : env) (model : str) (before after : list str) :
  forall acc,
    Resumes.parts_loop e model (before ++ after) acc
    = (acc1 <- Resumes.parts_loop e model before acc ;;
       Resumes.parts_loop e model after acc1).
Proof.
  induction before as [|c before IH]; intros acc.
  - cbn [Resumes.parts_loop app]. rewrite bind_ret_l. reflexivity.
  - cbn [Resumes.parts_loop app]. rewrite bind_assoc.
    apply bind_ext. intros s. apply IH.
Qed.

(** X10. The loop over the chunks in [main] of [resume_ocr_gpu.py] sends
    one chat request per chunk, in chunk order, and returns one summary per
    chunk, in the same order: the trimmed answer, or the empty string in
    the place of a chunk whose request failed. *)
Theorem lenient_summaries_in_chunk_order (e : env) (model : str)
    (chunks acc : list str) :
  ResumeOcrGpu.summaries_loop e model chunks acc
    = (lenient_requests model chunks,
       Done (acc ++ map (lenient_summary e model) chunks))
  /\ length (lenient_requests model chunks) = length chunks
  /\ length (map (lenient_summary e model) chunks) = length chunks.
Proof.
  split; [apply lenient_summaries_reference|].
  unfold lenient_requests. rewrite !length_map. split; reflexivity.
Qed.

(** X11. The loop over the chunks in [process_papers] of [resumes.py]
    stops at the first chunk whose request fails: the chunks before it
    have been sent in order, the chunks after it are never sent, the
    summaries obtained so far are dropped and the error is raised.  When
    every request succeeds it returns the summaries in chunk order. *)
Theorem strict_parts_stop_at_first_failure (e : env) (model : str)
    (before after summaries acc : list str) (c : str) (ex : exn) :
  Forall2 (fun c s =>
             strict_answer
               (ollama_chat e model (Resumes.summarize_messages c))
             = Done s) before summaries ->
  (strict_answer (ollama_chat e model (Resumes.summarize_messages c))
   = Raised ex ->
   Resumes.parts_loop e model (before ++ c :: after) acc
   = (strict_requests model (before ++ [c]), Raised ex))
  /\ Resumes.parts_loop e model before acc
     = (strict_requests model before, Done (acc ++ summaries)).
Proof.
  intros Hb. split.
  - intros Hc.
    rewrite strict_parts_app, (strict_parts_reference e model before _ _ Hb).
    rewrite bind_done. cbn [Resumes.parts_loop].
    rewrite strict_summarize_answer, Hc. unfold strict_requests.
    rewrite map_app. reflexivity.
  - apply strict_parts_reference. exact Hb.
Qed.

Lemma strict_parts_stop_at_first_failure_witness :
  Resumes.parts_loop Inputs.llm_down Resumes.default_model
    ([] ++ Inputs.hello :: [lit "never sent"]) []
  = ([EvChat Resumes.default_model (Resumes.summarize_messages Inputs.hello)],
     Raised TimeoutError).
Proof.
  apply (proj1 (strict_parts_stop_at_first_failure Inputs.llm_down
                  Resumes.default_model [] [lit "never sent"] [] []
                  Inputs.hello TimeoutError (Forall2_nil _))).
  reflexivity.
Defined.

(** X12. [main] of [resume_ocr_gpu.py] stops after extraction when there
    is no text: for a path that is not a file and for a PDF that fails to
    open it makes no call at all; for a PDF none of whose pages gives text
    it makes the rendering and OCR calls only.  In each case it returns
    without a chat request and without writing the output file. *)
Theorem gpu_main_without_text (fuel : nat) (e : env)
    (pdf_path output_path model : str) :
  (isfile e pdf_path = false ->
   ResumeOcrGpu.main fuel e pdf_path output_path model = ([], Done tt))
  /\ (forall ex,
        fitz_open e pdf_path = Raises ex ->
        ResumeOcrGpu.main fuel e pdf_path output_path model = ([], Done tt))
  /\ (forall doc,
        isfile e pdf_path = true ->
        fitz_open e pdf_path = Returns doc ->
        Forall (fun p => lenient_page_text e p = []) doc ->
        ResumeOcrGpu.main fuel e pdf_path output_path model
        = (ocr_calls 1 doc, Done tt))
  /\ (forall t,
        ResumeOcrGpu.extract_text_from_pdf e pdf_path = (t, Done []) ->
        ResumeOcrGpu.main fuel e pdf_path output_path model = (t, Done tt)).
Proof.
  assert (Hempty : forall t,
             ResumeOcrGpu.extract_text_from_pdf e pdf_path = (t, Done []) ->
             ResumeOcrGpu.main fuel e pdf_path output_path model
             = (t, Done tt)).
  { intros t H. unfold ResumeOcrGpu.main. rewrite H, bind_done.
    unfold prepend. simpl. rewrite app_nil_r. reflexivity. }
  split; [|split; [|split]].
  - intros Hf. apply Hempty. unfold ResumeOcrGpu.extract_text_from_pdf.
    rewrite Hf. reflexivity.
  - intros ex Ho. apply Hempty. unfold ResumeOcrGpu.extract_text_from_pdf.
    rewrite Ho. destruct (isfile e pdf_path); reflexivity.
  - intros doc Hf Ho Hblank. apply Hempty.
    rewrite (lenient_extract_reference e pdf_path doc Hf Ho).
    rewrite (filter_truthy_all_empty _ _ Hblank). reflexivity.
  - exact Hempty.
Qed.

Lemma gpu_main_without_text_witness :
  ResumeOcrGpu.main 5
    (Inputs.machine [Inputs.scanned_page; Inputs.scanned_page] []
       (Raises OCRError) (Inputs.answer (lit "ok")))
    (lit "almeida.pdf") (lit "resumo_gpu.md") (lit "gemma3:12b")
  = ([EvPixmap 1 300; EvOcr 1; EvPixmap 2 300; EvOcr 2], Done tt).
Proof.
  apply (proj1 (proj2 (proj2 (gpu_main_without_text 5
           (Inputs.machine [Inputs.scanned_page; Inputs.scanned_page] []
              (Raises OCRError) (Inputs.answer (lit "ok")))
           (lit "almeida.pdf") (lit "resumo_gpu.md") (lit "gemma3:12b"))))
         [Inputs.scanned_page; Inputs.scanned_page]);
    [reflexivity | reflexivity |].
  repeat constructor.
Defined.

Lemma lenient_main_reference (fuel : nat) (e : env)
    (pdf_path output_path model text : str) (t : list event)
    (chunks : list str) :
  ResumeOcrGpu.extract_text_from_pdf e pdf_path = (t, Done text) ->
  text <> [] ->
  ResumeOcrGpu.chunk_text fuel text 4000 = Some chunks ->
  ResumeOcrGpu.main fuel e pdf_path output_path model
  = (t ++ lenient_requests model chunks
       ++ [EvChat model
             (ResumeOcrGpu.synthesize_messages
                (map (lenient_summary e model) chunks));
           EvWrite output_path
             (lenient_answer
                (ollama_chat e model
                   (ResumeOcrGpu.synthesize_messages
                      (map (lenient_summary e model) chunks))))],
     Done tt).
Proof.
  intros Ht Hne Hc.
  unfold ResumeOcrGpu.main. rewrite Ht, bind_done.
  destruct text as [|x r]; [contradiction|]. cbn [truthy negb].
  rewrite Hc. cbn [of_fuel]. rewrite bind_ret_l.
  rewrite lenient_summaries_reference, bind_done. cbn [app].
  rewrite lenient_synthesize_answer, bind_done.
  unfold prepend, try_except, call.
  destruct (write_text e output_path _) as [[]|ex];
    cbn [fst snd ret]; rewrite ?app_nil_r; reflexivity.
Qed.

(** X13. A run of [main] of [resume_ocr_gpu.py] on a document with text,
    once the chunking loop has returned: after the calls of extraction it
    sends one request per chunk, in order, then one synthesis request over
    the summaries, then writes the answer of that request (the empty string
    if it failed) to the output path; this is the only write and the last
    call, and [main] returns even when the write fails. *)
Theorem gpu_main_run (fuel : nat) (e : env)
    (pdf_path output_path model text : str) (t : list event)
    (chunks : list str) :
  ResumeOcrGpu.extract_text_from_pdf e pdf_path = (t, Done text) ->
  text <> [] ->
  ResumeOcrGpu.chunk_text fuel text 4000 = Some chunks ->
  let summaries := map (lenient_summary e model) chunks in
  let final_summary :=
    lenient_answer
      (ollama_chat e model (ResumeOcrGpu.synthesize_messages summaries)) in
  ResumeOcrGpu.main fuel e pdf_path output_path model
  = (t ++ lenient_requests model chunks
       ++ [EvChat model (ResumeOcrGpu.synthesize_messages summaries);
           EvWrite output_path final_summary],
     Done tt).
Proof.
  intros Ht Hne Hc summaries final_summary.
  exact (lenient_main_reference fuel e pdf_path output_path model text t
           chunks Ht Hne Hc).
Qed.

Lemma gpu_main_run_witness :
  ResumeOcrGpu.main 2 Inputs.llm_down (lit "almeida.pdf")
    (lit "resumo_gpu.md") (lit "gemma3:12b")
  = ([EvChat (lit "gemma3:12b") (ResumeOcrGpu.summarize_messages Inputs.hello);
      EvChat (lit "gemma3:12b") (ResumeOcrGpu.synthesize_messages [[]]);
      EvWrite (lit "resumo_gpu.md") []],
     Done tt).
Proof.
  apply (gpu_main_run 2 Inputs.llm_down (lit "almeida.pdf")
           (lit "resumo_gpu.md") (lit "gemma3:12b") Inputs.hello []
           [Inputs.hello]);
    [reflexivity | discriminate | reflexivity].
Defined.

(* ================================================================== *)
(** * [resumes.py]: the loop over the documents and [main] *)
(* ================================================================== *)

Lemma strict_single_answer (e : env) (summaries : list str) (model : str) :
  Resumes.synthesize_summaries_single e summaries model
  = ([EvChat model (Resumes.synthesize_single_messages summaries)],
     strict_answer
       (ollama_chat e model (Resumes.synthesize_single_messages summaries))).
Proof. apply strict_chat_answer. Qed.

Lemma comparative_answer (e : env) (summaries : dict) (model : str) :
  Resumes.synthesize_summaries e summaries model
  = ([EvChat model (Resumes.comparative_messages summaries)],
     strict_answer
       (ollama_chat e model (Resumes.comparative_messages summaries))).
Proof. apply strict_chat_answer. Qed.

Lemma no_write_bind {A B : Type} (m : M A) (f : A -> M B) :
  no_write m -> (forall a, no_write (f a)) -> no_write (bind m f).
Proof.
  unfold no_write, trace. intros Hm Hf.
  destruct m as [t [a|ex|]]; simpl in *; try exact Hm.
  specialize (Hf a). destruct (f a) as [t' r']. simpl in *.
  rewrite filter_app, Hm, Hf. reflexivity.
Qed.

Lemma no_write_prepend {A : Type} (t : list event) (m : M A) :
  filter is_write t = [] -> no_write m -> no_write (prepend t m).
Proof.
  unfold no_write, prepend, trace. simpl. intros Ht Hm.
  rewrite filter_app, Ht, Hm. reflexivity.
Qed.

Lemma strict_pages_no_write (e : env) (doc : list page) :
  forall n acc, no_write (Resumes.pages_loop e n doc acc).
Proof.
  induction doc as [|p rest IH]; intros n acc; [reflexivity|].
  rewrite strict_page.
  destruct (truthy (strip (get_text p))); [apply IH|].
  destruct (image_to_string e (get_pixmap p 300)) as [raw|ex];
    [|reflexivity].
  apply no_write_prepend; [reflexivity|].
  destruct (truthy (strip raw)); apply IH.
Qed.

Lemma strict_extract_no_write (e : env) (pdf_path : str) :
  no_write (Resumes.extract_text_from_pdf e pdf_path).
Proof.
  unfold Resumes.extract_text_from_pdf.
  apply no_write_bind.
  - destruct (fitz_open e pdf_path); reflexivity.
  - intros doc. apply no_write_bind; [apply strict_pages_no_write|].
    intros full. reflexivity.
Qed.

Lemma strict_parts_no_write (e : env) (model : str) (chunks : list str) :
  forall acc, no_write (Resumes.parts_loop e model chunks acc).
Proof.
  induction chunks as [|c chunks IH]; intros acc; [reflexivity|].
  cbn [Resumes.parts_loop]. apply no_write_bind.
  - rewrite strict_summarize_answer. reflexivity.
  - intros s. apply IH.
Qed.

Lemma papers_loop_no_write (fuel : nat) (e : env) (directory model : str)
    (fnames : list str) :
  forall d, no_write (Resumes.papers_loop fuel e directory model fnames d).
Proof.
  induction fnames as [|f rest IH]; intros d; [reflexivity|].
  cbn [Resumes.papers_loop].
  destruct (Resumes.is_pdf_name f); [|apply IH].
  apply no_write_bind; [apply strict_extract_no_write|].
  intros text. destruct (truthy text); cbn [negb]; [|apply IH].
  apply no_write_bind.
  - destruct (Resumes.chunk_text fuel e text None); reflexivity.
  - intros chunks. apply no_write_bind; [apply strict_parts_no_write|].
    intros parts. apply no_write_bind.
    + rewrite strict_single_answer. reflexivity.
    + intros summary. apply IH.
Qed.

Lemma process_papers_no_write (fuel : nat) (e : env) (directory model : str) :
  no_write (Resumes.process_papers fuel e directory model).
Proof.
  unfold Resumes.process_papers. apply no_write_bind.
  - destruct (listdir e directory); reflexivity.
  - intros names. apply papers_loop_no_write.
Qed.


Lemma dict_set_NoDup (d : dict) (k v : str) :
  NoDup (dict_keys d) -> NoDup (dict_keys (dict_set d k v)).
Proof.
  induction d as [|[k' v'] d IH]; intros H.
  - simpl. constructor; [intros [] | constructor].
  - simpl in *. inversion H as [|? ? Hnot Hrest]; subst.
    destruct (str_eqb k' k) eqn:E.
    + apply str_eqb_eq in E. subst k'. simpl. constructor; assumption.
    + simpl. constructor; [|apply IH; exact Hrest].
      intros Hin. apply dict_set_keys in Hin. destruct Hin as [Hin| ->].
      * exact (Hnot Hin).
      * assert (str_eqb k k = true) by (apply str_eqb_eq; reflexivity).
        congruence.
Qed.

Lemma dict_set_length (d : dict) (k v : str) :
  (length (dict_set d k v) <= S (length d))%nat.
Proof.
  induction d as [|[k' v'] d IH]; simpl; [lia|].
  destruct (str_eqb k' k); simpl; lia.
Qed.


Lemma insert_sorted_filter_length (f : str -> bool) (x : str)
    (l : list str) :
  length (filter f (insert_sorted x l)) = length (filter f (x :: l)).
Proof.
  induction l as [|y l IH]; [reflexivity|].
  cbn [insert_sorted]. destruct (str_leb x y); [reflexivity|].
  cbn [filter] in *. destruct (f y), (f x); cbn [length] in *; lia.
Qed.

Lemma sorted_filter_length (f : str -> bool) (l : list str) :
  length (filter f (sorted l)) = length (filter f l).
Proof.
  induction l as [|x l IH]; [reflexivity|].
  change (sorted (x :: l)) with (insert_sorted x (sorted l)).
  rewrite insert_sorted_filter_length. cbn [filter].
  destruct (f x); cbn [length]; lia.
Qed.

Lemma papers_loop_NoDup (fuel : nat) (e : env) (directory model : str)
    (fnames : list str) :
  forall d d',
    outcome_of (Resumes.papers_loop fuel e directory model fnames d)
    = Done d' ->
    NoDup (dict_keys d) ->
    NoDup (dict_keys d')
    /\ (length d' <= length d
                     + length (filter Resumes.is_pdf_name fnames))%nat.
Proof.
  induction fnames as [|f rest IH]; intros d d' Hrun Hd.
  - cbn in Hrun. injection Hrun as <-. split; [exact Hd | simpl; lia].
  - cbn [Resumes.papers_loop filter] in *.
    destruct (Resumes.is_pdf_name f).
    + apply outcome_bind_done_inv in Hrun.
      destruct Hrun as [text [_ Hrun]].
      destruct (truthy text); cbn [negb] in Hrun.
      * apply outcome_bind_done_inv in Hrun.
        destruct Hrun as [chunks [_ Hrun]].
        apply outcome_bind_done_inv in Hrun.
        destruct Hrun as [parts [_ Hrun]].
        apply outcome_bind_done_inv in Hrun.
        destruct Hrun as [summary [_ Hrun]].
        destruct (IH _ _ Hrun (dict_set_NoDup d _ summary Hd)) as [H1 H2].
        split; [exact H1|].
        pose proof (dict_set_length d (Resumes.title_of f) summary).
        simpl. lia.
      * destruct (IH _ _ Hrun Hd) as [H1 H2].
        split; [exact H1 | simpl; lia].
    + apply (IH _ _ Hrun Hd).
Qed.

(** X14. A run of [main] of [resumes.py].  An error of [os.makedirs] or
    of [process_papers] is raised, with nothing written.  When no document
    was summarised, [main] returns without a chat request and without
    writing.  Otherwise it sends one request with the comparative prompt
    and writes the trimmed answer to [static/capitulo_comparativo.txt]; an
    error of that request or of the write is raised.  [process_papers]
    itself never writes a file. *)
Theorem resumes_main_run (fuel : nat) (e : env) :
  let output_file :=
    path_join (lit "static") (lit "capitulo_comparativo.txt") in
  let process :=
    Resumes.process_papers fuel e (lit "papers") Resumes.default_model in
  output_file = lit "static/capitulo_comparativo.txt"
  /\ (forall ex,
        makedirs e (lit "static") = Raises ex ->
        Resumes.main fuel e = ([], Raised ex))
  /\ filter is_write (trace process) = []
  /\ (makedirs e (lit "static") = Returns tt ->
      (forall ex,
         outcome_of process = Raised ex ->
         Resumes.main fuel e = (trace process, Raised ex))
      /\ (outcome_of process = Done [] ->
          Resumes.main fuel e = (trace process, Done tt))
      /\ (forall d,
            d <> [] -> outcome_of process = Done d ->
            let request :=
              EvChat Resumes.default_model (Resumes.comparative_messages d) in
            Resumes.main fuel e
            = match strict_answer
                      (ollama_chat e Resumes.default_model
                         (Resumes.comparative_messages d)) with
              | Done chapter =>
                  (trace process ++ [request; EvWrite output_file chapter],
                   match write_text e output_file chapter with
                   | Returns _ => Done tt
                   | Raises ex => Raised ex
                   end)
              | Raised ex => (trace process ++ [request], Raised ex)
              | OutOfFuel => (trace process ++ [request], OutOfFuel)
              end)).
Proof.
  intros output_file process.
  split; [vm_compute; reflexivity | split; [|split]].
  - intros ex H. unfold Resumes.main. rewrite H. reflexivity.
  - apply process_papers_no_write.
  - intros Hm. unfold Resumes.main. rewrite Hm, pure_call_returns, bind_ret_l.
    cbv zeta. fold output_file. fold process.
    destruct process as [t r]. cbn [trace outcome_of fst snd].
    split; [|split].
    + intros ex ->. reflexivity.
    + intros ->. rewrite bind_done. unfold prepend, ret. cbn [fst snd].
      rewrite app_nil_r. reflexivity.
    + intros d Hne ->. rewrite bind_done.
      destruct d as [|entry d]; [contradiction|].
      rewrite comparative_answer.
      destruct (strict_answer _) as [chapter|ex|].
      * rewrite bind_done. unfold prepend, call. cbn [fst snd].
        destruct (write_text e output_file chapter) as [[]|ex'];
          reflexivity.
      * reflexivity.
      * reflexivity.
Qed.

Lemma resumes_main_run_witness :
  Resumes.main 5 Inputs.papers_dir
  = (trace (Resumes.process_papers 5 Inputs.papers_dir (lit "papers")
              Resumes.default_model)
     ++ [EvChat Resumes.default_model
           (Resumes.comparative_messages
              [(lit "X.PDF", lit "ok"); (lit "a.b", lit "ok")]);
         EvWrite (path_join (lit "static") (lit "capitulo_comparativo.txt"))
           (lit "ok")],
     Done tt).
Proof.
  refine (proj2 (proj2 (proj2 (proj2 (proj2
            (resumes_main_run 5 Inputs.papers_dir))) eq_refl))
            [(lit "X.PDF", lit "ok"); (lit "a.b", lit "ok")] _ _).
  - discriminate.
  - vm_compute. reflexivity.
Defined.







(** X18. The dictionary that [process_papers] returns has one entry per
    title: no key occurs twice, and there are at most as many entries as
    selected files (two selected files with the same title leave one
    entry). *)
Theorem process_papers_one_entry_per_title (fuel : nat) (e : env)
    (directory model : str) (names : list str) (summaries : dict) :
  listdir e directory = Returns names ->
  outcome_of (Resumes.process_papers fuel e directory model)
  = Done summaries ->
  NoDup (dict_keys summaries)
  /\ (length summaries <= length (filter Resumes.is_pdf_name names))%nat.
Proof.
  intros Hl H. unfold Resumes.process_papers in H. rewrite Hl in H.
  rewrite pure_call_returns, bind_ret_l in H.
  destruct (papers_loop_NoDup _ _ _ _ _ _ _ H (NoDup_nil _)) as [H1 H2].
  split; [exact H1|]. simpl in H2.
  rewrite sorted_filter_length in H2. exact H2.
Qed.

Lemma process_papers_one_entry_per_title_witness :
  NoDup (dict_keys [(lit "a", lit "ok")])
  /\ (length [(lit "a", lit "ok")]
      <= length (filter Resumes.is_pdf_name [lit "a.pdf.pdf"; lit "a.pdf"]))%nat.
Proof.
  apply (process_papers_one_entry_per_title 5
           (Inputs.machine [Inputs.text_page Inputs.hello]
              [lit "a.pdf.pdf"; lit "a.pdf"] (Returns [])
              (Inputs.answer (lit "ok")))
           (lit "papers") Resumes.default_model
           [lit "a.pdf.pdf"; lit "a.pdf"] [(lit "a", lit "ok")]);
    [reflexivity | vm_compute; reflexivity].
Defined.

(* ================================================================== *)
(** * The budget chosen by default and the script as a whole *)
(* ================================================================== *)

Lemma ideal_of_6_gib : ideal_of (6 * 1024 ^ 3) = 480000.
Proof. vm_compute. reflexivity. Qed.

Lemma ideal_of_below_6_gib : ideal_of (6 * 1024 ^ 3 - 1) = 479999.
Proof. vm_compute. reflexivity. Qed.

Lemma ideal_of_floor_edge :
  ideal_of 13757317 = 1024 /\ ideal_of 13757318 = 1025.
Proof. split; vm_compute; reflexivity. Qed.

(** X19. The budget that [chunk_text] of [resumes.py] takes when none is
    given, on a machine whose accelerator reports [bytes] bytes: it is the
    ceiling of 480000 characters exactly from 6 GiB of memory on, the floor
    of 1024 characters exactly up to 13757317 bytes, and strictly between
    the two otherwise. *)
Theorem default_budget_thresholds (e : env) (bytes : Z) :
  cuda_is_available e = true ->
  cuda_total_memory e = Returns bytes ->
  0 <= bytes < 2 ^ 64 ->
  (Resumes.get_ideal_chunk_size e 4000 = 480000 <-> 6 * 1024 ^ 3 <= bytes)
  /\ (Resumes.get_ideal_chunk_size e 4000 = 1024 <-> bytes <= 13757317)
  /\ 1024 <= Resumes.get_ideal_chunk_size e 4000 <= 480000
  /\ (forall fuel text,
        Resumes.chunk_text fuel e text None
        = Resumes.chunk_text fuel e text
            (Some (Z.max 1024 (Z.min (ideal_of bytes) 480000)))).
Proof.
  intros Ha Hm Hb.
  pose proof (get_ideal_chunk_size_gpu e 4000 bytes Ha Hm Hb) as Hg.
  change (4000 * 120) with 480000 in Hg.
  destruct ideal_of_floor_edge as [Hlo Hlo'].
  assert (H6 : 6 * 1024 ^ 3 <= bytes -> 480000 <= ideal_of bytes).
  { intros H. rewrite <- ideal_of_6_gib. apply ideal_of_mono. lia. }
  assert (H6' : bytes < 6 * 1024 ^ 3 -> ideal_of bytes <= 479999).
  { intros H. rewrite <- ideal_of_below_6_gib. apply ideal_of_mono. lia. }
  assert (H1 : bytes <= 13757317 -> ideal_of bytes <= 1024).
  { intros H. rewrite <- Hlo. apply ideal_of_mono. lia. }
  assert (H1' : 13757317 < bytes -> 1025 <= ideal_of bytes).
  { intros H. rewrite <- Hlo'. apply ideal_of_mono. lia. }
  split; [|split; [|split]].
  - rewrite Hg. split; intros H.
    + destruct (Z.le_gt_cases (6 * 1024 ^ 3) bytes) as [Hc|Hc];
        [exact Hc | specialize (H6' Hc); lia].
    + specialize (H6 H). lia.
  - rewrite Hg. split; intros H.
    + destruct (Z.le_gt_cases bytes 13757317) as [Hc|Hc];
        [exact Hc | specialize (H1' ltac:(lia)); lia].
    + specialize (H1 H). lia.
  - rewrite Hg. lia.
  - intros fuel text. unfold Resumes.chunk_text. rewrite Hg. reflexivity.
Qed.

Lemma default_budget_thresholds_witness :
  Resumes.get_ideal_chunk_size (Inputs.gpu_machine (8 * 1024 ^ 3)) 4000
  = 480000.
Proof.
  apply (proj1 (default_budget_thresholds (Inputs.gpu_machine (8 * 1024 ^ 3))
                  (8 * 1024 ^ 3) eq_refl eq_refl
                  ltac:(split; [discriminate | reflexivity]))).
  discriminate.
Defined.

Lemma ocr_calls_no_write (doc : list page) :
  forall n, filter is_write (ocr_calls n doc) = [].
Proof.
  induction doc as [|p rest IH]; intros n; [reflexivity|].
  cbn [ocr_calls]. rewrite filter_app, IH.
  destruct (truthy (strip (get_text p))); reflexivity.
Qed.

Lemma lenient_extract_no_write (e : env) (pdf_path : str) :
  no_write (ResumeOcrGpu.extract_text_from_pdf e pdf_path).
Proof.
  unfold no_write, ResumeOcrGpu.extract_text_from_pdf.
  destruct (isfile e pdf_path) eqn:Hf; cbn [negb]; [|reflexivity].
  destruct (fitz_open e pdf_path) as [doc|ex] eqn:Ho; [|reflexivity].
  rewrite lenient_pages_reference, bind_done. unfold prepend, ret, trace.
  cbn [fst snd app]. rewrite app_nil_r. apply ocr_calls_no_write.
Qed.

Lemma lenient_requests_no_write (model : str) (chunks : list str) :
  filter is_write (lenient_requests model chunks) = [].
Proof. induction chunks as [|c chunks IH]; [reflexivity | exact IH]. Qed.

(** Once extraction has returned: how [main] of the lenient script ends
    and the file it writes, if any. *)
Lemma lenient_main_writes_once (fuel : nat) (e : env)
    (pdf_path output_path model text : str) (t : list event) :
  ResumeOcrGpu.extract_text_from_pdf e pdf_path = (t, Done text) ->
  (outcome_of (ResumeOcrGpu.main fuel e pdf_path output_path model) = Done tt
   \/ outcome_of (ResumeOcrGpu.main fuel e pdf_path output_path model)
      = OutOfFuel)
  /\ (filter is_write
        (trace (ResumeOcrGpu.main fuel e pdf_path output_path model)) = []
      \/ exists content,
           filter is_write
             (trace (ResumeOcrGpu.main fuel e pdf_path output_path model))
           = [EvWrite output_path content]).
Proof.
  intros Ht.
  assert (Hw : filter is_write t = []).
  { pose proof (lenient_extract_no_write e pdf_path) as H.
    unfold no_write in H. rewrite Ht in H. exact H. }
  destruct text as [|x r].
  - unfold ResumeOcrGpu.main. rewrite Ht, bind_done.
    unfold prepend, ret, trace, outcome_of. cbn [truthy negb fst snd].
    rewrite app_nil_r. split; [left; reflexivity | left; exact Hw].
  - destruct (ResumeOcrGpu.chunk_text fuel (x :: r) 4000) as [chunks|] eqn:Hc.
    + rewrite (lenient_main_reference fuel e pdf_path output_path model
                 (x :: r) t chunks Ht ltac:(discriminate) Hc).
      unfold trace, outcome_of. cbn [fst snd].
      split; [left; reflexivity|].
      right. eexists.
      rewrite !filter_app, Hw, lenient_requests_no_write. reflexivity.
    + unfold ResumeOcrGpu.main. rewrite Ht, bind_done, Hc.
      unfold prepend, of_fuel, bind, trace, outcome_of.
      cbn [truthy negb fst snd]. rewrite app_nil_r.
      split; [right; reflexivity | left; exact Hw].
Qed.

Lemma bind_pure_call_raises {A B : Type} (ex : exn) (f : A -> M B) :
  bind (pure_call (Raises ex)) f = ([], Raised ex).
Proof. reflexivity. Qed.

(** X20. [resume_ocr_gpu.py] run as a script.  When the EasyOCR reader
    cannot be created the script exits with status 1 before anything else.
    An error of [os.makedirs("static")] leaves the script before any other
    call.  Once [os.makedirs] and the extraction of [PDF_FILE] have
    returned, no error leaves the script: it returns, or it is held in the
    chunking loop; and it writes at most one file, which is [OUT_FILE],
    that is [resumo_gpu.md] in the working directory, not a file under
    [static]. *)
Theorem gpu_script_run (fuel : nat) (e : env) :
  (forall ex, Script.resume_ocr_gpu (Raises ex) fuel e = Script.Exit 1)
  /\ (forall ex,
        makedirs e (lit "static") = Raises ex ->
        Script.resume_ocr_gpu (Returns tt) fuel e
        = Script.Ran ([], Raised ex))
  /\ (forall t text,
        makedirs e (lit "static") = Returns tt ->
        ResumeOcrGpu.extract_text_from_pdf e Script.PDF_FILE
        = (t, Done text) ->
        exists m,
          Script.resume_ocr_gpu (Returns tt) fuel e = Script.Ran m
          /\ (outcome_of m = Done tt \/ outcome_of m = OutOfFuel)
          /\ (filter is_write (trace m) = []
              \/ exists content,
                   filter is_write (trace m)
                   = [EvWrite Script.OUT_FILE content])).
Proof.
  split; [reflexivity | split].
  - intros ex Hm. unfold Script.resume_ocr_gpu.
    rewrite Hm, bind_pure_call_raises. reflexivity.
  - intros t text Hm Ht. eexists. split; [reflexivity|].
    rewrite Hm, pure_call_returns, bind_ret_l.
    exact (lenient_main_writes_once fuel e Script.PDF_FILE Script.OUT_FILE
             Script.default_model text t Ht).
Qed.

Lemma gpu_script_run_witness :
  exists m,
    Script.resume_ocr_gpu (Returns tt) 2 Inputs.llm_down = Script.Ran m
    /\ (outcome_of m = Done tt \/ outcome_of m = OutOfFuel)
    /\ (filter is_write (trace m) = []
        \/ exists content,
             filter is_write (trace m) = [EvWrite Script.OUT_FILE content]).
Proof.
  exact (proj2 (proj2 (gpu_script_run 2 Inputs.llm_down)) [] Inputs.hello
           eq_refl eq_refl).
Defined.

(* ================================================================== *)
(** * Paragraphs and the budget: when the loop is stuck and when not *)
(* ================================================================== *)

Lemma rfind_down_ge (s sub : str) (b j : Z) (k : nat) :
  b <= j < b + Z.of_nat k ->
  startswith (skipn (Z.to_nat j) s) sub = true ->
  j <= rfind_down s sub b k.
Proof.
  induction k as [|k IH]; intros Hj Hs; [lia|].
  cbn [rfind_down].
  destruct (startswith (skipn (Z.to_nat (b + Z.of_nat k)) s) sub) eqn:E;
    [lia|].
  apply IH; [|exact Hs].
  destruct (Z.eq_dec j (b + Z.of_nat k)) as [->|Hne]; [congruence | lia].
Qed.

Lemma rfind_down_last (s sub : str) (b j : Z) (k : nat) :
  b <= j < b + Z.of_nat k -> 0 <= j ->
  startswith (skipn (Z.to_nat j) s) sub = true ->
  (forall i, (Z.to_nat j < i)%nat -> startswith (skipn i s) sub = false) ->
  rfind_down s sub b k = j.
Proof.
  induction k as [|k IH]; intros Hj H0 Hs Hlast; [lia|].
  cbn [rfind_down].
  destruct (Z.eq_dec j (b + Z.of_nat k)) as [E|Hne].
  - rewrite <- E, Hs. reflexivity.
  - rewrite Hlast by lia. apply IH; [lia | exact H0 | exact Hs | exact Hlast].
Qed.

(** [rfind] on a window inside the text. *)
Lemma rfind_window (text : str) (start m : Z) :
  0 <= start -> 0 < m -> start + m < len text ->
  rfind text Chunker.para start (start + m)
  = rfind_down text Chunker.para start (Z.to_nat (m - 1)).
Proof.
  intros H0 Hm Hlt. unfold rfind.
  replace (len text <? start + m) with false
    by (symmetry; apply Z.ltb_ge; lia).
  replace (start + m <? 0) with false by (symmetry; apply Z.ltb_ge; lia).
  replace (start <? 0) with false by (symmetry; apply Z.ltb_ge; lia).
  f_equal. change (len Chunker.para) with 2. f_equal. lia.
Qed.

Lemma occurrence_absent_no_break (text : str) :
  (forall i, startswith (skipn i text) Chunker.para = false) ->
  no_break text.
Proof. intros H. unfold no_break, rfind. apply rfind_down_absent. exact H. Qed.

Lemma no_break_after_newline (b : str) :
  clean b -> no_break b -> no_break (LF :: b).
Proof.
  intros [Hne Hs] Hb. apply occurrence_absent_no_break. intros [|i].
  - apply strip_fixed in Hs. destruct Hs as [Hl _].
    apply lstrip_fixed in Hl.
    destruct Hl as [->|[c [r [-> Hc]]]]; [contradiction|].
    change (startswith (skipn 0 (LF :: c :: r)) Chunker.para)
      with ((LF =? LF) && ((LF =? c) && true)).
    destruct (LF =? c) eqn:E; [|reflexivity].
    apply Z.eqb_eq in E. subst c. discriminate.
  - simpl. apply no_break_no_occurrence. exact Hb.
Qed.

Lemma skipn_past_prefix (a l : str) (i : nat) :
  skipn (length a + i) (a ++ l) = skipn i l.
Proof.
  rewrite skipn_app, skipn_all2 by lia.
  replace (length a + i - length a)%nat with i by lia. reflexivity.
Qed.

(** In [a ++ "\n\n" ++ b], where ["\n" ++ b] holds no paragraph break,
    the last paragraph break stands at [len(a)]. *)
Lemma last_break (a b : str) :
  no_break (LF :: b) ->
  startswith (skipn (length a) (a ++ Chunker.para ++ b)) Chunker.para = true
  /\ (forall i, (length a < i)%nat ->
        startswith (skipn i (a ++ Chunker.para ++ b)) Chunker.para = false).
Proof.
  intros Hb. split.
  - rewrite <- (Nat.add_0_r (length a)), skipn_past_prefix.
    reflexivity.
  - intros i Hi.
    replace i with (length a + S (i - length a - 1))%nat by lia.
    rewrite skipn_past_prefix.
    apply (no_break_no_occurrence (LF :: b) Hb (i - length a - 1)).
Qed.

Lemma stuck_after_break (a b : str) (m : Z) :
  2 <= m -> len a + 2 <= m -> m < len b + 2 ->
  no_break (LF :: b) ->
  stuck_at (a ++ Chunker.para ++ b) m
    (fst (Chunker.chunk_iter 1 (a ++ Chunker.para ++ b) m)).
Proof.
  intros Hm Ha Hb Hno.
  destruct (last_break a b Hno) as [Hat Hlast].
  set (text := a ++ Chunker.para ++ b) in *.
  assert (Hlen : len text = len a + 2 + len b).
  { unfold text, len. rewrite !length_app. simpl. lia. }
  assert (Hna : 0 <= len a) by (unfold len; lia).
  assert (Hfind : forall start,
             0 <= start <= len a ->
             rfind text Chunker.para start (start + m) = len a).
  { intros start Hs. rewrite rfind_window by lia.
    apply rfind_down_last.
    - unfold len in *. lia.
    - unfold len. lia.
    - unfold len. rewrite Nat2Z.id. exact Hat.
    - intros i Hi. apply Hlast. unfold len in Hi.
      rewrite Nat2Z.id in Hi. exact Hi. }
  assert (Hcut : fst (Chunker.chunk_iter 1 text m) = len a).
  { cbn [Chunker.chunk_iter Chunker.chunk_body fst].
    unfold Chunker.cut_point.
    replace (0 + m <? len text) with true by (symmetry; apply Z.ltb_lt; lia).
    rewrite (Hfind 0) by (unfold len; lia).
    replace (len a =? -1) with false
      by (symmetry; apply Z.eqb_neq; unfold len; lia).
    reflexivity. }
  rewrite Hcut. split; [lia|]. apply Hfind. unfold len. lia.
Qed.

(** The next paragraph break after any position [s] of a text made of
    paragraphs of at most [m - 4] characters lies in the window that opens
    at [s], unless the window reaches the end of the text. *)
Lemma next_break (m : Z) (ps : list str) :
  4 <= m ->
  Forall (fun p => len p <= m - 4) ps ->
  forall s,
    -2 <= s -> s + m < len (join Chunker.para ps) ->
    exists j,
      s < j <= s + m - 2 /\ 0 <= j
      /\ startswith (skipn (Z.to_nat j) (join Chunker.para ps)) Chunker.para
         = true.
Proof.
  intros Hm. induction ps as [|p ps IH]; intros Hall s Hs Hlt.
  - unfold len in Hlt. simpl in Hlt. lia.
  - inversion Hall as [|? ? Hp Hrest]; subst.
    destruct ps as [|q r]; [simpl in Hlt; lia|].
    change (join Chunker.para (p :: q :: r))
      with (p ++ Chunker.para ++ join Chunker.para (q :: r)) in *.
    set (J := join Chunker.para (q :: r)) in *.
    assert (HlenJ : len (p ++ Chunker.para ++ J) = len p + 2 + len J).
    { unfold len. rewrite !length_app. simpl. lia. }
    destruct (Z.lt_ge_cases s (len p)) as [Hc|Hc].
    + exists (len p). split; [lia|]. split; [unfold len; lia|].
      unfold len. rewrite Nat2Z.id.
      rewrite <- (Nat.add_0_r (length p)), skipn_past_prefix.
      reflexivity.
    + destruct (IH Hrest (s - len p - 2) ltac:(lia) ltac:(lia))
        as [j [Hj [Hj0 Hat]]].
      exists (j + len p + 2). split; [lia|]. split; [unfold len; lia|].
      replace (Z.to_nat (j + len p + 2))
        with (length p + (2 + Z.to_nat j))%nat by (unfold len; lia).
      rewrite skipn_past_prefix. exact Hat.
Qed.

Lemma short_paragraphs_never_stuck (m : Z) (ps : list str) :
  4 <= m ->
  Forall (fun p => len p <= m - 4) ps ->
  forall k,
    ~ stuck_at (join Chunker.para ps) m
        (fst (Chunker.chunk_iter k (join Chunker.para ps) m)).
Proof.
  intros Hm Hall k [Hlt Hr].
  pose proof (chunk_iter_start_nonneg (join Chunker.para ps) m
                ltac:(lia) k) as H0.
  destruct (next_break m ps Hm Hall
              (fst (Chunker.chunk_iter k (join Chunker.para ps) m))
              ltac:(lia) Hlt) as [j [Hj [_ Hat]]].
  rewrite rfind_window in Hr by lia.
  pose proof (rfind_down_ge (join Chunker.para ps) Chunker.para
                (fst (Chunker.chunk_iter k (join Chunker.para ps) m)) j
                (Z.to_nat (m - 1)) ltac:(lia) Hat).
  lia.
Qed.

(** X21. A text made of a part [a], a paragraph break and a last
    paragraph [b] without blank line hangs [chunk_text] whenever [a] and
    the break fit in the budget while the break and [b] do not: the loop
    cuts at the break and then finds it again for ever.  So [main] of
    [resume_ocr_gpu.py] never gets past chunking on a PDF of two pages with
    embedded text whose first page has at most 3998 characters and whose
    second page has at least 3999 and no blank line: it makes no chat
    request and writes nothing. *)
Theorem chunk_text_stuck_after_paragraph :
  (forall a b m,
     2 <= m -> len a + 2 <= m -> m < len b + 2 ->
     no_break (LF :: b) ->
     (forall fuel,
        ResumeOcrGpu.chunk_text fuel (a ++ Chunker.para ++ b) m = None)
     /\ (forall fuel e,
           Resumes.chunk_text fuel e (a ++ Chunker.para ++ b) (Some m)
           = None))
  /\ (forall e pdf_path output_path model p1 p2,
        isfile e pdf_path = true ->
        fitz_open e pdf_path = Returns [p1; p2] ->
        strip (get_text p1) <> [] ->
        len (strip (get_text p1)) <= 3998 ->
        3999 <= len (strip (get_text p2)) ->
        no_break (strip (get_text p2)) ->
        forall fuel,
          ResumeOcrGpu.main fuel e pdf_path output_path model
          = ([], OutOfFuel)).
Proof.
  assert (Hchunk : forall a b m,
     2 <= m -> len a + 2 <= m -> m < len b + 2 ->
     no_break (LF :: b) ->
     forall fuel,
       Chunker.chunk_from_start fuel (a ++ Chunker.para ++ b) m = None).
  { intros a b m Hm Ha Hb Hno fuel.
    apply (stuck_never_returns _ m ltac:(lia) 1%nat).
    apply stuck_after_break; assumption. }
  split.
  - intros a b m Hm Ha Hb Hno.
    split; [|intros fuel e]; apply Hchunk; assumption.
  - intros e pdf_path output_path model p1 p2 Hf Ho H1 Hl1 Hl2 Hno fuel.
    assert (H2 : truthy (strip (get_text p2)) = true).
    { destruct (strip (get_text p2)); [unfold len in Hl2; simpl in Hl2; lia|].
      reflexivity. }
    assert (H1' : truthy (strip (get_text p1)) = true)
      by (destruct (strip (get_text p1)); [contradiction | reflexivity]).
    assert (Hext : ResumeOcrGpu.extract_text_from_pdf e pdf_path
                   = ([], Done (strip (get_text p1) ++ Chunker.para
                                ++ strip (get_text p2)))).
    { rewrite (lenient_extract_reference e pdf_path _ Hf Ho).
      cbn [ocr_calls map filter]. unfold lenient_page_text.
      rewrite H1', H2. cbv iota. rewrite H1', H2. reflexivity. }
    unfold ResumeOcrGpu.main. rewrite Hext, bind_done, prepend_nil.
    destruct (strip (get_text p1) ++ Chunker.para ++ strip (get_text p2))
      as [|x r] eqn:E.
    { destruct (strip (get_text p1)); [contradiction | discriminate]. }
    cbn [truthy negb]. rewrite <- E.
    unfold ResumeOcrGpu.chunk_text.
    rewrite Hchunk; [reflexivity | lia | lia | lia |].
    apply no_break_after_newline; [|exact Hno].
    apply clean_strip. exact H2.
Qed.

Lemma chunk_text_stuck_after_paragraph_witness :
  ResumeOcrGpu.chunk_text 1000
    (lit "Title" ++ Chunker.para ++ lit "A long paragraph.") 10
  = None.
Proof.
  exact (proj1 (proj1 chunk_text_stuck_after_paragraph (lit "Title")
                  (lit "A long paragraph.") 10
                  ltac:(lia) ltac:(vm_compute; discriminate)
                  ltac:(vm_compute; reflexivity) ltac:(reflexivity))
           1000%nat).
Defined.

(** X22. [chunk_text] returns, within [len(text)] runs of its loop, on
    every text made of paragraphs joined by paragraph breaks when each
    paragraph is at least 4 characters shorter than the budget.  The
    margin cannot be made smaller: with paragraphs 3 characters shorter
    than the budget the loop can hang. *)
Theorem chunk_text_returns_on_short_paragraphs (ps : list str) (m : Z) :
  4 <= m ->
  Forall (fun p => len p <= m - 4) ps ->
  (exists chunks,
     ResumeOcrGpu.chunk_text (length (join Chunker.para ps))
       (join Chunker.para ps) m = Some chunks)
  /\ (forall e, exists chunks,
        Resumes.chunk_text (length (join Chunker.para ps)) e
          (join Chunker.para ps) (Some m) = Some chunks)
  /\ (forall fuel,
        ResumeOcrGpu.chunk_text fuel
          (join Chunker.para [lit "ab"; lit "cd"; lit "ef"]) 5 = None).
Proof.
  intros Hm Hall.
  assert (H : exists chunks,
             Chunker.chunk_from_start (length (join Chunker.para ps))
               (join Chunker.para ps) m = Some chunks).
  { apply (never_stuck_returns _ m ltac:(lia)
             (short_paragraphs_never_stuck m ps Hm Hall)
             (length (join Chunker.para ps)) 0).
    simpl. unfold len. lia. }
  split; [exact H | split; [intros e; exact H|]].
  intros fuel.
  apply (stuck_never_returns _ 5 ltac:(lia) 1%nat).
  split; reflexivity.
Qed.

Lemma chunk_text_returns_on_short_paragraphs_witness :
  exists chunks,
    ResumeOcrGpu.chunk_text
      (length (join Chunker.para [lit "ab"; lit "cd"; lit "ef"]))
      (join Chunker.para [lit "ab"; lit "cd"; lit "ef"]) 6
    = Some chunks.
Proof.
  apply (proj1 (chunk_text_returns_on_short_paragraphs
                  [lit "ab"; lit "cd"; lit "ef"] 6 ltac:(lia)
                  ltac:(repeat constructor; vm_compute; discriminate))).
Defined.
